(** * Question-flow engine: a shallow embedding and its properties

    The development follows [question_flow_engine.py] (catalog load,
    dependency resolver, ordering policy, flow controller),
    [mongodb_service.py] ([save_user_responses] and the session
    documents), [chatbot_engine.py] (the capture and the export dictionary
    of a turn, the session store and the turn around the engine, the
    history format, the streaming chunks) and the history update of
    [main.py].

    Conventions.
    - Python [str] is [string]; the model covers ASCII text, where the length
      of a string is its number of characters.
    - A Python [dict] is an association list in insertion order with unique
      keys ([dict_set] keeps the position of an existing key, as Python does).
    - A Python [set] of labels is a [gset string].
    - Calls into the embedding model and the language model do not feed the
      selection logic; they are left out. *)

From Stdlib Require Import ZArith Ascii String List Bool Lia Permutation.
From stdpp Require Import base gmap sets list strings sorting.

Local Open Scope string_scope.
Local Open Scope list_scope.
Local Open Scope nat_scope.

(** ** Python strings *)

Module PyStr.

Definition ord (c : ascii) : nat := nat_of_ascii c.
Definition chr (n : nat) : ascii := ascii_of_nat n.

(** [str.isspace] on ASCII: TAB..CR, FS..US and the space. *)
Definition is_space (c : ascii) : bool :=
  let n := ord c in
  (((9 <=? n) && (n <=? 13)) || ((28 <=? n) && (n <=? 32)))%nat.

Definition is_digit (c : ascii) : bool :=
  let n := ord c in ((48 <=? n) && (n <=? 57))%nat.

Definition is_upper (c : ascii) : bool :=
  let n := ord c in ((65 <=? n) && (n <=? 90))%nat.

Definition is_lower (c : ascii) : bool :=
  let n := ord c in ((97 <=? n) && (n <=? 122))%nat.

Definition is_alpha (c : ascii) : bool := is_upper c || is_lower c.
Definition is_alnum (c : ascii) : bool := is_alpha c || is_digit c.

Definition to_lower (c : ascii) : ascii :=
  if is_upper c then chr (ord c + 32) else c.
Definition to_upper (c : ascii) : ascii :=
  if is_lower c then chr (ord c - 32) else c.

Fixpoint all_chars (p : ascii -> bool) (s : string) : bool :=
  match s with
  | EmptyString => true
  | String c s' => p c && all_chars p s'
  end.

Fixpoint map_chars (f : ascii -> ascii) (s : string) : string :=
  match s with
  | EmptyString => EmptyString
  | String c s' => String (f c) (map_chars f s')
  end.

(** Truth value of a string: [bool(s)]. *)
Definition truthy (s : string) : bool :=
  match s with EmptyString => false | _ => true end.

(** [s.lower()] *)
Definition lower (s : string) : string := map_chars to_lower s.

(** [s.isalnum()]: at least one character, all alphanumeric. *)
Definition isalnum (s : string) : bool := truthy s && all_chars is_alnum s.

Fixpoint lstrip (s : string) : string :=
  match s with
  | String c s' => if is_space c then lstrip s' else s
  | EmptyString => EmptyString
  end.

Fixpoint rstrip (s : string) : string :=
  match s with
  | EmptyString => EmptyString
  | String c s' =>
      match rstrip s' with
      | EmptyString => if is_space c then EmptyString else String c EmptyString
      | r => String c r
      end
  end.

(** [s.strip()] *)
Definition strip (s : string) : string := rstrip (lstrip s).

(** [sub in s] *)
Fixpoint contains (sub s : string) : bool :=
  String.prefix sub s ||
  match s with
  | EmptyString => false
  | String _ s' => contains sub s'
  end.

(** [s[:n]] *)
Definition take_prefix (n : nat) (s : string) : string := String.substring 0 n s.

(** [s.split(sep)] for a one-character separator. *)
Fixpoint split (sep : ascii) (s : string) : list string :=
  match s with
  | EmptyString => [EmptyString]
  | String c s' =>
      if Ascii.eqb c sep then EmptyString :: split sep s'
      else match split sep s' with
           | piece :: pieces => String c piece :: pieces
           | [] => [String c EmptyString]
           end
  end.

(** [s.replace(a, b)] for one-character [a] and [b]. *)
Definition replace (a b : ascii) (s : string) : string :=
  map_chars (fun c => if Ascii.eqb c a then b else c) s.

(** [s.title()]: a cased character is upper-cased after an uncased one
    and lower-cased after a cased one. *)
Fixpoint title_from (previous_is_cased : bool) (s : string) : string :=
  match s with
  | EmptyString => EmptyString
  | String c s' =>
      if is_alpha c
      then String (if previous_is_cased then to_lower c else to_upper c)
                  (title_from true s')
      else String c (title_from false s')
  end.
Definition title (s : string) : string := title_from false s.

Fixpoint digits_value (acc : Z) (s : string) : Z :=
  match s with
  | EmptyString => acc
  | String c s' => digits_value (10 * acc + Z.of_nat (ord c - 48)) s'
  end.

Definition parse_digits (s : string) : option Z :=
  if truthy s && all_chars is_digit s then Some (digits_value 0 s) else None.

(** The whitespace [int] skips around a number: the C [isspace] of the
    interpreter, TAB..CR and the space. (FS..US are whitespace for
    [str.isspace] and [str.strip], not for [int].) *)
Definition is_c_space (c : ascii) : bool :=
  let n := ord c in
  (((9 <=? n) && (n <=? 13)) || (n =? 32))%nat.

Fixpoint lstrip_by (p : ascii -> bool) (s : string) : string :=
  match s with
  | String c s' => if p c then lstrip_by p s' else s
  | EmptyString => EmptyString
  end.

Fixpoint rstrip_by (p : ascii -> bool) (s : string) : string :=
  match s with
  | EmptyString => EmptyString
  | String c s' =>
      match rstrip_by p s' with
      | EmptyString => if p c then EmptyString else String c EmptyString
      | r => String c r
      end
  end.

(** [sys.int_info.default_max_str_digits]: [int] refuses a number written
    with more digits. *)
Definition int_max_str_digits : Z := 4300%Z.

(** [int(s)] in base ten: surrounding whitespace, an optional sign, then
    decimal digits, at most [int_max_str_digits] of them. [None] stands
    for [ValueError]. (Underscores between digits cannot reach it here: the
    argument is a piece of a split on the underscore.) *)
Definition int (s : string) : option Z :=
  let number := rstrip_by is_c_space (lstrip_by is_c_space s) in
  let '(negative, digits) :=
    match number with
    | String "-" digits => (true, digits)
    | String "+" digits => (false, digits)
    | digits => (false, digits)
    end in
  if (int_max_str_digits <? Z.of_nat (String.length digits))%Z then None
  else if negative then Z.opp <$> parse_digits digits
       else parse_digits digits.

Fixpoint digits_of (fuel n : nat) (acc : string) : string :=
  match fuel with
  | O => acc
  | S fuel' =>
      let acc' := String (chr (48 + n mod 10)) acc in
      if (n / 10 =? 0)%nat then acc' else digits_of fuel' (n / 10) acc'
  end.

(** [str(n)] for a natural number (one that prints in at most
    [int_max_str_digits] digits, which a position in a list always
    does). *)
Definition str_of_nat (n : nat) : string := digits_of (S n) n EmptyString.

End PyStr.

(** ** Python dictionaries *)

Abbreviation dict V := (list (string * V)) (only parsing).

Section Dict.
Context {V : Type}.
Abbreviation dict := (dict V).

(** [d.get(k)] *)
Fixpoint dict_get (k : string) (d : dict) : option V :=
  match d with
  | [] => None
  | (k', v) :: d' => if String.eqb k k' then Some v else dict_get k d'
  end.

(** [k in d] *)
Definition dict_mem (k : string) (d : dict) : bool :=
  match dict_get k d with Some _ => true | None => false end.

(** [d[k] = v]: an existing key keeps its position. *)
Fixpoint dict_set (k : string) (v : V) (d : dict) : dict :=
  match d with
  | [] => [(k, v)]
  | (k', v') :: d' =>
      if String.eqb k k' then (k, v) :: d' else (k', v') :: dict_set k v d'
  end.

(** [d.update(other)], also [{**d, **other}]. *)
Definition dict_update (d other : dict) : dict :=
  fold_left (fun acc kv => dict_set (fst kv) (snd kv) acc) other d.

Definition dict_keys (d : dict) : list string := fst <$> d.

End Dict.

(** ** The catalog held by the engine *)

(** One entry of [self.questions]. [qd_old_id] is set by the flat
    (old-structure) load only. *)
Record question_data := {
  qd_question : string;
  qd_category : string;
  qd_category_title : string;
  qd_subcategory : string;
  qd_subcategory_title : string;
  qd_label : string;
  qd_old_id : option string
}.

(** The dictionary [q_dict] that [_get_available_questions] builds for an
    eligible question. *)
Record q_dict := {
  q_id : string;
  q_question : string;
  q_category : string;
  q_subcategory : string;
  q_label : string
}.

(** The catalog fields of [QuestionFlowEngine]. *)
Record QuestionFlowEngine := {
  questions : dict question_data;
  dependencies : dict (list string);
  priorities : dict Z;
  flow_order : list string
}.

(** ** Dependency resolver *)

Section Resolver.
Variable self : QuestionFlowEngine.

Definition MAX_QUESTIONS : nat := 2.

(** [self.dependencies.get(question_label, [])] *)
Definition deps_of (question_label : string) : list string :=
  default [] (dict_get question_label (dependencies self)).

(** [all(dep in answered_questions for dep in deps)] *)
Definition deps_satisfied (answered_questions : gset string)
    (question_label : string) : bool :=
  forallb (fun dep => bool_decide (dep ∈ answered_questions))
          (deps_of question_label).

Definition make_q_dict (question_label : string) (qd : question_data) : q_dict :=
  {| q_id := question_label;
     q_question := qd_question qd;
     q_category := qd_category qd;
     q_subcategory := qd_subcategory qd;
     q_label := question_label |}.

Definition q_dict_of (item : string * question_data) : q_dict :=
  make_q_dict item.1 item.2.

(** The loop over [self.questions.items()], with its [continue] and its
    [break]. *)
Fixpoint scan_questions (answered_questions : gset string)
    (items : dict question_data) (available : list q_dict) : list q_dict :=
  match items with
  | [] => available
  | (question_label, qd) :: rest =>
      if bool_decide (question_label ∈ answered_questions)
      then scan_questions answered_questions rest available
      else if deps_satisfied answered_questions question_label
      then
        let available' := available ++ [make_q_dict question_label qd] in
        if (MAX_QUESTIONS <=? length available')%nat
        then available'
        else scan_questions answered_questions rest available'
      else scan_questions answered_questions rest available
  end.

Definition _get_available_questions (answered_questions : gset string)
    : list q_dict :=
  if (MAX_QUESTIONS <=? size answered_questions)%nat then []
  else scan_questions answered_questions (questions self) [].

(** A label can be asked: it is not answered and all its dependencies
    are. *)
Definition eligibleb (answered_questions : gset string)
    (item : string * question_data) : bool :=
  negb (bool_decide (item.1 ∈ answered_questions))
  && deps_satisfied answered_questions item.1.

Definition eligible (answered_questions : gset string)
    (question_label : string) : Prop :=
  (question_label ∉ answered_questions) ∧
  (∀ dep, dep ∈ deps_of question_label → dep ∈ answered_questions).

End Resolver.

(** ** Ordering policy *)

(** [sorted(xs, key=key)]: Python's sort is stable and compares keys with
    [<] only. Insertion from the right places an element after the elements
    with a strictly smaller key and before all others, which is the result
    every stable sort returns. *)
Section PySorted.
Context {A K : Type}.
Variable key : A → K.
Variable ltb : K → K → bool.

Fixpoint insert_by (x : A) (l : list A) : list A :=
  match l with
  | [] => [x]
  | y :: l' => if ltb (key y) (key x) then y :: insert_by x l' else x :: l
  end.

Definition py_sorted (l : list A) : list A := foldr insert_by [] l.

(** [x] may stand before [y]: the key of [y] is not below the key of [x]. *)
Definition key_le (x y : A) : Prop := ltb (key y) (key x) = false.
End PySorted.

(** Comparison of the key tuples: [a < b] on 3-tuples of integers. *)
Definition tuple_ltb (a b : Z * Z * Z) : bool :=
  let '(a1, a2, a3) := a in
  let '(b1, b2, b3) := b in
  ((a1 <? b1) || ((a1 =? b1) && ((a2 <? b2) || ((a2 =? b2) && (a3 <? b3)))))%Z.

(** [a <= b] on the key tuples. *)
Definition tuple_le (a b : Z * Z * Z) : Prop :=
  let '(a1, a2, a3) := a in
  let '(b1, b2, b3) := b in
  (a1 < b1 ∨ (a1 = b1 ∧ (a2 < b2 ∨ (a2 = b2 ∧ a3 ≤ b3))))%Z.

Section Ordering.
Variable self : QuestionFlowEngine.

(** [enumerate(l)], counting from [i]. *)
Fixpoint enumerate_from {A} (i : nat) (l : list A) : list (nat * A) :=
  match l with
  | [] => []
  | x :: l' => (i, x) :: enumerate_from (S i) l'
  end.

(** [{cat: idx for idx, cat in enumerate(self.flow_order)}]: a category
    listed twice keeps its last index. *)
Definition category_order_map : dict Z :=
  fold_left (fun m ic => dict_set (snd ic) (Z.of_nat (fst ic)) m)
            (enumerate_from 0 (flow_order self)) [].

(** The number extracted from the label; [999] stands in when there is no
    underscore or when [int] raises. *)
Definition q_num_of (question_label : string) : Z :=
  if PyStr.contains "_" question_label
  then match PyStr.split "_" question_label with
       | _ :: piece :: _ => default 999%Z (PyStr.int piece)
       | _ => 999%Z
       end
  else 999%Z.

Definition sort_key (q : q_dict) : Z * Z * Z :=
  let question_label := q_id q in
  let category := q_category q in
  let category_order := default 999%Z (dict_get category category_order_map) in
  let priority := default 999%Z (dict_get question_label (priorities self)) in
  (category_order, priority, q_num_of question_label).

Definition _sort_questions_by_order (questions : list q_dict) : list q_dict :=
  py_sorted sort_key tuple_ltb questions.

(** [conversation_history] and [current_answers] are accepted and not
    read. *)
Definition _judge_next_question (available_questions : list q_dict)
    (conversation_history : list (string * string))
    (current_answers : dict string) : option string :=
  match available_questions with
  | [] => None
  | _ =>
      match _sort_questions_by_order available_questions with
      | selected_q :: _ => Some (q_id selected_q)
      | [] => None
      end
  end.

End Ordering.

(** ** Flow controller *)

(** Entries of a message list: LangChain messages, and the plain strings
    that [session_state["messages"]] holds between calls. *)
Inductive message :=
  | HumanMessage (content : string)
  | AIMessage (content : string)
  | PlainText (content : string).

Definition content_of (msg : message) : string :=
  match msg with
  | HumanMessage c | AIMessage c | PlainText c => c
  end.

(** The graph state [QuestionFlowState] (embedding fields left out). *)
Record QuestionFlowState := {
  messages : list message;
  answered_questions : gset string;
  current_question_id : option string;
  answers : dict string;
  flow_complete : bool
}.

(** The [session_state] dictionary a caller keeps between calls; an absent
    key reads as its empty default. *)
Record session_state := {
  ss_answered_questions : gset string;
  ss_answers : dict string;
  ss_messages : list string;
  ss_current_question_id : option string;
  ss_asked_questions : gset string;
  ss_current_question_text : dict string
}.

(** What [workflow.get_state(config)] yields: it raises, it has nothing, or
    it holds the values stored for the thread. *)
Inductive langgraph_memory :=
  | NoCheckpoint
  | EmptyCheckpoint
  | Checkpoint (existing : QuestionFlowState).

(** The dictionary returned by [process_message]. *)
Record flow_result := {
  response : string;
  next_question : option string;
  r_flow_complete : bool;
  answered_count : nat;
  total_questions : nat;
  r_session_state : session_state;
  r_current_question_id : option string;
  r_error : option string
}.

(** Truth value of an [Optional[str]]. *)
Definition truthy_opt (o : option string) : bool :=
  match o with Some s => PyStr.truthy s | None => false end.

Definition set_messages (st : QuestionFlowState) (v : list message) :=
  {| messages := v; answered_questions := answered_questions st;
     current_question_id := current_question_id st; answers := answers st;
     flow_complete := flow_complete st |}.
Definition set_answered_questions (st : QuestionFlowState) (v : gset string) :=
  {| messages := messages st; answered_questions := v;
     current_question_id := current_question_id st; answers := answers st;
     flow_complete := flow_complete st |}.
Definition set_current_question_id (st : QuestionFlowState) (v : option string) :=
  {| messages := messages st; answered_questions := answered_questions st;
     current_question_id := v; answers := answers st;
     flow_complete := flow_complete st |}.
Definition set_answers (st : QuestionFlowState) (v : dict string) :=
  {| messages := messages st; answered_questions := answered_questions st;
     current_question_id := current_question_id st; answers := v;
     flow_complete := flow_complete st |}.
Definition set_flow_complete (st : QuestionFlowState) (v : bool) :=
  {| messages := messages st; answered_questions := answered_questions st;
     current_question_id := current_question_id st; answers := answers st;
     flow_complete := v |}.

(** The labels of a list of question dictionaries. *)
Definition ids (qs : list q_dict) : list string := q_id <$> qs.

(** The keys of an answers dictionary, as a set. *)
Definition key_set (d : dict string) : gset string := list_to_set (dict_keys d).

Definition greeting : string :=
  "Hello! I'm your Medical Assistant. I'll guide you through a structured consultation. Are you ready to begin?".

Section Flow.
Variable self : QuestionFlowEngine.

(** [for msg in reversed(messages): if isinstance(msg, HumanMessage)] *)
Fixpoint first_human (reversed : list message) : option string :=
  match reversed with
  | [] => None
  | HumanMessage c :: _ => Some c
  | _ :: rest => first_human rest
  end.

(** The loop over [self.questions.items()] that matches a shown text
    against the catalog. *)
Fixpoint match_question (items : dict question_data) (question_text : string)
    : option string :=
  match items with
  | [] => None
  | (q, q_data) :: rest =>
      if String.eqb (qd_question q_data) question_text
         || PyStr.contains (PyStr.take_prefix 50 (qd_question q_data)) question_text
      then Some q
      else match_question rest question_text
  end.

(** The backwards scan for the last [AIMessage] that matches a question;
    returns the local [question_id] and [state["current_question_id"]]. *)
Fixpoint scan_messages (reversed : list message)
    (question_id current : option string) : option string * option string :=
  match reversed with
  | [] => (question_id, current)
  | AIMessage question_text :: rest =>
      match match_question (questions self) question_text with
      | Some q =>
          if PyStr.truthy q then (Some q, Some q)
          else scan_messages rest (Some q) (Some q)
      | None => scan_messages rest question_id current
      end
  | _ :: rest => scan_messages rest question_id current
  end.

Definition _process_answer_node (state : QuestionFlowState) : QuestionFlowState :=
  match messages state with
  | [] => state
  | _ =>
      match first_human (rev (messages state)) with
      | None => state
      | Some answer =>
          let '(question_id, current) :=
            if truthy_opt (current_question_id state)
            then (current_question_id state, current_question_id state)
            else scan_messages (rev (messages state))
                   (current_question_id state) (current_question_id state) in
          let state := set_current_question_id state current in
          match question_id with
          | Some q =>
              if PyStr.truthy q
              then set_answered_questions
                     (set_answers state (dict_set q answer (answers state)))
                     (answered_questions state ∪ {[ q ]})
              else state
          | None => state
          end
      end
  end.

(** The head of the sorted candidates, [sorted_questions[0]["id"]]. *)
Definition first_sorted (available : list q_dict) : option string :=
  match _sort_questions_by_order self available with
  | q :: _ => Some (q_id q)
  | [] => None
  end.

(** [_select_question_node] from the point where [available] is known to
    be non-empty: the judge, the check against the answered set, and the
    fallback. *)
Definition select_from (available : list q_dict) (answered : gset string)
    (state : QuestionFlowState) : QuestionFlowState :=
  let conversation_history := answers state in
  let selected_id :=
    _judge_next_question self available conversation_history (answers state) in
  let '(available, selected_id) :=
    match selected_id with
    | Some sel =>
        if PyStr.truthy sel && bool_decide (sel ∈ answered)
        then
          let available :=
            filter (fun q => negb (String.eqb (q_id q) sel)) available in
          match available with
          | [] => (available, None)
          | _ => (available, first_sorted available)
          end
        else (available, selected_id)
    | None => (available, selected_id)
    end in
  if truthy_opt selected_id
     && match selected_id with
        | Some sel => bool_decide (sel ∈ ids available)
        | None => false
        end
  then set_current_question_id state selected_id
  else
    match _sort_questions_by_order self available with
    | q :: _ => set_current_question_id state (Some (q_id q))
    | [] => set_flow_complete (set_current_question_id state None) true
    end.

Definition _select_question_node (state : QuestionFlowState) : QuestionFlowState :=
  let answered := answered_questions state ∪ key_set (answers state) in
  let state := set_answered_questions state answered in
  let available := _get_available_questions self answered in
  match available with
  | [] => set_current_question_id (set_flow_complete state true) None
  | _ => select_from available answered state
  end.

Definition _ask_question_node (state : QuestionFlowState) : QuestionFlowState :=
  match current_question_id state with
  | Some question_id =>
      if PyStr.truthy question_id
      then match dict_get question_id (questions self) with
           | Some q_data =>
               set_messages state
                 (messages state ++ [AIMessage (qd_question q_data)])
           | None => state
           end
      else state
  | None => state
  end.

Definition _check_completion_node (state : QuestionFlowState) : QuestionFlowState :=
  match _get_available_questions self (answered_questions state) with
  | [] => set_flow_complete state true
  | _ => set_flow_complete state false
  end.

(** The compiled graph: [process_answer], [select_question],
    [ask_question], [check_completion], then [END] on either branch of
    [_should_continue]. *)
Definition workflow (state : QuestionFlowState) : QuestionFlowState :=
  _check_completion_node
    (_ask_question_node (_select_question_node (_process_answer_node state))).

(** The merge of [initial_state] with the values found in the LangGraph
    memory (the body of [if current_state and current_state.values]). *)
Definition merge_existing (existing initial_state : QuestionFlowState)
    (user_message : string) : QuestionFlowState :=
  let answered := answered_questions initial_state in
  let answered :=
    if bool_decide (answered_questions existing = ∅) then answered
    else answered ∪ answered_questions existing in
  let '(merged_answers, answered) :=
    match answers existing with
    | [] => (answers initial_state, answered)
    | _ =>
        let merged_answers :=
          dict_update (answers existing) (answers initial_state) in
        (merged_answers, answered ∪ key_set merged_answers)
    end in
  let current :=
    if negb (truthy_opt (current_question_id initial_state))
       && truthy_opt (current_question_id existing)
    then current_question_id existing
    else current_question_id initial_state in
  let msgs :=
    match messages existing with
    | [] => [HumanMessage user_message]
    | _ => messages existing ++ [HumanMessage user_message]
    end in
  {| messages := msgs;
     answered_questions := answered;
     current_question_id := current;
     answers := merged_answers;
     flow_complete := flow_complete initial_state |}.

(** [initial_state] after the [try] around [workflow.get_state]. *)
Definition load_memory (memory : langgraph_memory)
    (initial_state : QuestionFlowState) (user_message : string)
    : QuestionFlowState :=
  match memory with
  | NoCheckpoint => set_messages initial_state [HumanMessage user_message]
  | EmptyCheckpoint => initial_state
  | Checkpoint existing => merge_existing existing initial_state user_message
  end.

Definition no_questions_error : string :=
  "Error: No questions available. Questions file loaded: "
  +:+ PyStr.str_of_nat (length (questions self)) +:+ " questions found.".

(** [process_message], the branch taken on the first interaction. *)
Definition first_interaction (user_message : string)
    (session : session_state) : flow_result :=
  match _get_available_questions self ∅ with
  | [] =>
      {| response := greeting;
         next_question := None;
         r_flow_complete := false;
         answered_count := 0;
         total_questions := length (questions self);
         r_session_state := session;
         r_current_question_id := None;
         r_error := Some no_questions_error |}
  | available =>
      match _sort_questions_by_order self available with
      | first_question :: _ =>
          let question_text := q_question first_question in
          let first_q_id := q_id first_question in
          {| response := question_text;
             next_question := Some question_text;
             r_flow_complete := false;
             answered_count := 0;
             total_questions := length (questions self);
             r_session_state :=
               {| ss_answered_questions := ss_answered_questions session;
                  ss_answers := ss_answers session;
                  ss_messages :=
                    ss_messages session ++ [user_message; question_text];
                  ss_current_question_id := Some first_q_id;
                  ss_asked_questions :=
                    ss_asked_questions session ∪ {[ first_q_id ]};
                  ss_current_question_text :=
                    ss_current_question_text session |};
             r_current_question_id := Some first_q_id;
             r_error := None |}
      | [] =>
          (* not reached: the sort of a non-empty list is non-empty *)
          {| response := greeting;
             next_question := None;
             r_flow_complete := false;
             answered_count := 0;
             total_questions := length (questions self);
             r_session_state := session;
             r_current_question_id := None;
             r_error := Some no_questions_error |}
      end
  end.

(** [process_message] past the first interaction: the answer to the
    pending question is recorded and [initial_state] is prepared. *)
Definition initial_state_of (user_message : string)
    (session : session_state) : QuestionFlowState :=
  let current_q_id := ss_current_question_id session in
  let '(session_answers, answered) :=
    match current_q_id with
    | Some q =>
        if PyStr.truthy q
        then (dict_set q user_message (ss_answers session),
              ss_answered_questions session ∪ {[ q ]})
        else (ss_answers session, ss_answered_questions session)
    | None => (ss_answers session, ss_answered_questions session)
    end in
  {| messages :=
       (PlainText <$> ss_messages session) ++ [HumanMessage user_message];
     answered_questions := answered;
     current_question_id := current_q_id;
     answers := session_answers;
     flow_complete := false |}.

(** The response extracted from [final_state], and the session state
    written back. *)
Definition result_of (session : session_state)
    (final_state : QuestionFlowState) : flow_result :=
  let msgs := messages final_state in
  let response_text :=
    match last msgs with
    | Some (AIMessage c) => c
    | _ => ""
    end in
  let next_q :=
    match last msgs with
    | Some (AIMessage c) => Some c
    | _ => None
    end in
  let answered_set :=
    answered_questions final_state ∪ key_set (answers final_state) in
  let current_q_id := current_question_id final_state in
  let current_q_id :=
    match current_q_id with
    | None =>
        if PyStr.truthy response_text
        then match_question (questions self) response_text
        else None
    | Some _ => current_q_id
    end in
  {| response := response_text;
     next_question := next_q;
     r_flow_complete := flow_complete final_state;
     answered_count := size answered_set;
     total_questions := length (questions self);
     r_session_state :=
       {| ss_answered_questions := answered_set;
          ss_answers := answers final_state;
          ss_messages := content_of <$> msgs;
          ss_current_question_id := current_q_id;
          ss_asked_questions := ss_asked_questions session;
          ss_current_question_text := ss_current_question_text session |};
     r_current_question_id := current_q_id;
     r_error := None |}.

(** [process_message], the branch that records an answer and runs the
    graph. (The [except] around the run has no counterpart here: nothing in
    the run as modelled raises.) *)
Definition subsequent_interaction (user_message : string)
    (session : session_state) (memory : langgraph_memory) : flow_result :=
  let initial_state := initial_state_of user_message session in
  let initial_state := load_memory memory initial_state user_message in
  let final_state := workflow initial_state in
  result_of session final_state.

Definition is_first_interaction (session : session_state) : bool :=
  let answered_questions := ss_answered_questions session in
  let current_q_id_from_state := ss_current_question_id session in
  (size answered_questions =? 0)
  && match current_q_id_from_state with None => true | Some _ => false end.

Definition process_message (user_message : string)
    (session : session_state) (memory : langgraph_memory) : flow_result :=
  if is_first_interaction session
  then first_interaction user_message session
  else subsequent_interaction user_message session memory.

End Flow.

(** [process_message] called without a [session_state]. *)
Definition fresh_session : session_state :=
  {| ss_answered_questions := ∅;
     ss_answers := [];
     ss_messages := [];
     ss_current_question_id := None;
     ss_asked_questions := ∅;
     ss_current_question_text := [] |}.

(** ** The controller, seen from outside *)

(** The selector as a function of the catalog and the answered labels. *)
Definition next_label (self : QuestionFlowEngine) (answered : gset string)
    : option string :=
  first_sorted self (_get_available_questions self answered).

(** The answered labels the graph works with: what the state holds after
    the answer is recorded, closed under the keys of the answers. *)
Definition answered_after (self : QuestionFlowEngine)
    (state : QuestionFlowState) : gset string :=
  answered_questions (_process_answer_node self state)
  ∪ key_set (answers (_process_answer_node self state)).

(** The state the graph is started on. *)
Definition loaded_state (user_message : string) (session : session_state)
    (memory : langgraph_memory) : QuestionFlowState :=
  load_memory memory (initial_state_of user_message session) user_message.

(** The answered labels a call past the first interaction ends with. *)
Definition answered_of_call (self : QuestionFlowEngine) (user_message : string)
    (session : session_state) (memory : langgraph_memory) : gset string :=
  answered_after self (loaded_state user_message session memory).

(** ** Catalog load *)

(** The questions document after [json.load], in the two shapes the engine
    reads; every key is optional. A value of another JSON type at one of
    these keys is outside the model. *)
Record subcategory_data := {
  sub_title : string;                    (* "title", default "" *)
  sub_questions : dict string            (* "questions", default {} *)
}.

Record category_data := {
  cat_title : string;                                (* "title", default "" *)
  cat_subcategories : option (dict subcategory_data) (* "subcategories" *)
}.

Record old_question := {
  oq_id : string;                        (* "id", default "" *)
  oq_category : string;                  (* "category", default "" *)
  oq_question : string;                  (* "question", default "" *)
  oq_dependencies : list string;         (* "dependencies", default [] *)
  oq_priority : option Z                 (* "priority" *)
}.

Record questions_document := {
  doc_categories : option (dict category_data);
  doc_questions : list old_question;
  doc_question_dependencies : option (dict (list string));
  doc_question_priorities : option (dict Z);
  doc_flow_order : list string
}.

(** What a path holds: text that is not JSON, JSON that is not an object,
    or a questions document. *)
Inductive json_file :=
  | NotJson
  | NotAnObject
  | Document (doc : questions_document).

(** The two places [_load_questions] looks at; [None] is a missing file. *)
Record file_system := {
  root_path : option json_file;
  backend_path : option json_file
}.

Inductive exception :=
  | FileNotFoundError
  | JSONDecodeError
  | AttributeError.

Inductive result (A : Type) :=
  | Ok (a : A)
  | Raise (e : exception).
Arguments Ok {A} a.
Arguments Raise {A} e.

Definition category_to_label : dict string :=
  [ ("introduction", "A"); ("demographics", "B"); ("chief_complaint", "C");
    ("history_of_present_illness", "D"); ("past_medical_history", "E");
    ("medications", "F"); ("allergies", "G"); ("family_history", "H");
    ("social_history", "I"); ("review_of_systems", "J"); ("vital_signs", "K");
    ("assessment", "L") ].

Definition json_load (f : json_file) : result json_file :=
  match f with
  | NotJson => Raise JSONDecodeError
  | _ => Ok f
  end.

Definition _load_questions (fs : file_system) : result json_file :=
  match root_path fs with
  | Some f => json_load f
  | None =>
      match backend_path fs with
      | Some f => json_load f
      | None => Raise FileNotFoundError
      end
  end.

Section Flatten.
Variable questions_data : questions_document.

(** [has_nested_structure] *)
Definition has_nested_structure : bool :=
  match doc_categories questions_data with
  | Some categories =>
      existsb (fun kv => match cat_subcategories (snd kv) with
                         | Some _ => true
                         | None => false
                         end) categories
  | None => false
  end.

Definition flatten_subcategory (cat_label cat_title subcat_label : string)
    (subcat_data : subcategory_data) (questions_map : dict question_data)
    : dict question_data :=
  fold_left
    (fun questions_map lt =>
       dict_set (fst lt)
         {| qd_question := snd lt;
            qd_category := cat_label;
            qd_category_title := cat_title;
            qd_subcategory := subcat_label;
            qd_subcategory_title := sub_title subcat_data;
            qd_label := fst lt;
            qd_old_id := None |} questions_map)
    (sub_questions subcat_data) questions_map.

Definition flatten_category (cat_label : string) (cat_data : category_data)
    (questions_map : dict question_data) : dict question_data :=
  fold_left
    (fun questions_map sd =>
       flatten_subcategory cat_label (cat_title cat_data) (fst sd) (snd sd)
         questions_map)
    (default [] (cat_subcategories cat_data)) questions_map.

(** New structure: categories, subcategories, questions. *)
Definition flatten_nested (categories : dict category_data)
    : dict question_data :=
  fold_left
    (fun questions_map cd => flatten_category (fst cd) (snd cd) questions_map)
    categories [].

(** [subcat_label[0] + chr(subcat_letter)] *)
Definition next_subcat (subcat_label : string) : string :=
  match subcat_label with
  | String c0 (String c1 _) =>
      let subcat_letter := PyStr.ord c1 + 1 in
      let subcat_letter :=
        if PyStr.ord "Z" <? subcat_letter then PyStr.ord "A"
        else subcat_letter in
      String c0 (String (PyStr.chr subcat_letter) EmptyString)
  | _ => subcat_label
  end.

(** One turn of the loop over the old-structure question list;
    [category_counts] maps a category to its count and current
    subcategory. *)
Definition flatten_old_step
    (acc : dict (nat * string) * dict question_data) (q : old_question)
    : dict (nat * string) * dict question_data :=
  let '(category_counts, questions_map) := acc in
  let old_id := oq_id q in
  let category := oq_category q in
  let question_text := oq_question q in
  let cat_label := default "Z" (dict_get category category_to_label) in
  let '(count, subcat_label) :=
    default (0, "AA") (dict_get category category_counts) in
  let count := count + 1 in
  let q_num := count in
  let question_label := subcat_label +:+ "_" +:+ PyStr.str_of_nat q_num in
  let subcat :=
    if count mod 5 =? 0 then next_subcat subcat_label else subcat_label in
  let titled := PyStr.title (PyStr.replace "_" " " category) in
  (dict_set category (count, subcat) category_counts,
   dict_set question_label
     {| qd_question := question_text;
        qd_category := cat_label;
        qd_category_title := titled;
        qd_subcategory := subcat_label;
        qd_subcategory_title := titled;
        qd_label := question_label;
        qd_old_id := Some old_id |} questions_map).

(** Old structure: a flat list of questions, relabelled. *)
Definition flatten_old (questions_list : list old_question)
    : dict question_data :=
  snd (fold_left flatten_old_step questions_list ([], [])).

(** [_flatten_questions]; when nothing is found it prints an error and
    returns the empty map. *)
Definition _flatten_questions : dict question_data :=
  if has_nested_structure
  then flatten_nested (default [] (doc_categories questions_data))
  else match doc_questions questions_data with
       | [] => []
       | questions_list => flatten_old questions_list
       end.

End Flatten.

(** The label whose entry carries [old_id]: the first in catalog order. *)
Fixpoint label_of_old_id (items : dict question_data) (old_id : string)
    : option string :=
  match items with
  | [] => None
  | (question_label, q_data) :: rest =>
      match qd_old_id q_data with
      | Some o =>
          if String.eqb o old_id then Some question_label
          else label_of_old_id rest old_id
      | None => label_of_old_id rest old_id
      end
  end.

(** The catalog part of [QuestionFlowEngine.__init__] once the document is
    loaded. Nothing here inspects the dependency relation. *)
Definition init_catalog (questions_data : questions_document)
    : QuestionFlowEngine :=
  let questions := _flatten_questions questions_data in
  match doc_question_dependencies questions_data with
  | Some ((_ :: _) as deps) =>
      {| questions := questions;
         dependencies := deps;
         priorities := default [] (doc_question_priorities questions_data);
         flow_order := doc_flow_order questions_data |}
  | _ =>
      let '(dependencies, priorities) :=
        fold_left
          (fun dp q =>
             match label_of_old_id questions (oq_id q) with
             | Some new_label =>
                 if PyStr.truthy new_label
                 then
                   let new_deps :=
                     omap (label_of_old_id questions) (oq_dependencies q) in
                   (dict_set new_label new_deps (fst dp),
                    dict_set new_label (default 1%Z (oq_priority q)) (snd dp))
                 else dp
             | None => dp
             end)
          (doc_questions questions_data) ([], []) in
      {| questions := questions;
         dependencies := dependencies;
         priorities := priorities;
         flow_order :=
           omap (fun cat => dict_get cat category_to_label)
                (doc_flow_order questions_data) |}
  end.

(** [QuestionFlowEngine.__init__], up to the catalog fields. *)
Definition __init__ (fs : file_system) : result QuestionFlowEngine :=
  match _load_questions fs with
  | Raise e => Raise e
  | Ok NotJson => Raise JSONDecodeError
  | Ok NotAnObject => Raise AttributeError
  | Ok (Document questions_data) => Ok (init_catalog questions_data)
  end.

(** ** Answer export *)

(** A value stored in a document: a string, or an embedded document. *)
#[warnings="-register-all"]
Inductive bson :=
  | BString (s : string)
  | BDocument (fields : list (string * bson)).

(** A user document of the collection, reduced to the fields the save
    reads and writes (time stamps are left out); a document without
    [consultation_results] has the empty one. The values are those the
    save writes: strings, and the embedded documents that come of a
    question text with a dot. *)
Record user_document := {
  email : string;
  consultation_results : dict bson
}.

Definition collection := list user_document.

Definition placeholder_indicators : list string :=
  ["placeholder"; "n/a"; "not applicable"; "none"; "null"; "undefined"].

(** The test on one [(question_text, answer)] pair in the filter loop of
    [save_user_responses]: [true] when the pair is kept. *)
Definition is_valid_response (question_text answer : string) : bool :=
  if negb (PyStr.truthy question_text) then false
  else if (String.length question_text <? 20)
          && (PyStr.contains "_" question_text || PyStr.isalnum question_text)
  then false
  else if negb (PyStr.truthy answer) || negb (PyStr.truthy (PyStr.strip answer))
  then false
  else
    let answer_lower := PyStr.lower (PyStr.strip answer) in
    if existsb (fun placeholder => PyStr.contains placeholder answer_lower)
               placeholder_indicators
    then false
    else true.

(** [valid_responses] as built by the filter loop. *)
Definition valid_responses (responses : dict string) : dict string :=
  fold_left
    (fun valid qa =>
       if is_valid_response (fst qa) (snd qa)
       then dict_set (PyStr.strip (fst qa)) (PyStr.strip (snd qa)) valid
       else valid)
    responses [].

Fixpoint find_one (user_email : string) (c : collection) : option user_document :=
  match c with
  | [] => None
  | d :: c' => if String.eqb (email d) user_email then Some d else find_one user_email c'
  end.

(** The embedded documents MongoDB makes for the part of a path that does
    not exist yet. *)
Fixpoint nest (path : list string) (value : bson) : bson :=
  match path with
  | [] => value
  | field :: path' => BDocument [(field, nest path' value)]
  end.

(** [$set] of one path of field names in a document: the last name is
    set; the documents on the way are entered, and made where a name is
    missing. [None] when a name on the way holds a string (MongoDB refuses
    to create a field in it). *)
Fixpoint set_path (path : list string) (value : bson) (fields : dict bson)
    : option (dict bson) :=
  match path with
  | [] => None
  | field :: path' =>
      match path' with
      | [] => Some (dict_set field value fields)
      | _ :: _ =>
          match dict_get field fields with
          | Some (BDocument sub) =>
              sub' ← set_path path' value sub;
              Some (dict_set field (BDocument sub') fields)
          | Some (BString _) => None
          | None => Some (dict_set field (nest path' value) fields)
          end
      end
  end.

(** [{"$set": update_dict}] on [consultation_results], pair after pair:
    the key of a pair is ["consultation_results." + question_text], and
    MongoDB reads every dot of a key as the separator of two field
    names. *)
Definition set_update_dict (valid : dict string) (results : dict bson)
    : option (dict bson) :=
  fold_left
    (fun results qa =>
       results ≫= set_path (PyStr.split "." (fst qa)) (BString (snd qa)))
    valid (Some results).

(** [update_one({"email": user_email}, {"$set": update_dict})] on the
    first matching document; [None] when the update is refused. (New
    fields are added in the order of [update_dict]; no statement below
    depends on the order of the fields of a document.) *)
Fixpoint update_one (user_email : string) (valid : dict string) (c : collection)
    : option collection :=
  match c with
  | [] => Some []
  | d :: c' =>
      if String.eqb (email d) user_email
      then
        results ← set_update_dict valid (consultation_results d);
        Some ({| email := email d; consultation_results := results |} :: c')
      else cons d <$> update_one user_email valid c'
  end.

Definition insert_one (d : user_document) (c : collection) : collection :=
  c ++ [d].

(** [save_user_responses]. [responses_collection] is [None] when the
    connection failed at start-up. [mongo_raises] tells whether the driver
    raises inside the [try] for a reason the model does not follow: a
    lost connection, or a write that the server refuses (a path with an
    empty field name, two paths of one update that meet, a name it
    reserves). The result is the returned flag and the collection
    afterwards. *)
Definition save_user_responses (responses_collection : option collection)
    (mongo_raises : bool) (user_email session_id : string)
    (responses : dict string) : bool * option collection :=
  match responses_collection with
  | None => (false, None)
  | Some c =>
      match responses with
      | [] => (true, Some c)
      | _ =>
          match valid_responses responses with
          | [] => (true, Some c)
          | valid =>
              if mongo_raises then (false, Some c)
              else
                match find_one user_email c with
                | Some _ =>
                    match update_one user_email valid c with
                    | Some c' => (true, Some c')
                    | None => (false, Some c)
                    end
                | None =>
                    (true,
                     Some (insert_one
                             {| email := user_email;
                                consultation_results :=
                                  (fun qa => (fst qa, BString (snd qa)))
                                  <$> valid |} c))
                end
          end
      end
  end.

Section AnswerExport.
Variable self : QuestionFlowEngine.

(** [temp_qa_storage[user_email][question_text] = answer_text] *)
Definition temp_store (temp_qa_storage : dict (dict string))
    (user_email question_text answer_text : string) : dict (dict string) :=
  dict_set user_email
    (dict_set question_text answer_text
       (default [] (dict_get user_email temp_qa_storage)))
    temp_qa_storage.

(** The capture of the current question and answer at the start of
    [_get_response_with_question_flow]: the pair, and the temporary
    storage afterwards. The question text is not checked here. *)
Definition capture_qa_pair (previous_current_q : option string)
    (message : string) (session : session_state)
    (user_email : option string) (temp_qa_storage : dict (dict string))
    : option (string * string) * dict (dict string) :=
  match previous_current_q with
  | Some q =>
      if PyStr.truthy q && PyStr.truthy message
         && PyStr.truthy (PyStr.strip message)
      then
        let question_text :=
          match dict_get q (ss_current_question_text session) with
          | Some t => t
          | None =>
              match dict_get q (questions self) with
              | Some question_data => qd_question question_data
              | None => q
              end
          end in
        if PyStr.truthy question_text
        then
          let answer_text := PyStr.strip message in
          (Some (question_text, answer_text),
           match user_email with
           | Some u =>
               if PyStr.truthy u
               then temp_store temp_qa_storage u question_text answer_text
               else temp_qa_storage
           | None => temp_qa_storage
           end)
        else (None, temp_qa_storage)
      else (None, temp_qa_storage)
  | None => (None, temp_qa_storage)
  end.

(** STEP 2 of the export, one answer of [session_state["answers"]]. *)
Definition add_answer_by_label (session : session_state)
    (all_answers_by_question : dict string) (la : string * string)
    : dict string :=
  let '(label, answer) := la in
  if negb (PyStr.truthy answer) || negb (PyStr.truthy (PyStr.strip answer))
  then all_answers_by_question
  else
    let answer := PyStr.strip answer in
    let question_text :=
      match dict_get label (ss_current_question_text session) with
      | Some t =>
          if PyStr.truthy t then Some t
          else PyStr.strip ∘ qd_question <$> dict_get label (questions self)
      | None => PyStr.strip ∘ qd_question <$> dict_get label (questions self)
      end in
    match question_text with
    | Some t =>
        if PyStr.truthy t && (20 <=? String.length t)
        then if dict_mem t all_answers_by_question
             then all_answers_by_question
             else dict_set t answer all_answers_by_question
        else all_answers_by_question
    | None => all_answers_by_question
    end.

(** [all_answers_by_question]: STEP 1 (the current pair) and STEP 2 (the
    answers of the session, by label). *)
Definition all_answers_by_question (current_qa_pair : option (string * string))
    (session : session_state) : dict string :=
  let step1 :=
    match current_qa_pair with
    | Some (q, a) =>
        let question_text := PyStr.strip q in
        let answer_text := PyStr.strip a in
        if PyStr.truthy question_text && PyStr.truthy answer_text
           && (20 <=? String.length question_text)
        then [(question_text, answer_text)]
        else []
    | None => []
    end in
  fold_left (add_answer_by_label session) (ss_answers session) step1.

End AnswerExport.

(** ** Session documents of the responses collection *)

(** A document that [save_response] and [save_responses_batch] write,
    reduced to the fields the queries read (time stamps are left out);
    [responses] is [None] when the document has no such field. Documents
    without [username] and [sessionId] match none of the queries below and
    are left out of the collection. A dot in a key of an update is read by
    MongoDB as a path into nested documents; the model covers keys without
    one. *)
Record session_document := {
  username : string;
  sessionId : string;
  responses : option (dict string)
}.

Definition session_collection := list session_document.

(** The filter [{"username": username, "sessionId": session_id}]. *)
Definition matches_session (user session_id : string) (d : session_document)
    : bool :=
  String.eqb (username d) user && String.eqb (sessionId d) session_id.

Fixpoint find_session (user session_id : string) (c : session_collection)
    : option session_document :=
  match c with
  | [] => None
  | d :: c' =>
      if matches_session user session_id d then Some d
      else find_session user session_id c'
  end.

(** [update_one(filter, {"$set": {"responses.<label>": answer, ...}})]: the
    pairs are set in [responses] of the first matching document. *)
Fixpoint set_responses (user session_id : string) (update_dict : dict string)
    (c : session_collection) : session_collection :=
  match c with
  | [] => []
  | d :: c' =>
      if matches_session user session_id d
      then {| username := username d;
              sessionId := sessionId d;
              responses :=
                Some (dict_update (default [] (responses d)) update_dict) |}
           :: c'
      else d :: set_responses user session_id update_dict c'
  end.

(** [delete_one(filter)]: the first matching document is removed; the
    result comes with [deleted_count]. *)
Fixpoint delete_one (user session_id : string) (c : session_collection)
    : session_collection * nat :=
  match c with
  | [] => ([], 0)
  | d :: c' =>
      if matches_session user session_id d then (c', 1)
      else let '(rest, deleted_count) := delete_one user session_id c' in
           (d :: rest, deleted_count)
  end.

(** [save_response]: the returned flag and the collection afterwards. *)
Definition save_response (responses_collection : option session_collection)
    (mongo_raises : bool) (user session_id question_label answer : string)
    : bool * option session_collection :=
  match responses_collection with
  | None => (false, None)
  | Some c =>
      if mongo_raises then (false, Some c)
      else
        match find_session user session_id c with
        | Some _ =>
            (true,
             Some (set_responses user session_id [(question_label, answer)] c))
        | None =>
            (true,
             Some (c ++ [ {| username := user;
                             sessionId := session_id;
                             responses := Some [(question_label, answer)] |} ]))
        end
  end.

(** [save_responses_batch] *)
Definition save_responses_batch (responses_collection : option session_collection)
    (mongo_raises : bool) (user session_id : string)
    (new_responses : dict string) : bool * option session_collection :=
  match responses_collection with
  | None => (false, None)
  | Some c =>
      match new_responses with
      | [] => (true, Some c)
      | _ =>
          if mongo_raises then (false, Some c)
          else
            match find_session user session_id c with
            | Some _ =>
                (true, Some (set_responses user session_id new_responses c))
            | None =>
                (true,
                 Some (c ++ [ {| username := user;
                                 sessionId := session_id;
                                 responses := Some new_responses |} ]))
            end
      end
  end.

(** [get_session_responses] *)
Definition get_session_responses (responses_collection : option session_collection)
    (mongo_raises : bool) (user session_id : string) : option (dict string) :=
  match responses_collection with
  | None => None
  | Some c =>
      if mongo_raises then None
      else
        match find_session user session_id c with
        | Some doc => responses doc
        | None => None
        end
  end.

(** [get_response] *)
Definition get_response (responses_collection : option session_collection)
    (mongo_raises : bool) (user session_id question_label : string)
    : option string :=
  match get_session_responses responses_collection mongo_raises user session_id with
  | Some ((_ :: _) as session_responses) =>
      dict_get question_label session_responses
  | _ => None
  end.

(** [delete_session] *)
Definition delete_session (responses_collection : option session_collection)
    (mongo_raises : bool) (user session_id : string)
    : bool * option session_collection :=
  match responses_collection with
  | None => (false, None)
  | Some c =>
      if mongo_raises then (false, Some c)
      else
        let '(c', deleted_count) := delete_one user session_id c in
        (0 <? deleted_count, Some c')
  end.

(** ** Conversation history *)

(** An entry of a conversation history (the time stamp is left out). *)
Record chat_message := {
  role : string;
  content : string
}.

Definition newline : string := String (PyStr.chr 10) EmptyString.

(** [sep.join(pieces)] *)
Fixpoint join (sep : string) (pieces : list string) : string :=
  match pieces with
  | [] => EmptyString
  | piece :: rest =>
      match rest with
      | [] => piece
      | _ => piece +:+ sep +:+ join sep rest
      end
  end.

(** [l[k:]]: a negative [k] counts from the end. *)
Definition slice_from {A} (k : Z) (l : list A) : list A :=
  if (0 <=? k)%Z then drop (Z.to_nat k) l
  else drop (length l - Z.to_nat (- k)) l.

(** [_format_history]: the last ten messages, one line each. *)
Definition _format_history (history : list chat_message) : string :=
  join newline
    ((λ msg,
        (if String.eqb (role msg) "user" then "User" else "Assistant")
        +:+ ": " +:+ content msg)
     <$> slice_from (-10) history).

(** The history update at the end of [text_chat]: the exchange is appended
    to the history of the session, which is then trimmed to the last
    [max_history * 2] messages; [max_history] is the integer read from
    [MAX_CONVERSATION_HISTORY]. *)
Definition trim_history (max_history : Z) (history : list chat_message)
    : list chat_message :=
  if (max_history * 2 <? Z.of_nat (length history))%Z
  then slice_from (- (max_history * 2)) history
  else history.

Definition update_history (max_history : Z)
    (conversation_sessions : dict (list chat_message))
    (session_id message response_text : string) : dict (list chat_message) :=
  let history := default [] (dict_get session_id conversation_sessions) in
  let history :=
    history ++ [ {| role := "user"; content := message |};
                 {| role := "assistant"; content := response_text |} ] in
  dict_set session_id (trim_history max_history history) conversation_sessions.

(** ** Streaming *)

(** [s.split()]: the maximal runs of characters that are not whitespace. *)
Fixpoint split_whitespace (s : string) : list string :=
  match s with
  | EmptyString => []
  | String c s' =>
      if PyStr.is_space c then split_whitespace s'
      else
        match s' with
        | EmptyString => [String c EmptyString]
        | String c' _ =>
            if PyStr.is_space c' then String c EmptyString :: split_whitespace s'
            else match split_whitespace s' with
                 | word :: words => String c word :: words
                 | [] => [String c EmptyString]
                 end
        end
  end.

(** [range(start, stop, step)] for a positive step; [fuel] bounds the
    number of items. *)
Fixpoint range_from (fuel start stop step : nat) : list nat :=
  match fuel with
  | O => []
  | S fuel' =>
      if start <? stop then start :: range_from fuel' (start + step) stop step
      else []
  end.

Definition range (start stop step : nat) : list nat :=
  range_from stop start stop step.

(** The chunks [stream_response] yields for the text the model returned:
    ten words each, every chunk with a space at its end. *)
Definition response_chunks (response_text : string) : list string :=
  let chunk_size := 10 in
  let words := split_whitespace response_text in
  (λ i, join " " (take chunk_size (drop i words)) +:+ " ")
  <$> range 0 (length words) chunk_size.

(** ** The session store of the chatbot *)

(** [del d[k]], for a key that is present. *)
Fixpoint dict_del {V} (k : string) (d : dict V) : dict V :=
  match d with
  | [] => []
  | (k', v) :: d' =>
      if String.eqb k k' then d' else (k', v) :: dict_del k d'
  end.

(** The state [_get_response_with_question_flow] creates for a session it
    does not know. *)
Definition new_session_state : session_state :=
  {| ss_answered_questions := ∅;
     ss_answers := [];
     ss_messages := [];
     ss_current_question_id := None;
     ss_asked_questions := ∅;
     ss_current_question_text := [] |}.

(** [reset_question_flow] on [question_flow_sessions]. (The call of
    [reset_flow], which empties the embeddings store, is left out.) *)
Definition reset_question_flow (session_id : option string)
    (question_flow_sessions : dict session_state) : dict session_state :=
  if truthy_opt session_id
  then match session_id with
       | Some sid =>
           if dict_mem sid question_flow_sessions
           then dict_del sid question_flow_sessions
           else question_flow_sessions
       | None => question_flow_sessions
       end
  else [].

(** [get_question_flow_status], up to the embeddings: the answered labels
    and the answers of the session. *)
Definition get_question_flow_status (enable_question_flow : bool)
    (question_flow_engine : option QuestionFlowEngine)
    (question_flow_sessions : dict session_state) (session_id : string)
    : option (gset string * dict string) :=
  if negb enable_question_flow
     || match question_flow_engine with Some _ => false | None => true end
  then None
  else
    match dict_get session_id question_flow_sessions with
    | None => None
    | Some session =>
        Some (ss_answered_questions session, ss_answers session)
    end.

(** The first-message check of [_get_response_with_question_flow]. *)
Definition is_first_message (session : session_state) : bool :=
  let answered_count := size (ss_answered_questions session) in
  let asked_count := size (ss_asked_questions session) in
  let current_q_id := ss_current_question_id session in
  let has_answers := 0 <? length (ss_answers session) in
  match current_q_id with
  | Some _ => false
  | None =>
      if 0 <? asked_count then false
      else (answered_count =? 0) && negb has_answers
  end.

(** The pending question is marked as asked and as answered before the
    engine is called. *)
Definition mark_answered (previous_current_q : option string)
    (message : string) (session : session_state) : session_state :=
  match previous_current_q with
  | Some q =>
      if PyStr.truthy q
      then
        {| ss_answered_questions :=
             if bool_decide (q ∈ ss_answered_questions session)
             then ss_answered_questions session
             else ss_answered_questions session ∪ {[ q ]};
           ss_answers := dict_set q message (ss_answers session);
           ss_messages := ss_messages session;
           ss_current_question_id := ss_current_question_id session;
           ss_asked_questions := ss_asked_questions session ∪ {[ q ]};
           ss_current_question_text := ss_current_question_text session |}
      else session
  | None => session
  end.

Definition set_response (r : flow_result) (text : string)
    (current : option string) : flow_result :=
  {| response := text;
     next_question := next_question r;
     r_flow_complete := r_flow_complete r;
     answered_count := answered_count r;
     total_questions := total_questions r;
     r_session_state := r_session_state r;
     r_current_question_id := current;
     r_error := r_error r |}.

Section FlowTurn.
Variable self : QuestionFlowEngine.

(** The branch of the first message: the engine is called, the question it
    returns is marked as asked, and a response is made up when the engine
    gave none. The engine updates the dictionary it is given and returns
    it, so the session state after the call is the one in its result. *)
Definition first_message_turn (message : string) (session : session_state)
    (memory : langgraph_memory) : flow_result * session_state :=
  let flow_result := process_message self message session memory in
  let session := r_session_state flow_result in
  let session :=
    match r_current_question_id flow_result with
    | Some first_q_id =>
        if PyStr.truthy first_q_id
        then {| ss_answered_questions := ss_answered_questions session;
                ss_answers := ss_answers session;
                ss_messages := ss_messages session;
                ss_current_question_id := Some first_q_id;
                ss_asked_questions :=
                  ss_asked_questions session ∪ {[ first_q_id ]};
                ss_current_question_text :=
                  ss_current_question_text session |}
        else session
    | None => session
    end in
  let flow_result :=
    if negb (PyStr.truthy (response flow_result))
    then match _get_available_questions self ∅ with
         | [] => set_response flow_result greeting
                   (r_current_question_id flow_result)
         | available =>
             match _sort_questions_by_order self available with
             | first_question :: _ =>
                 set_response flow_result (q_question first_question)
                   (Some (q_id first_question))
             | [] => flow_result
             end
         end
    else flow_result in
  (flow_result, session).

(** The branch of an answer: the pending question is marked, the engine is
    called, and the text of a new question is kept under its label. *)
Definition answer_turn (message : string) (session : session_state)
    (memory : langgraph_memory) : flow_result * session_state :=
  let previous_current_q := ss_current_question_id session in
  let session := mark_answered previous_current_q message session in
  let flow_result := process_message self message session memory in
  let session := r_session_state flow_result in
  let new_current_q := r_current_question_id flow_result in
  let new_question_text := PyStr.strip (response flow_result) in
  let session :=
    match new_current_q with
    | Some q =>
        if PyStr.truthy q && PyStr.truthy new_question_text
           && negb (bool_decide (new_current_q = previous_current_q))
        then {| ss_answered_questions := ss_answered_questions session;
                ss_answers := ss_answers session;
                ss_messages := ss_messages session;
                ss_current_question_id := ss_current_question_id session;
                ss_asked_questions := ss_asked_questions session;
                ss_current_question_text :=
                  dict_set q new_question_text
                    (ss_current_question_text session) |}
        else session
    | None => session
    end in
  (flow_result, session).

(** The merge of the result into the session state: [updated_session]
    is the session state itself, the dictionary the engine updated. *)
Definition merge_flow_result (flow_result : flow_result)
    (session : session_state) : session_state :=
  let updated_session := session in
  let answered_set := ss_answered_questions updated_session in
  let merged_answers :=
    dict_update (ss_answers session) (ss_answers updated_session) in
  {| ss_answered_questions := answered_set ∪ key_set merged_answers;
     ss_answers := merged_answers;
     ss_messages := ss_messages session;
     ss_current_question_id := r_current_question_id flow_result;
     ss_asked_questions := ss_asked_questions session;
     ss_current_question_text := ss_current_question_text session |}.

(** The session part of [_get_response_with_question_flow]: the result of
    the engine and the session store afterwards. (The capture of the
    question and answer, the export and the wording of the response are
    apart from it; they do not change what is stored for the session, up to
    the save status.) *)
Definition flow_turn (question_flow_sessions : dict session_state)
    (session_id message : string) (memory : langgraph_memory)
    : flow_result * dict session_state :=
  let session :=
    default new_session_state (dict_get session_id question_flow_sessions) in
  let '(flow_result, session) :=
    if is_first_message session
    then first_message_turn message session memory
    else answer_turn message session memory in
  let session := merge_flow_result flow_result session in
  (flow_result, dict_set session_id session question_flow_sessions).

(** A conversation: the turns of one session, one after the other. *)
Fixpoint flow_turns (question_flow_sessions : dict session_state)
    (session_id : string) (inputs : list (string * langgraph_memory))
    : list flow_result :=
  match inputs with
  | [] => []
  | (message, memory) :: rest =>
      let '(flow_result, question_flow_sessions) :=
        flow_turn question_flow_sessions session_id message memory in
      flow_result :: flow_turns question_flow_sessions session_id rest
  end.

End FlowTurn.

(** ** Concrete catalogs *)

Definition entry (question_label text cat subcat : string)
    : string * question_data :=
  (question_label,
   {| qd_question := text; qd_category := cat; qd_category_title := "";
      qd_subcategory := subcat; qd_subcategory_title := "";
      qd_label := question_label; qd_old_id := None |}).

(** Three labels: [A_2] depends on [A_1]; categories in the order A, B. *)
Definition scenario_engine : QuestionFlowEngine :=
  {| questions :=
       [ entry "A_1" "Are you ready to begin the consultation?" "A" "AA";
         entry "A_2" "What is the main reason for your visit?" "A" "AA";
         entry "B_1" "How old are you, in completed years?" "B" "BA" ];
     dependencies := [("A_1", []); ("A_2", ["A_1"]); ("B_1", [])];
     priorities := [("A_1", 1%Z); ("A_2", 1%Z); ("B_1", 2%Z)];
     flow_order := ["A"; "B"] |}.

(** Three labels without dependencies. *)
Definition open_engine : QuestionFlowEngine :=
  {| questions :=
       [ entry "A_1" "Are you ready to begin the consultation?" "A" "AA";
         entry "A_2" "What is the main reason for your visit?" "A" "AA";
         entry "A_3" "How long have you had these symptoms?" "A" "AA" ];
     dependencies := [];
     priorities := [];
     flow_order := ["A"] |}.

(** The resolver as the specification words it: a catalog label is in the
    result exactly when it is eligible. *)
Definition resolver_spec (self : QuestionFlowEngine) (answered : gset string)
    (result : list string) : Prop :=
  ∀ question_label, question_label ∈ dict_keys (questions self) →
    (question_label ∈ result ↔ eligible self answered question_label).

(** Candidates of one category and no priority: a numeric suffix above the
    stand-in value, and a suffix that is not a number. *)
Definition candidate (question_label cat : string) : q_dict :=
  {| q_id := question_label; q_question := ""; q_category := cat;
     q_subcategory := ""; q_label := question_label |}.

(** The ordering as the specification words it: a category that is not in
    [flow_order] and a suffix that is not a number come after all others
    ([None] is the greatest element of a component). *)
Fixpoint index_from (i : nat) (c : string) (l : list string) : option nat :=
  match l with
  | [] => None
  | x :: l' => if String.eqb x c then Some i else index_from (S i) c l'
  end.

(** The last position of [c] in [l], counting from [i]. *)
Fixpoint last_index_from (i : nat) (c : string) (l : list string) : option nat :=
  match l with
  | [] => None
  | x :: l' =>
      match last_index_from (S i) c l' with
      | Some j => Some j
      | None => if String.eqb x c then Some i else None
      end
  end.

Definition spec_sequence_number (question_label : string) : option Z :=
  match PyStr.split "_" question_label with
  | _ :: piece :: _ => PyStr.int piece
  | _ => None
  end.

Definition spec_sort_key (self : QuestionFlowEngine) (q : q_dict)
    : option Z * Z * option Z :=
  (Z.of_nat <$> index_from 0 (q_category q) (flow_order self),
   default 999%Z (dict_get (q_id q) (priorities self)),
   spec_sequence_number (q_id q)).

Definition last_lt (a b : option Z) : Prop :=
  match a, b with
  | Some x, Some y => (x < y)%Z
  | Some _, None => True
  | None, _ => False
  end.

Definition spec_le (a b : option Z * Z * option Z) : Prop :=
  let '(a1, a2, a3) := a in
  let '(b1, b2, b3) := b in
  last_lt a1 b1 ∨
  (a1 = b1 ∧ ((a2 < b2)%Z ∨ (a2 = b2 ∧ (last_lt a3 b3 ∨ a3 = b3)))).

(** A document in the nested shape whose two labels depend on each
    other. *)
Definition cycle_document : questions_document :=
  {| doc_categories :=
       Some [ ("X", {| cat_title := "Symptoms";
                       cat_subcategories :=
                         Some [ ("XA", {| sub_title := "Onset";
                                          sub_questions :=
                                            [ ("X_1", "When did the symptoms first appear?");
                                              ("Y_1", "How severe are the symptoms today?") ] |}) ] |}) ];
     doc_questions := [];
     doc_question_dependencies := Some [("X_1", ["Y_1"]); ("Y_1", ["X_1"])];
     doc_question_priorities := None;
     doc_flow_order := ["X"] |}.

Definition cycle_engine : QuestionFlowEngine := init_catalog cycle_document.

(** A session driven by a list of inputs; each input comes with what the
    LangGraph memory holds at that call. *)
Fixpoint run (self : QuestionFlowEngine) (session : session_state)
    (inputs : list (string * langgraph_memory)) : list flow_result :=
  match inputs with
  | [] => []
  | (user_message, memory) :: rest =>
      let r := process_message self user_message session memory in
      r :: run self (r_session_state r) rest
  end.

(** Two sessions on [scenario_engine] with the same answered label and
    different histories: in the first the answer to [A_1] is pending, in
    the second it was recorded by an earlier call. *)
Definition pending_session : session_state :=
  {| ss_answered_questions := ∅;
     ss_answers := [];
     ss_messages := ["hello"; "Are you ready to begin the consultation?"];
     ss_current_question_id := Some "A_1";
     ss_asked_questions := {[ "A_1" ]};
     ss_current_question_text := [] |}.

Definition recorded_session : session_state :=
  {| ss_answered_questions := {[ "A_1" ]};
     ss_answers := [("A_1", "yes, go ahead")];
     ss_messages := [];
     ss_current_question_id := None;
     ss_asked_questions := ∅;
     ss_current_question_text := [] |}.

Definition empty_state : QuestionFlowState :=
  {| messages := []; answered_questions := ∅; current_question_id := None;
     answers := []; flow_complete := false |}.





(** The dependency relation of a catalog, its cycles, and the sets of
    labels that hold the dependencies of their members. *)
Definition depends_on (self : QuestionFlowEngine) (question_label dep : string)
    : Prop :=
  dep ∈ deps_of self question_label.

Definition on_cycle (self : QuestionFlowEngine) (question_label : string) : Prop :=
  tc (depends_on self) question_label question_label.

Definition dependency_closed (self : QuestionFlowEngine) (answered : gset string)
    : Prop :=
  ∀ question_label dep,
    question_label ∈ answered → depends_on self question_label dep →
    dep ∈ answered.

(** A catalog whose second question has a short text, and a session in
    which the first question is answered and the second is pending. *)
Definition short_text_engine : QuestionFlowEngine :=
  {| questions :=
       [ entry "AA_1" "What is the main reason for your visit?" "A" "AA";
         entry "AA_2" "Are you ready?" "A" "AA" ];
     dependencies := [];
     priorities := [];
     flow_order := ["A"] |}.

Definition short_text_session : session_state :=
  {| ss_answered_questions := {[ "AA_1" ]};
     ss_answers := [("AA_1", "a dry cough")];
     ss_messages := [];
     ss_current_question_id := Some "AA_2";
     ss_asked_questions := {[ "AA_1"; "AA_2" ]};
     ss_current_question_text := [] |}.

(** ** Notions used in the statements *)

(** What the run of the graph appends to the messages for the answered
    labels it ends with: the text of the selected question, when its label
    is not empty and is in the catalog. *)
Definition asked_text (self : QuestionFlowEngine) (answered : gset string)
    : list string :=
  match next_label self answered with
  | Some l =>
      if PyStr.truthy l
      then match dict_get l (questions self) with
           | Some q_data => [qd_question q_data]
           | None => []
           end
      else []
  | None => []
  end.

(** A message other than a question shown by the assistant. *)
Definition not_ai (m : message) : Prop :=
  match m with AIMessage _ => False | _ => True end.

(** The LangGraph memory holds no values for the session. *)
Definition no_stored_values (memory : langgraph_memory) : Prop :=
  match memory with Checkpoint _ => False | _ => True end.

(** A session that holds labels of the catalog only: the answered labels
    and the pending label are catalog labels, and every answer is stored
    under an answered label. *)
Definition session_within_catalog (self : QuestionFlowEngine)
    (session : session_state) : Prop :=
  (∀ l, l ∈ ss_answered_questions session → l ∈ dict_keys (questions self))
  ∧ key_set (ss_answers session) ⊆ ss_answered_questions session
  ∧ (∀ l, ss_current_question_id session = Some l →
          l ∈ dict_keys (questions self)).

(** Two session states with the same fields of the flow: the answered
    labels, the answers, the messages and the pending label. *)
Definition same_flow_state (s1 s2 : session_state) : Prop :=
  ss_answered_questions s1 = ss_answered_questions s2
  ∧ ss_answers s1 = ss_answers s2
  ∧ ss_messages s1 = ss_messages s2
  ∧ ss_current_question_id s1 = ss_current_question_id s2.

(** What a result tells apart from the session state. *)
Definition visible (r : flow_result)
    : string * option string * bool * nat * nat * option string * option string :=
  (response r, next_question r, r_flow_complete r, answered_count r,
   total_questions r, r_current_question_id r, r_error r).

(** A session state as Python holds it: no label has two answers, and
    every answer is stored under an answered label. *)
Definition session_consistent (session : session_state) : Prop :=
  NoDup (dict_keys (ss_answers session))
  ∧ key_set (ss_answers session) ⊆ ss_answered_questions session.

(** The questions of a nested document in reading order, each with the
    catalog entry [_flatten_questions] builds for it. *)
Definition document_questions (categories : dict category_data)
    : list (string * question_data) :=
  cd ← categories;
  sd ← default [] (cat_subcategories cd.2);
  lt ← sub_questions sd.2;
  [(lt.1, {| qd_question := lt.2;
             qd_category := cd.1;
             qd_category_title := cat_title cd.2;
             qd_subcategory := sd.1;
             qd_subcategory_title := sub_title sd.2;
             qd_label := lt.1;
             qd_old_id := None |})].

(** A subcategory label of the flat load: the letter A and a capital
    letter. *)
Definition is_subcat (subcat_label : string) : Prop :=
  ∃ c, subcat_label = String "A" (String c EmptyString)
       ∧ PyStr.is_upper c = true.

(** What holds of the two maps the loop of the flat load builds, after
    [n] questions. *)
Definition flat_entry_ok (n : nat) (entry : string * question_data) : Prop :=
  ∃ k, 1 ≤ k ≤ n
       ∧ is_subcat (qd_subcategory entry.2)
       ∧ entry.1 = qd_subcategory entry.2 +:+ "_" +:+ PyStr.str_of_nat k
       ∧ qd_label entry.2 = entry.1.

Definition flat_count_ok (n : nat) (entry : string * (nat * string)) : Prop :=
  entry.2.1 ≤ n ∧ is_subcat entry.2.2.

(** At most one document for a user and a session. *)
Definition unique_sessions (c : session_collection) : Prop :=
  NoDup ((λ d, (username d, sessionId d)) <$> c).

(** A key that MongoDB does not read as a path. *)
Definition plain_key (k : string) : Prop := PyStr.contains "." k = false.

(** The value at a path of field names in a document. *)
Fixpoint get_path (path : list string) (fields : dict bson) : option bson :=
  match path with
  | [] => None
  | field :: path' =>
      match path' with
      | [] => dict_get field fields
      | _ :: _ =>
          match dict_get field fields with
          | Some (BDocument sub) => get_path path' sub
          | _ => None
          end
      end
  end.

(** The answer stored for a user at a path of field names of
    [consultation_results]. *)
Definition stored_at (c : collection) (user_email : string) (path : list string)
    : option string :=
  d ← find_one user_email c;
  match get_path path (consultation_results d) with
  | Some (BString answer) => Some answer
  | _ => None
  end.

(** The answer stored for a user under a question text. *)
Definition stored_answer (c : collection) (user_email question_text : string)
    : option string :=
  stored_at c user_email [question_text].

(** The words of a list, each followed by one space. *)
Fixpoint spaced (words : list string) : string :=
  match words with
  | [] => EmptyString
  | word :: rest => word +:+ " " +:+ spaced rest
  end.

(** A word: at least one character, none of them whitespace. *)
Definition is_word (w : string) : Prop :=
  PyStr.truthy w = true
  ∧ PyStr.all_chars (λ c, negb (PyStr.is_space c)) w = true.

(** ** More concrete data *)

(** The call that answers the question pending in [pending_session]. *)
Definition answered_pending_call : flow_result :=
  process_message scenario_engine "yes" pending_session NoCheckpoint.

(** A document in the flat shape; the second question depends on an id
    that no question has. *)
Definition intro_document : questions_document :=
  {| doc_categories := None;
     doc_questions :=
       [ {| oq_id := "intro_1"; oq_category := "introduction";
            oq_question := "Are you ready to begin?";
            oq_dependencies := []; oq_priority := Some 1%Z |};
         {| oq_id := "intro_2"; oq_category := "introduction";
            oq_question := "What brings you in today?";
            oq_dependencies := ["intro_1"; "intro_0"]; oq_priority := None |} ];
     doc_question_dependencies := None;
     doc_question_priorities := None;
     doc_flow_order := ["introduction"] |}.

(** * Properties *)

(** A closed decidable proposition, settled by evaluation. *)
Ltac by_evaluation := apply (bool_decide_unpack _); vm_compute; exact I.

(** ** The model on concrete inputs *)

Example int_of_suffix :
  PyStr.int "12" = Some 12%Z ∧ PyStr.int " 7 " = Some 7%Z
  ∧ PyStr.int "-3" = Some (-3)%Z ∧ PyStr.int "x" = None ∧ PyStr.int "" = None
  ∧ PyStr.int (String (PyStr.chr 28) "7") = None
  ∧ PyStr.strip (String (PyStr.chr 28) "7") = "7".
Proof. repeat split. Qed.

Example split_label :
  PyStr.split "_" "AA_1" = ["AA"; "1"] ∧ PyStr.split "_" "intro" = ["intro"].
Proof. split; reflexivity. Qed.

Example title_of_category :
  PyStr.title (PyStr.replace "_" " " "chief_complaint") = "Chief Complaint".
Proof. reflexivity. Qed.

(** The scenario catalog from a fresh session: [A_1], then [A_2], and
    completion once two labels are answered ([B_1] is never asked). *)
Example scenario_run :
  (λ r, (r_current_question_id r, r_flow_complete r, answered_count r))
  <$> run scenario_engine fresh_session
        [("hello", NoCheckpoint); ("yes", NoCheckpoint);
         ("a dry cough", NoCheckpoint); ("anything else?", NoCheckpoint)]
  = [(Some "A_1", false, 0); (Some "A_2", false, 1);
     (None, true, 2); (None, true, 2)].
Proof. vm_compute. reflexivity. Qed.

Example scenario_sort :
  ids (_sort_questions_by_order scenario_engine
         [candidate "B_1" "B"; candidate "A_2" "A"; candidate "A_1" "A"])
  = ["A_1"; "A_2"; "B_1"].
Proof. vm_compute. reflexivity. Qed.

(** The flat shape is relabelled per category, each category starting at
    [AA_1]. *)
Example flat_document_labels :
  dict_keys
    (_flatten_questions
       {| doc_categories := None;
          doc_questions :=
            [ {| oq_id := "intro_1"; oq_category := "introduction";
                 oq_question := "Are you ready to begin?";
                 oq_dependencies := []; oq_priority := Some 1%Z |};
              {| oq_id := "intro_2"; oq_category := "introduction";
                 oq_question := "What brings you in today?";
                 oq_dependencies := ["intro_1"]; oq_priority := None |} ];
          doc_question_dependencies := None;
          doc_question_priorities := None;
          doc_flow_order := ["introduction"] |})
  = ["AA_1"; "AA_2"].
Proof. vm_compute. reflexivity. Qed.

(** A question text with a dot, saved for a user who has a document, is
    written as a path: an embedded document under the part before the
    dot. *)
Example dotted_question_text_is_a_path :
  save_user_responses
    (Some [ {| email := "pat@example.org"; consultation_results := [] |} ])
    false "pat@example.org" "session-1"
    [("Do you smoke. Or did you ever smoke?", "no")]
  = (true,
     Some [ {| email := "pat@example.org";
               consultation_results :=
                 [("Do you smoke",
                   BDocument [(" Or did you ever smoke?", BString "no")])] |} ]).
Proof. reflexivity. Qed.

(** ** Resolver *)

Section ResolverFacts.
Variable self : QuestionFlowEngine.
Implicit Types (A : gset string) (items : dict question_data).

Lemma eligibleb_spec A item :
  eligibleb self A item = true ↔ eligible self A item.1.
Proof.
  unfold eligibleb, eligible, deps_satisfied.
  rewrite andb_true_iff, negb_true_iff, bool_decide_eq_false, forallb_forall.
  split; intros [Hn Hd]; split; auto.
  - intros dep Hdep. apply list_elem_of_In, Hd in Hdep.
    by apply bool_decide_eq_true in Hdep.
  - intros dep Hdep. apply bool_decide_eq_true, Hd. by apply list_elem_of_In.
Qed.

Lemma scan_questions_take A items available :
  length available < MAX_QUESTIONS →
  scan_questions self A items available =
    available ++ take (MAX_QUESTIONS - length available)
                      (q_dict_of <$> filter (eligibleb self A) items).
Proof.
  revert available. induction items as [|[l qd] rest IH]; intros available Hlen.
  - simpl. by rewrite take_nil, app_nil_r.
  - cbn [scan_questions]. rewrite filter_cons.
    destruct (decide (eligibleb self A (l, qd))) as [He|He].
    + apply Is_true_true in He. unfold eligibleb in He. cbn [fst] in He.
      apply andb_true_iff in He as [H1 H2]. apply negb_true_iff in H1.
      rewrite H1, H2, length_app. cbn [length].
      unfold MAX_QUESTIONS in *.
      destruct (2 <=? length available + 1) eqn:Hcap.
      * apply Nat.leb_le in Hcap.
        replace (2 - length available) with 1 by lia.
        rewrite fmap_cons. simpl. by rewrite take_0.
      * apply Nat.leb_gt in Hcap.
        rewrite IH by (rewrite length_app; simpl; lia).
        rewrite length_app. cbn [length].
        replace (2 - length available) with (S (2 - (length available + 1))) by lia.
        rewrite fmap_cons. cbn [take]. by rewrite <- app_assoc.
    + apply Is_true_false in He. unfold eligibleb in He. cbn [fst] in He.
      destruct (bool_decide (l ∈ A)); [by apply IH|].
      simpl in He. rewrite He. by apply IH.
Qed.

Lemma get_available_questions_take A :
  _get_available_questions self A =
    if MAX_QUESTIONS <=? size A then []
    else take MAX_QUESTIONS (q_dict_of <$> filter (eligibleb self A) (questions self)).
Proof.
  unfold _get_available_questions.
  destruct (MAX_QUESTIONS <=? size A); [done|].
  rewrite scan_questions_take by (unfold MAX_QUESTIONS; simpl; lia).
  by rewrite Nat.sub_0_r.
Qed.

Lemma available_length A : length (_get_available_questions self A) ≤ MAX_QUESTIONS.
Proof.
  rewrite get_available_questions_take.
  destruct (MAX_QUESTIONS <=? size A); [simpl; lia|].
  rewrite length_take. lia.
Qed.

Lemma available_capped A :
  MAX_QUESTIONS ≤ size A → _get_available_questions self A = [].
Proof.
  intros H. unfold _get_available_questions.
  by apply Nat.leb_le in H as ->.
Qed.

Lemma available_eligible A q :
  q ∈ _get_available_questions self A →
  q_id q ∈ dict_keys (questions self) ∧ eligible self A (q_id q).
Proof.
  rewrite get_available_questions_take.
  destruct (MAX_QUESTIONS <=? size A); [by intros ?%elem_of_nil|].
  intros (i & Hi & _)%elem_of_take.
  apply list_elem_of_lookup_2, list_elem_of_fmap in Hi as (item & -> & Hitem).
  apply list_elem_of_filter in Hitem as [He Hitem].
  split.
  - apply list_elem_of_fmap. by exists item.
  - by apply eligibleb_spec, Is_true_true.
Qed.

Lemma available_not_answered A l :
  l ∈ ids (_get_available_questions self A) → l ∉ A.
Proof.
  intros (q & -> & Hq)%list_elem_of_fmap.
  by apply available_eligible in Hq as [_ [? _]].
Qed.

(** Answering more can only close the flow once one label is answered:
    a larger set either is the same set or reaches the cap. *)
Lemma available_nil_mono A A' :
  A ≠ ∅ → A ⊆ A' → _get_available_questions self A = [] →
  _get_available_questions self A' = [].
Proof.
  intros Hne Hsub Hnil.
  destruct (decide (A = A')) as [<-|Hneq]; [done|].
  apply available_capped. unfold MAX_QUESTIONS.
  assert (size A < size A') by (apply subset_size; set_solver).
  assert (size A ≠ 0) by (by intros ?%size_empty_inv%leibniz_equiv).
  lia.
Qed.

End ResolverFacts.

(** C1 (as amended). The resolver answers with the first [MAX_QUESTIONS]
    eligible labels in catalog order when fewer than [MAX_QUESTIONS] labels
    are answered, and with the empty list otherwise; every label it returns
    is a catalog label that is not answered and whose dependencies are all
    answered. *)
Theorem available_questions_first_eligible
    (self : QuestionFlowEngine) (answered : gset string) :
  ids (_get_available_questions self answered) =
    (if MAX_QUESTIONS <=? size answered then []
     else take MAX_QUESTIONS
            (filter (eligibleb self answered) (questions self)).*1)
  ∧ (∀ question_label,
       question_label ∈ ids (_get_available_questions self answered) →
       question_label ∈ dict_keys (questions self)
       ∧ eligible self answered question_label).
Proof.
  split.
  - rewrite get_available_questions_take.
    destruct (MAX_QUESTIONS <=? size answered); [done|].
    unfold ids. rewrite <- !fmap_take, <- list_fmap_compose. reflexivity.
  - intros l (q & -> & Hq)%list_elem_of_fmap. by apply available_eligible.
Qed.

Lemma available_questions_first_eligible_witness :
  "A_2" ∈ dict_keys (questions scenario_engine)
  ∧ eligible scenario_engine {[ "A_1" ]} "A_2".
Proof.
  apply (available_questions_first_eligible scenario_engine {[ "A_1" ]}).
  by_evaluation.
Defined.

(** C1, as stated, fails on a catalog of three open questions: the third
    label is eligible and is not returned. *)
Lemma resolver_spec_fails_on_open_engine :
  ¬ resolver_spec open_engine ∅ (ids (_get_available_questions open_engine ∅)).
Proof.
  intros H. specialize (H "A_3").
  destruct H as [_ H].
  { by_evaluation. }
  assert (Hin : "A_3" ∈ ids (_get_available_questions open_engine ∅)).
  { apply H. split; [set_solver|].
    intros dep Hdep. vm_compute in Hdep. by apply elem_of_nil in Hdep. }
  revert Hin. apply (bool_decide_eq_false_1 _). vm_compute. reflexivity.
Qed.

(** ** Dictionaries *)

Section DictFacts.
Context {V : Type}.
Implicit Types (d : dict V) (k : string) (v : V).

Lemma dict_get_set_eq k v d : dict_get k (dict_set k v d) = Some v.
Proof.
  induction d as [|[k' v'] d IH]; simpl.
  - by rewrite String.eqb_refl.
  - destruct (String.eqb k k') eqn:E; simpl; rewrite ?String.eqb_refl, ?E; done.
Qed.

Lemma dict_get_set_ne k k' v d :
  k ≠ k' → dict_get k (dict_set k' v d) = dict_get k d.
Proof.
  intros Hne. apply String.eqb_neq in Hne.
  induction d as [|[k0 v0] d IH]; simpl.
  - by rewrite Hne.
  - destruct (String.eqb k' k0) eqn:E; simpl.
    + apply String.eqb_eq in E as <-. by rewrite Hne.
    + by rewrite IH.
Qed.

Lemma dict_get_set k k' v d :
  dict_get k (dict_set k' v d) = if String.eqb k' k then Some v else dict_get k d.
Proof.
  destruct (String.eqb k' k) eqn:E.
  - apply String.eqb_eq in E as ->. apply dict_get_set_eq.
  - apply String.eqb_neq in E. by apply dict_get_set_ne.
Qed.

Lemma dict_keys_set k v d x :
  x ∈ dict_keys (dict_set k v d) ↔ x = k ∨ x ∈ dict_keys d.
Proof.
  unfold dict_keys. induction d as [|[k' v'] d IH]; simpl.
  - set_solver.
  - destruct (String.eqb k k') eqn:E; simpl.
    + apply String.eqb_eq in E as <-. set_solver.
    + rewrite !elem_of_cons, IH. tauto.
Qed.

Lemma dict_get_Some_keys k v d : dict_get k d = Some v → k ∈ dict_keys d.
Proof.
  unfold dict_keys. induction d as [|[k' v'] d IH]; simpl; [done|].
  destruct (String.eqb k k') eqn:E.
  - apply String.eqb_eq in E as <-. set_solver.
  - set_solver.
Qed.

Lemma dict_get_None_keys k d : dict_get k d = None ↔ k ∉ dict_keys d.
Proof.
  unfold dict_keys. induction d as [|[k' v'] d IH]; simpl.
  - set_solver.
  - destruct (String.eqb k k') eqn:E.
    + apply String.eqb_eq in E as <-. set_solver.
    + apply String.eqb_neq in E. rewrite IH. set_solver.
Qed.

Lemma dict_keys_update d other x :
  x ∈ dict_keys (dict_update d other) ↔ x ∈ dict_keys d ∨ x ∈ dict_keys other.
Proof.
  unfold dict_update. revert d.
  induction other as [|[k' v'] other IH]; intros d; simpl.
  - unfold dict_keys at 2. simpl. rewrite elem_of_nil. tauto.
  - rewrite IH, dict_keys_set. unfold dict_keys at 4. simpl.
    rewrite elem_of_cons. fold (dict_keys other). tauto.
Qed.

(** [{**d, **other}]: the entry of [other] wins, the entry of [d] is kept
    where [other] has none. *)
Lemma dict_get_update k d other :
  NoDup (dict_keys other) →
  dict_get k (dict_update d other) =
    match dict_get k other with
    | Some v => Some v
    | None => dict_get k d
    end.
Proof.
  unfold dict_update. revert d.
  induction other as [|[k' v'] other IH]; intros d Hnd; simpl; [done|].
  apply NoDup_cons in Hnd as [Hk' Hnd]. simpl in Hk'.
  rewrite IH by done.
  destruct (String.eqb k k') eqn:E.
  - apply String.eqb_eq in E as ->.
    apply dict_get_None_keys in Hk' as ->. apply dict_get_set_eq.
  - apply String.eqb_neq in E.
    destruct (dict_get k other); [done|]. by apply dict_get_set_ne.
Qed.

End DictFacts.

Section DictBuild.
Context {V : Type}.
Implicit Types (d : dict V) (k : string) (v : V).

Lemma dict_set_fresh k v d :
  k ∉ dict_keys d → dict_set k v d = d ++ [(k, v)].
Proof.
  unfold dict_keys. induction d as [|[k' v'] d IH]; intros Hk; [done|].
  rewrite fmap_cons, not_elem_of_cons in Hk. destruct Hk as [Hne Hk].
  cbn [dict_set fst]. apply String.eqb_neq in Hne. cbn [fst] in Hne.
  rewrite Hne, IH by done. done.
Qed.

(** Setting the pairs of a list with distinct keys, none of them present,
    appends the list. *)
Lemma dict_set_all_fresh (l d : dict V) :
  NoDup (dict_keys l) → (∀ k, k ∈ dict_keys l → k ∉ dict_keys d) →
  fold_left (λ m kv, dict_set kv.1 kv.2 m) l d = d ++ l.
Proof.
  unfold dict_keys. revert d.
  induction l as [|[k v] l IH]; intros d Hnd Hfresh; cbn [fold_left].
  - by rewrite app_nil_r.
  - rewrite fmap_cons in Hnd. apply NoDup_cons in Hnd as [Hk Hnd].
    cbn [fst snd] in *.
    rewrite dict_set_fresh by (apply Hfresh; rewrite fmap_cons; by left).
    rewrite IH; [by rewrite <- app_assoc|done|].
    intros k' Hk'. rewrite fmap_app, elem_of_app. intros [Hd|Hd].
    + eapply Hfresh; [rewrite fmap_cons; by right|done].
    + cbn in Hd. apply list_elem_of_singleton in Hd as ->. done.
Qed.

Lemma dict_set_nodup k v d : NoDup (dict_keys d) → NoDup (dict_keys (dict_set k v d)).
Proof.
  unfold dict_keys. induction d as [|[k' v'] d IH]; intros Hnd; cbn [dict_set].
  - apply NoDup_singleton.
  - rewrite fmap_cons in Hnd. apply NoDup_cons in Hnd as [Hk Hnd].
    destruct (String.eqb k k') eqn:E.
    + apply String.eqb_eq in E as ->. rewrite fmap_cons. by apply NoDup_cons.
    + rewrite fmap_cons. apply NoDup_cons. split; [|by apply IH].
      cbn [fst] in *. fold (dict_keys (dict_set k v d)).
      rewrite dict_keys_set. intros [->|?]; [|done].
      by rewrite String.eqb_refl in E.
Qed.

End DictBuild.

(** ** Sorting *)

Section PySortedFacts.
Context {A K : Type} `{EqDecision K}.
Variable key : A → K.
Variable ltb : K → K → bool.
Hypothesis ltb_irrefl : ∀ a, ltb a a = false.
Hypothesis ltb_asym : ∀ a b, ltb a b = true → ltb b a = false.
Hypothesis geb_trans :
  ∀ a b c, ltb b a = false → ltb c b = false → ltb c a = false.

Lemma insert_by_perm x l : insert_by key ltb x l ≡ₚ x :: l.
Proof.
  induction l as [|y l IH]; simpl; [done|].
  destruct (ltb (key y) (key x)); [|done].
  rewrite IH. apply Permutation_swap.
Qed.

Lemma py_sorted_perm l : py_sorted key ltb l ≡ₚ l.
Proof.
  induction l as [|x l IH]; simpl; [done|].
  by rewrite insert_by_perm, IH.
Qed.

Lemma insert_by_sorted x l :
  StronglySorted (key_le key ltb) l → StronglySorted (key_le key ltb) (insert_by key ltb x l).
Proof.
  induction 1 as [|y l Hs IH Hy]; simpl.
  - repeat constructor.
  - destruct (ltb (key y) (key x)) eqn:E.
    + constructor; [done|].
      rewrite insert_by_perm. constructor; [|done].
      unfold key_le. by apply ltb_asym.
    + constructor; [by constructor|].
      constructor; [done|].
      eapply Forall_impl; [exact Hy|].
      intros z Hz. unfold key_le in *. by eapply geb_trans.
Qed.

Lemma py_sorted_sorted l : StronglySorted (key_le key ltb) (py_sorted key ltb l).
Proof.
  induction l as [|x l IH]; simpl; [constructor|]. by apply insert_by_sorted.
Qed.

Lemma insert_by_filter k x l :
  filter (λ y, key y = k) (insert_by key ltb x l) =
  filter (λ y, key y = k) (x :: l).
Proof.
  induction l as [|y l IH]; simpl; [done|].
  destruct (ltb (key y) (key x)) eqn:E; [|done].
  rewrite (filter_cons _ y), IH, !filter_cons.
  destruct (decide (key y = k)) as [Hy|Hy], (decide (key x = k)) as [Hx|Hx];
    try done.
  rewrite Hy, Hx, ltb_irrefl in E. done.
Qed.

(** Stability: the elements of any one key come out in the order they
    came in. *)
Lemma py_sorted_stable k l :
  filter (λ y, key y = k) (py_sorted key ltb l) = filter (λ y, key y = k) l.
Proof.
  induction l as [|x l IH]; simpl; [done|].
  by rewrite insert_by_filter, !filter_cons, IH.
Qed.

(** The result is the only one a stable sort can give: a list that ascends
    in the key and keeps, key by key, the elements of [l] in their order is
    [py_sorted l]. *)
Hypothesis ltb_total : ∀ a b, ltb a b = false → ltb b a = false → a = b.

Lemma sorted_stable_unique l1 l2 :
  StronglySorted (key_le key ltb) l1 → StronglySorted (key_le key ltb) l2 →
  (∀ k, filter (λ y, key y = k) l1 = filter (λ y, key y = k) l2) →
  l1 = l2.
Proof.
  intros Hs1. revert l2. induction Hs1 as [|x l1 Hs1 IH Hx]; intros l2 Hs2 Hf.
  - destruct l2 as [|y l2]; [done|].
    specialize (Hf (key y)). rewrite filter_cons_True in Hf by done. done.
  - destruct l2 as [|y l2].
    { specialize (Hf (key x)). rewrite filter_cons_True in Hf by done. done. }
    apply StronglySorted_inv in Hs2 as [Hs2 Hy].
    assert (Hxy : key_le key ltb y x).
    { assert (Hin : x ∈ y :: l2).
      { eapply (list_elem_of_filter (λ z, key z = key x)).
        rewrite <- Hf, filter_cons_True by done. by left. }
      apply elem_of_cons in Hin as [->|Hin]; [apply ltb_irrefl|].
      by eapply Forall_forall in Hy. }
    assert (Hyx : key_le key ltb x y).
    { assert (Hin : y ∈ x :: l1).
      { eapply (list_elem_of_filter (λ z, key z = key y)).
        rewrite Hf, filter_cons_True by done. by left. }
      apply elem_of_cons in Hin as [->|Hin]; [apply ltb_irrefl|].
      by eapply Forall_forall in Hx. }
    assert (Hk : key x = key y) by (by apply ltb_total).
    assert (x = y) as <-.
    { specialize (Hf (key x)).
      rewrite !filter_cons_True in Hf by done. by injection Hf. }
    f_equal. apply IH; [done|]. intros k. specialize (Hf k).
    rewrite !filter_cons in Hf. destruct (decide (key x = k)); [|done].
    by injection Hf.
Qed.

Lemma py_sorted_unique l l' :
  StronglySorted (key_le key ltb) l' →
  (∀ k, filter (λ y, key y = k) l' = filter (λ y, key y = k) l) →
  l' = py_sorted key ltb l.
Proof.
  intros Hs Hf. apply sorted_stable_unique; [done|apply py_sorted_sorted|].
  intros k. by rewrite Hf, py_sorted_stable.
Qed.

End PySortedFacts.

Lemma tuple_ltb_irrefl a : tuple_ltb a a = false.
Proof.
  destruct a as [[a1 a2] a3]. unfold tuple_ltb.
  rewrite !Z.ltb_irrefl, !Z.eqb_refl. done.
Qed.

Lemma tuple_ltb_spec a b :
  tuple_ltb a b = true ↔ tuple_le a b ∧ a ≠ b.
Proof.
  destruct a as [[a1 a2] a3], b as [[b1 b2] b3]. unfold tuple_ltb, tuple_le.
  rewrite !orb_true_iff, !andb_true_iff, !orb_true_iff, !andb_true_iff,
    !Z.ltb_lt, !Z.eqb_eq.
  split.
  - intros H. split; [lia|]. intros [= -> -> ->]. lia.
  - intros [H Hne].
    destruct (decide (a1 = b1)) as [->|]; [|lia].
    destruct (decide (a2 = b2)) as [->|]; [|lia].
    destruct (decide (a3 = b3)) as [->|]; [done|lia].
Qed.

Lemma tuple_geb_le a b : tuple_ltb b a = false ↔ tuple_le a b.
Proof.
  rewrite <- not_true_iff_false, tuple_ltb_spec.
  destruct a as [[a1 a2] a3], b as [[b1 b2] b3]. unfold tuple_le.
  split.
  - intros H.
    destruct (decide ((a1, a2, a3) = (b1, b2, b3))) as [[= -> -> ->]|Hne]; [lia|].
    destruct (decide (b1 < a1 ∨ b1 = a1 ∧ (b2 < a2 ∨ b2 = a2 ∧ b3 ≤ a3)))%Z
      as [Hd|Hd]; [|lia].
    destruct H. split; [done|congruence].
  - intros H [H' Hne]. apply Hne. f_equal; [f_equal|]; lia.
Qed.

Lemma tuple_ltb_asym a b : tuple_ltb a b = true → tuple_ltb b a = false.
Proof.
  rewrite tuple_geb_le, tuple_ltb_spec. tauto.
Qed.

Lemma tuple_geb_trans a b c :
  tuple_ltb b a = false → tuple_ltb c b = false → tuple_ltb c a = false.
Proof.
  rewrite !tuple_geb_le.
  destruct a as [[a1 a2] a3], b as [[b1 b2] b3], c as [[c1 c2] c3].
  unfold tuple_le. lia.
Qed.

Lemma split_no_separator (s : string) :
  PyStr.contains "_" s = false → PyStr.split "_" s = [s].
Proof.
  induction s as [|c s IH]; [done|].
  cbn [PyStr.contains PyStr.split String.prefix].
  destruct (Ascii.ascii_dec "_" c) as [<-|Hne]; [by destruct s|].
  intros Hs. simpl in Hs. rewrite (IH Hs).
  assert (Ascii.eqb c "_" = false) as ->; [|done].
  apply Ascii.eqb_neq. congruence.
Qed.

Lemma tuple_ltb_total a b :
  tuple_ltb a b = false → tuple_ltb b a = false → a = b.
Proof.
  rewrite !tuple_geb_le.
  destruct a as [[a1 a2] a3], b as [[b1 b2] b3]. unfold tuple_le.
  intros H1 H2. f_equal; [f_equal|]; lia.
Qed.

Section OrderingFacts.
Variable self : QuestionFlowEngine.

(** Any stable ascending arrangement of the candidates is the one
    [_sort_questions_by_order] returns. *)
Lemma sort_questions_unique qs qs' :
  StronglySorted (key_le (sort_key self) tuple_ltb) qs' →
  (∀ k, filter (λ q, sort_key self q = k) qs'
        = filter (λ q, sort_key self q = k) qs) →
  qs' = _sort_questions_by_order self qs.
Proof.
  apply py_sorted_unique.
  - apply tuple_ltb_irrefl.
  - apply tuple_ltb_asym.
  - apply tuple_geb_trans.
  - apply tuple_ltb_total.
Qed.

Lemma category_order_fold (c : string) (l : list string) (i : nat) (m : dict Z) :
  dict_get c
    (fold_left (λ m ic, dict_set ic.2 (Z.of_nat ic.1) m) (enumerate_from i l) m)
  = match last_index_from i c l with
    | Some j => Some (Z.of_nat j)
    | None => dict_get c m
    end.
Proof.
  revert i m. induction l as [|x l IH]; intros i m; simpl; [done|].
  rewrite IH. destruct (last_index_from (S i) c l); [done|].
  cbn [fst snd]. rewrite dict_get_set. by destruct (String.eqb x c).
Qed.

(** The category component of the key: the last position of the category
    in [flow_order], or [999]. *)
Lemma category_order_last_index (c : string) :
  default 999%Z (dict_get c (category_order_map self)) =
  match last_index_from 0 c (flow_order self) with
  | Some j => Z.of_nat j
  | None => 999%Z
  end.
Proof.
  unfold category_order_map. rewrite category_order_fold.
  by destruct (last_index_from 0 c (flow_order self)).
Qed.

Lemma sort_questions_perm qs : _sort_questions_by_order self qs ≡ₚ qs.
Proof. apply py_sorted_perm. Qed.

Lemma sort_questions_nil_inv qs : _sort_questions_by_order self qs = [] → qs = [].
Proof.
  intros H. apply Permutation_nil_r. rewrite <- H. symmetry. apply sort_questions_perm.
Qed.

Lemma first_sorted_elem qs l : first_sorted self qs = Some l → l ∈ ids qs.
Proof.
  unfold first_sorted.
  destruct (_sort_questions_by_order self qs) as [|q rest] eqn:E; [done|].
  intros [= <-]. unfold ids. apply list_elem_of_fmap. exists q. split; [done|].
  rewrite <- (sort_questions_perm qs), E. by left.
Qed.

End OrderingFacts.

(** C3 (as amended). The ordering policy returns a permutation of its
    input that ascends in the key (category position, priority, sequence
    number) compared as a tuple, with questions of equal key left in input
    order. The category position is the last position of the category in
    [flow_order], and [999] stands in for a category that is not listed, a
    priority that is not set, and a label whose piece after the first
    underscore is missing or is not an integer that [int] reads. *)
Theorem sort_questions_by_order_stable_ascending
    (self : QuestionFlowEngine) (qs : list q_dict) :
  _sort_questions_by_order self qs ≡ₚ qs
  ∧ StronglySorted (λ a b, tuple_le (sort_key self a) (sort_key self b))
      (_sort_questions_by_order self qs)
  ∧ (∀ k : Z * Z * Z,
       filter (λ q, sort_key self q = k) (_sort_questions_by_order self qs)
       = filter (λ q, sort_key self q = k) qs)
  ∧ (∀ q : q_dict,
       sort_key self q =
         (match last_index_from 0 (q_category q) (flow_order self) with
          | Some j => Z.of_nat j
          | None => 999%Z
          end,
          default 999%Z (dict_get (q_id q) (priorities self)),
          match spec_sequence_number (q_id q) with
          | Some n => n
          | None => 999%Z
          end)).
Proof.
  split; [apply sort_questions_perm|]. split; [|split].
  - eapply (Sorted.StronglySorted_ind
              (λ l, StronglySorted
                      (λ a b, tuple_le (sort_key self a) (sort_key self b)) l)).
    + constructor.
    + intros a l _ IH Ha. constructor; [done|].
      eapply Forall_impl; [exact Ha|]. intros b Hb.
      apply tuple_geb_le. exact Hb.
    + apply (py_sorted_sorted (sort_key self) tuple_ltb).
      * apply tuple_ltb_asym.
      * apply tuple_geb_trans.
  - intros k. apply py_sorted_stable, tuple_ltb_irrefl.
  - intros q. unfold sort_key. rewrite category_order_last_index.
    f_equal. unfold q_num_of, spec_sequence_number.
    destruct (PyStr.contains "_" (q_id q)) eqn:Hc.
    + by destruct (PyStr.split "_" (q_id q)) as [|? [|piece ?]].
    + by rewrite split_no_separator.
Qed.

(** C3, as stated, fails when a sequence number exceeds the stand-in
    value: the label with the non-numeric suffix is sorted first, not
    last. *)
Lemma non_numeric_suffix_sorted_before_large_number :
  _sort_questions_by_order open_engine
    [candidate "AA_1000" "A"; candidate "AA_x" "A"]
  = [candidate "AA_x" "A"; candidate "AA_1000" "A"]
  ∧ ¬ StronglySorted
        (λ a b, spec_le (spec_sort_key open_engine a) (spec_sort_key open_engine b))
        (_sort_questions_by_order open_engine
           [candidate "AA_1000" "A"; candidate "AA_x" "A"]).
Proof.
  assert (Hsort : _sort_questions_by_order open_engine
                    [candidate "AA_1000" "A"; candidate "AA_x" "A"]
                  = [candidate "AA_x" "A"; candidate "AA_1000" "A"])
    by (vm_compute; reflexivity).
  split; [exact Hsort|].
  rewrite Hsort. intros Hs.
  apply StronglySorted_inv in Hs as [_ Hf].
  apply Forall_inv in Hf.
  vm_compute in Hf.
  destruct Hf as [Hf | [_ [Hf | [_ [Hf | Hf]]]]];
    first [discriminate Hf | contradiction].
Qed.

(** ** Flow controller *)

Section FlowFacts.
Variable self : QuestionFlowEngine.
Implicit Types (state : QuestionFlowState) (A : gset string).

Lemma first_sorted_nil : first_sorted self [] = None.
Proof. done. Qed.

Lemma first_sorted_is_Some qs : qs ≠ [] → is_Some (first_sorted self qs).
Proof.
  intros Hne. unfold first_sorted.
  destruct (_sort_questions_by_order self qs) as [|q rest] eqn:E; [|by eexists].
  by apply sort_questions_nil_inv in E.
Qed.

Lemma judge_first_sorted qs history current_answers :
  _judge_next_question self qs history current_answers = first_sorted self qs.
Proof. by destruct qs. Qed.

(** What [select_from] leaves in [current_question_id]: the head of the
    sorted candidates, or, when that label is already answered, the head
    of the sorted candidates without it. *)
Lemma select_from_current available A state :
  current_question_id (select_from self available A state) =
    match first_sorted self available with
    | Some sel =>
        if PyStr.truthy sel && bool_decide (sel ∈ A)
        then first_sorted self
               (filter (λ q, negb (String.eqb (q_id q) sel)) available)
        else Some sel
    | None => None
    end.
Proof.
  unfold select_from. rewrite judge_first_sorted.
  destruct (first_sorted self available) as [sel|] eqn:Hsel.
  - destruct (PyStr.truthy sel && bool_decide (sel ∈ A)) eqn:Hdef.
    + set (rest := filter _ available).
      destruct rest as [|q rest'] eqn:Hrest.
      * by cbn.
      * destruct (first_sorted self (q :: rest')) as [x|] eqn:Hx.
        -- cbn [truthy_opt].
           destruct (PyStr.truthy x) eqn:Hxt; cbn [andb].
           ++ rewrite bool_decide_eq_true_2 by (by eapply first_sorted_elem).
              done.
           ++ unfold first_sorted in Hx.
              destruct (_sort_questions_by_order self (q :: rest')); [done|].
              by injection Hx as ->.
        -- destruct (first_sorted_is_Some (q :: rest')) as [? ?]; [done|congruence].
    + cbn [truthy_opt].
      destruct (PyStr.truthy sel) eqn:Hxt; cbn [andb].
      * rewrite bool_decide_eq_true_2 by (by eapply first_sorted_elem). done.
      * unfold first_sorted in Hsel.
        destruct (_sort_questions_by_order self available); [done|].
        by injection Hsel as ->.
  - cbn. unfold first_sorted in Hsel.
    by destruct (_sort_questions_by_order self available).
Qed.

Lemma select_from_answered available A state :
  answered_questions (select_from self available A state) = answered_questions state
  ∧ answers (select_from self available A state) = answers state
  ∧ messages (select_from self available A state) = messages state.
Proof.
  unfold select_from.
  repeat match goal with
         | |- context [match ?x with _ => _ end] => destruct x
         end; done.
Qed.

Lemma select_node_answered state :
  answered_questions (_select_question_node self state) =
    answered_questions state ∪ key_set (answers state)
  ∧ answers (_select_question_node self state) = answers state
  ∧ messages (_select_question_node self state) = messages state.
Proof.
  unfold _select_question_node.
  destruct (_get_available_questions self _); [done|].
  by rewrite !(proj1 (select_from_answered _ _ _)),
    !(proj1 (proj2 (select_from_answered _ _ _))),
    !(proj2 (proj2 (select_from_answered _ _ _))).
Qed.

Lemma select_node_current state :
  current_question_id (_select_question_node self state) =
    next_label self (answered_questions state ∪ key_set (answers state)).
Proof.
  unfold _select_question_node, next_label.
  set (A := answered_questions state ∪ key_set (answers state)).
  destruct (_get_available_questions self A) as [|q qs] eqn:Hav; [done|].
  rewrite select_from_current.
  destruct (first_sorted self (q :: qs)) as [sel|] eqn:Hsel; [|done].
  rewrite (bool_decide_eq_false_2 (sel ∈ A)), andb_false_r; [done|].
  apply (available_not_answered self). rewrite Hav.
  by eapply first_sorted_elem.
Qed.

Lemma key_set_dict_set q a (d : dict string) :
  key_set (dict_set q a d) = {[ q ]} ∪ key_set d.
Proof.
  unfold key_set. apply set_eq. intros x.
  rewrite elem_of_union, !elem_of_list_to_set, dict_keys_set. set_solver.
Qed.

Lemma process_answer_messages state :
  messages (_process_answer_node self state) = messages state.
Proof.
  unfold _process_answer_node.
  destruct (messages state) eqn:Hm; [done|].
  destruct (first_human _); [|done].
  destruct (if truthy_opt _ then _ else _) as [[q|] current]; [|by rewrite <- Hm].
  destruct (PyStr.truthy q); by rewrite <- Hm.
Qed.

(** Recording an answer never forgets an answered label. *)
Lemma process_answer_grows state :
  answered_questions state ∪ key_set (answers state) ⊆
  answered_questions (_process_answer_node self state)
    ∪ key_set (answers (_process_answer_node self state)).
Proof.
  unfold _process_answer_node.
  destruct (messages state); [done|].
  destruct (first_human _); [|done].
  destruct (if truthy_opt _ then _ else _) as [[q|] current]; [|done].
  destruct (PyStr.truthy q); [|done].
  cbn [answered_questions answers set_answered_questions set_answers
       set_current_question_id].
  rewrite key_set_dict_set. set_solver.
Qed.

Lemma ask_node_fields state :
  answered_questions (_ask_question_node self state) = answered_questions state
  ∧ answers (_ask_question_node self state) = answers state
  ∧ current_question_id (_ask_question_node self state) = current_question_id state
  ∧ flow_complete (_ask_question_node self state) = flow_complete state.
Proof.
  unfold _ask_question_node.
  destruct (current_question_id state) as [q|] eqn:Hc; [|by rewrite Hc].
  destruct (PyStr.truthy q); [|by rewrite Hc].
  destruct (dict_get q (questions self)); by rewrite ?Hc.
Qed.

Lemma ask_node_messages_None state :
  current_question_id state = None →
  messages (_ask_question_node self state) = messages state.
Proof. unfold _ask_question_node. by intros ->. Qed.

Lemma check_node_fields state :
  answered_questions (_check_completion_node self state) = answered_questions state
  ∧ answers (_check_completion_node self state) = answers state
  ∧ current_question_id (_check_completion_node self state) = current_question_id state
  ∧ messages (_check_completion_node self state) = messages state.
Proof.
  unfold _check_completion_node.
  by destruct (_get_available_questions self (answered_questions state)).
Qed.

Lemma check_node_complete state :
  flow_complete (_check_completion_node self state) = true ↔
  _get_available_questions self (answered_questions state) = [].
Proof.
  unfold _check_completion_node.
  by destruct (_get_available_questions self (answered_questions state)).
Qed.

Lemma workflow_fields state :
  answered_questions (workflow self state) = answered_after self state
  ∧ answers (workflow self state) = answers (_process_answer_node self state)
  ∧ current_question_id (workflow self state) = next_label self (answered_after self state)
  ∧ (flow_complete (workflow self state) = true ↔
     _get_available_questions self (answered_after self state) = []).
Proof.
  unfold workflow, answered_after.
  set (st1 := _process_answer_node self state).
  destruct (select_node_answered st1) as (Ha & Hans & Hm).
  pose proof (select_node_current st1) as Hc.
  set (st2 := _select_question_node self st1) in *.
  destruct (ask_node_fields st2) as (Ha3 & Hans3 & Hc3 & _).
  set (st3 := _ask_question_node self st2) in *.
  destruct (check_node_fields st3) as (Ha4 & Hans4 & Hc4 & _).
  rewrite Ha4, Hans4, Hc4, Ha3, Hans3, Hc3, Ha, Hans, Hc.
  repeat split; try done.
  - rewrite check_node_complete, Ha3, Ha. done.
  - rewrite check_node_complete, Ha3, Ha. done.
Qed.

Lemma workflow_messages_None state :
  next_label self (answered_after self state) = None →
  messages (workflow self state) = messages state.
Proof.
  intros Hn. unfold workflow.
  rewrite (proj2 (proj2 (proj2 (check_node_fields _)))).
  rewrite ask_node_messages_None by (by rewrite select_node_current).
  rewrite (proj2 (proj2 (select_node_answered _))).
  apply process_answer_messages.
Qed.

End FlowFacts.

Section ControllerFacts.
Variable self : QuestionFlowEngine.
Implicit Types (session : session_state) (memory : langgraph_memory).

Lemma initial_state_messages user_message session :
  messages (initial_state_of user_message session)
  = (PlainText <$> ss_messages session) ++ [HumanMessage user_message].
Proof.
  unfold initial_state_of.
  destruct (ss_current_question_id session) as [q|]; [|done].
  by destruct (PyStr.truthy q).
Qed.

Lemma merge_existing_messages existing initial_state user_message :
  messages (merge_existing existing initial_state user_message)
  = match messages existing with
    | [] => [HumanMessage user_message]
    | _ => messages existing ++ [HumanMessage user_message]
    end.
Proof. unfold merge_existing. by destruct (answers existing). Qed.

Lemma loaded_state_last user_message session memory :
  last (messages (loaded_state user_message session memory))
  = Some (HumanMessage user_message).
Proof.
  unfold loaded_state, load_memory.
  destruct memory as [| |existing].
  - done.
  - by rewrite initial_state_messages, last_snoc.
  - rewrite merge_existing_messages.
    destruct (messages existing); [done|]. by rewrite last_snoc.
Qed.

Lemma initial_state_answered user_message session :
  ss_answered_questions session ⊆
  answered_questions (initial_state_of user_message session).
Proof.
  unfold initial_state_of.
  destruct (ss_current_question_id session) as [q|]; [|done].
  destruct (PyStr.truthy q); cbn; set_solver.
Qed.

Lemma merge_existing_answered existing initial_state user_message :
  answered_questions initial_state ∪ answered_questions existing ⊆
  answered_questions (merge_existing existing initial_state user_message).
Proof.
  unfold merge_existing.
  destruct (bool_decide (answered_questions existing = ∅)) eqn:He.
  - apply bool_decide_eq_true in He. rewrite He.
    destruct (answers existing); cbn; set_solver.
  - destruct (answers existing); cbn; set_solver.
Qed.

Lemma loaded_state_answered user_message session memory :
  ss_answered_questions session ⊆
  answered_questions (loaded_state user_message session memory).
Proof.
  pose proof (initial_state_answered user_message session).
  unfold loaded_state, load_memory.
  destruct memory as [| |existing]; [done|done|].
  pose proof (merge_existing_answered existing
                (initial_state_of user_message session) user_message).
  set_solver.
Qed.

Lemma answered_of_call_grows user_message session memory :
  ss_answered_questions session ⊆ answered_of_call self user_message session memory.
Proof.
  pose proof (loaded_state_answered user_message session memory).
  pose proof (process_answer_grows self
                (loaded_state user_message session memory)).
  unfold answered_of_call, answered_after. set_solver.
Qed.

Lemma subsequent_interaction_fields user_message session memory :
  let r := subsequent_interaction self user_message session memory in
  let A' := answered_of_call self user_message session memory in
  ss_answered_questions (r_session_state r) = A'
  ∧ r_current_question_id r = next_label self A'
  ∧ ss_current_question_id (r_session_state r) = next_label self A'
  ∧ (r_flow_complete r = true ↔ _get_available_questions self A' = []).
Proof.
  intros r A'. subst r A'.
  unfold subsequent_interaction, answered_of_call.
  fold (loaded_state user_message session memory).
  set (st0 := loaded_state user_message session memory).
  destruct (workflow_fields self st0) as (Ha & Hans & Hc & Hf).
  unfold result_of. cbn [r_session_state ss_answered_questions
    r_current_question_id ss_current_question_id r_flow_complete].
  rewrite Ha, Hans, Hc.
  assert (Hsame : answered_after self st0
                  ∪ key_set (answers (_process_answer_node self st0))
                  = answered_after self st0)
    by (unfold answered_after; set_solver).
  rewrite Hsame.
  destruct (next_label self (answered_after self st0)) eqn:Hn.
  - by repeat split; try apply Hf.
  - rewrite workflow_messages_None by done.
    pose proof (loaded_state_last user_message session memory) as Hlast.
    fold st0 in Hlast. rewrite !Hlast. cbn [PyStr.truthy].
    by repeat split; try apply Hf.
Qed.

Lemma first_interaction_fields user_message session :
  let r := first_interaction self user_message session in
  ss_answered_questions (r_session_state r) = ss_answered_questions session
  ∧ r_current_question_id r = next_label self ∅
  ∧ ss_current_question_id (r_session_state r) =
      match next_label self ∅ with
      | Some l => Some l
      | None => ss_current_question_id session
      end
  ∧ r_flow_complete r = false.
Proof.
  unfold first_interaction, next_label, first_sorted.
  destruct (_get_available_questions self ∅) as [|q qs]; [done|].
  by destruct (_sort_questions_by_order self (q :: qs)).
Qed.

Lemma is_first_interaction_spec session :
  is_first_interaction session = true ↔
  ss_answered_questions session = ∅ ∧ ss_current_question_id session = None.
Proof.
  unfold is_first_interaction. rewrite andb_true_iff, Nat.eqb_eq.
  split.
  - intros [Hs Hc]. split.
    + by apply leibniz_equiv, size_empty_inv.
    + by destruct (ss_current_question_id session).
  - intros [-> ->]. by rewrite size_empty.
Qed.

(** Every call selects by the answered labels it ends with. *)
Lemma process_message_selects user_message session memory :
  let r := process_message self user_message session memory in
  r_current_question_id r =
    next_label self (ss_answered_questions (r_session_state r)).
Proof.
  intros r. subst r. unfold process_message.
  destruct (is_first_interaction session) eqn:Hfirst.
  - apply is_first_interaction_spec in Hfirst as [HA _].
    destruct (first_interaction_fields user_message session) as (-> & -> & _).
    by rewrite HA.
  - by destruct (subsequent_interaction_fields user_message session memory)
      as (-> & -> & _).
Qed.

End ControllerFacts.

Section CompletionFacts.
Variable self : QuestionFlowEngine.

Lemma process_message_complete user_message session memory :
  is_first_interaction session = false →
  let r := process_message self user_message session memory in
  (r_flow_complete r = true ↔
   _get_available_questions self (ss_answered_questions (r_session_state r)) = [])
  ∧ ss_answered_questions session ⊆ ss_answered_questions (r_session_state r).
Proof.
  intros Hfirst r. subst r. unfold process_message. rewrite Hfirst.
  destruct (subsequent_interaction_fields self user_message session memory)
    as (-> & _ & _ & Hf).
  split; [exact Hf|]. apply answered_of_call_grows.
Qed.

Lemma process_message_first user_message session memory :
  is_first_interaction session = true →
  let r := process_message self user_message session memory in
  r_flow_complete r = false
  ∧ ss_answered_questions (r_session_state r) = ∅.
Proof.
  intros Hfirst r. subst r. unfold process_message. rewrite Hfirst.
  destruct (first_interaction_fields self user_message session)
    as (-> & _ & _ & ->).
  by apply is_first_interaction_spec in Hfirst as [-> _].
Qed.

Lemma not_first_of_answered session :
  ss_answered_questions session ≠ ∅ → is_first_interaction session = false.
Proof.
  intros Hne. apply not_true_iff_false.
  by intros [? _]%is_first_interaction_spec.
Qed.

(** A session that has an answered label and no available question stays
    in that condition, and every call on it reports completion. *)
Lemma complete_step user_message session memory :
  ss_answered_questions session ≠ ∅ →
  _get_available_questions self (ss_answered_questions session) = [] →
  let r := process_message self user_message session memory in
  r_flow_complete r = true
  ∧ ss_answered_questions (r_session_state r) ≠ ∅
  ∧ _get_available_questions self (ss_answered_questions (r_session_state r)) = [].
Proof.
  intros Hne Hnil r.
  destruct (process_message_complete user_message session memory
              (not_first_of_answered session Hne)) as [Hc Hsub].
  fold r in Hc, Hsub.
  assert (Hnil' : _get_available_questions self
                    (ss_answered_questions (r_session_state r)) = [])
    by (by eapply available_nil_mono).
  split; [by apply Hc|]. split; [set_solver|done].
Qed.

Lemma complete_run session inputs :
  ss_answered_questions session ≠ ∅ →
  _get_available_questions self (ss_answered_questions session) = [] →
  Forall (λ r, r_flow_complete r = true) (run self session inputs).
Proof.
  revert session. induction inputs as [|[user_message memory] inputs IH];
    intros session Hne Hnil; simpl; [constructor|].
  destruct (complete_step user_message session memory Hne Hnil) as (Hc & Hne' & Hnil').
  constructor; [exact Hc|]. by apply IH.
Qed.

(** The answered labels of a session never shrink. *)
Lemma process_message_grows user_message session memory :
  ss_answered_questions session ⊆
  ss_answered_questions
    (r_session_state (process_message self user_message session memory)).
Proof.
  destruct (is_first_interaction session) eqn:Hfirst.
  - unfold process_message. rewrite Hfirst.
    by destruct (first_interaction_fields self user_message session) as (-> & _).
  - by apply process_message_complete.
Qed.

(** No call of a session returns a label that was answered when the
    session was handed over. *)
Lemma run_no_repeat session inputs :
  Forall (λ r, ∀ l, l ∈ ss_answered_questions session →
                    r_current_question_id r ≠ Some l)
         (run self session inputs).
Proof.
  revert session. induction inputs as [|[user_message memory] inputs IH];
    intros session; simpl; [constructor|].
  pose proof (process_message_grows user_message session memory) as Hgrow.
  constructor.
  - intros l Hl Hcur. rewrite process_message_selects in Hcur.
    apply first_sorted_elem, available_not_answered in Hcur. set_solver.
  - eapply Forall_impl; [apply IH|]. intros r Hr l Hl. apply Hr. set_solver.
Qed.

Lemma initial_state_pending user_message session q :
  ss_current_question_id session = Some q → PyStr.truthy q = true →
  q ∈ answered_questions (initial_state_of user_message session).
Proof.
  intros Hq Ht. unfold initial_state_of. rewrite Hq, Ht. cbn. set_solver.
Qed.

(** The pending question is answered by the call that follows. *)
Lemma pending_recorded user_message session memory q :
  ss_current_question_id session = Some q → PyStr.truthy q = true →
  q ∈ ss_answered_questions
        (r_session_state (process_message self user_message session memory)).
Proof.
  intros Hq Ht.
  assert (Hfirst : is_first_interaction session = false).
  { unfold is_first_interaction. rewrite Hq. apply andb_false_r. }
  unfold process_message. rewrite Hfirst.
  destruct (subsequent_interaction_fields self user_message session memory)
    as (-> & _).
  pose proof (initial_state_pending user_message session q Hq Ht) as Hin.
  pose proof (process_answer_grows self (loaded_state user_message session memory)).
  assert (q ∈ answered_questions (loaded_state user_message session memory)).
  { unfold loaded_state, load_memory. destruct memory as [| |existing]; try done.
    pose proof (merge_existing_answered existing
                  (initial_state_of user_message session) user_message).
    set_solver. }
  unfold answered_of_call, answered_after. set_solver.
Qed.

Lemma next_label_available A l :
  next_label self A = Some l →
  l ∈ dict_keys (questions self) ∧ l ∉ A.
Proof.
  unfold next_label. intros (q & -> & Hq)%first_sorted_elem%list_elem_of_fmap.
  apply available_eligible in Hq as [? [? _]]. done.
Qed.

(** From a session at its first interaction, on a catalog with a question
    to start with and no empty label, every call from the third on reports
    completion: the first call asks, the second and the third record an
    answer each, and two answers close the flow. *)
Lemma complete_from_third_call session inputs :
  is_first_interaction session = true →
  _get_available_questions self ∅ ≠ [] →
  (∀ l, l ∈ dict_keys (questions self) → PyStr.truthy l = true) →
  Forall (λ r, r_flow_complete r = true) (drop 2 (run self session inputs)).
Proof.
  intros Hfirst Hstart Hlabels.
  destruct inputs as [|[m1 mem1] [|[m2 mem2] rest]]; try by constructor.
  cbn [run drop].
  set (r1 := process_message self m1 session mem1).
  set (r2 := process_message self m2 (r_session_state r1) mem2).
  destruct (first_sorted_is_Some self _ Hstart) as [q1 Hq1].
  assert (Hc1 : ss_current_question_id (r_session_state r1) = Some q1).
  { unfold r1, process_message. rewrite Hfirst.
    destruct (first_interaction_fields self m1 session) as (_ & _ & -> & _).
    unfold next_label. by rewrite Hq1. }
  assert (Ht1 : PyStr.truthy q1 = true).
  { apply Hlabels. by apply (next_label_available ∅). }
  pose proof (pending_recorded m2 (r_session_state r1) mem2 q1 Hc1 Ht1) as Hin1.
  fold r2 in Hin1.
  assert (Hnf : is_first_interaction (r_session_state r1) = false).
  { unfold is_first_interaction. rewrite Hc1. apply andb_false_r. }
  destruct (_get_available_questions self
              (ss_answered_questions (r_session_state r2))) as [|q qs] eqn:Hav.
  { apply complete_run; [|done].
    intros Hempty. rewrite Hempty in Hin1. by apply not_elem_of_empty in Hin1. }
  assert (Hc2 : ∃ q2, ss_current_question_id (r_session_state r2) = Some q2
                      ∧ PyStr.truthy q2 = true
                      ∧ q2 ∉ ss_answered_questions (r_session_state r2)).
  { unfold r2, process_message in *. rewrite Hnf in *.
    destruct (subsequent_interaction_fields self m2 (r_session_state r1) mem2)
      as (Ha & _ & Hc & _).
    rewrite Ha in Hav.
    destruct (first_sorted_is_Some self (q :: qs)) as [q2 Hq2]; [done|].
    exists q2. rewrite Hc, Ha. unfold next_label. rewrite Hav.
    split; [done|].
    assert (next_label self
              (answered_of_call self m2 (r_session_state r1) mem2) = Some q2)
      as [? ?]%next_label_available by (unfold next_label; by rewrite Hav).
    auto. }
  destruct Hc2 as (q2 & Hc2 & Ht2 & Hnin).
  destruct rest as [|[m3 mem3] rest]; [constructor|].
  cbn [run].
  set (r3 := process_message self m3 (r_session_state r2) mem3).
  pose proof (pending_recorded m3 (r_session_state r2) mem3 q2 Hc2 Ht2) as Hin2.
  pose proof (process_message_grows m3 (r_session_state r2) mem3) as Hgrow.
  fold r3 in Hin2, Hgrow.
  assert (Hne12 : q1 ≠ q2) by (by intros ->).
  assert (Hsize : 2 ≤ size (ss_answered_questions (r_session_state r3))).
  { assert ({[ q1; q2 ]} ⊆ ss_answered_questions (r_session_state r3))
      as Hsub%subseteq_size.
    { intros x [->%elem_of_singleton| ->%elem_of_singleton]%elem_of_union;
        [by apply Hgrow|done]. }
    rewrite size_union, !size_singleton in Hsub
      by (by apply disjoint_singleton_l, not_elem_of_singleton).
    lia. }
  assert (Hnf2 : is_first_interaction (r_session_state r2) = false).
  { unfold is_first_interaction. rewrite Hc2. apply andb_false_r. }
  constructor.
  - apply (process_message_complete m3 (r_session_state r2) mem3 Hnf2).
    by apply available_capped.
  - apply complete_run; [|by apply available_capped].
    intros Hempty. rewrite Hempty in Hin2. by apply not_elem_of_empty in Hin2.
Qed.

End CompletionFacts.

(** C2. No call of the controller returns a label that is in the answered
    labels it ends with, and neither does the selection node; along any
    sequence of inputs no call returns a label that was answered before;
    and when the head of the sorted candidates is an answered label,
    [select_from] drops it from the candidates and selects again among the
    rest. *)
Theorem selector_never_emits_answered (self : QuestionFlowEngine) :
  (∀ user_message session memory question_label,
     r_current_question_id (process_message self user_message session memory)
       = Some question_label →
     question_label ∉
       ss_answered_questions
         (r_session_state (process_message self user_message session memory)))
  ∧ (∀ session inputs,
       Forall (λ r, ∀ question_label,
                 question_label ∈ ss_answered_questions session →
                 r_current_question_id r ≠ Some question_label)
              (run self session inputs))
  ∧ (∀ state question_label,
       current_question_id (_select_question_node self state) = Some question_label →
       question_label ∉ answered_questions (_select_question_node self state))
  ∧ (∀ available answered state sel,
       first_sorted self available = Some sel →
       PyStr.truthy sel = true →
       sel ∈ answered →
       current_question_id (select_from self available answered state)
         = first_sorted self
             (filter (λ q, negb (String.eqb (q_id q) sel)) available)
       ∧ sel ∉ ids (filter (λ q, negb (String.eqb (q_id q) sel)) available)).
Proof.
  split; [|split; [|split]].
  - intros user_message session memory l.
    rewrite process_message_selects. unfold next_label. intros Hl.
    eapply available_not_answered, first_sorted_elem, Hl.
  - apply run_no_repeat.
  - intros state l.
    rewrite select_node_current, (proj1 (select_node_answered self state)).
    unfold next_label. intros Hl.
    eapply available_not_answered, first_sorted_elem, Hl.
  - intros available answered state sel Hsel Ht Hin. split.
    + rewrite select_from_current, Hsel, Ht.
      by rewrite bool_decide_eq_true_2.
    + intros (q & -> & Hq)%list_elem_of_fmap.
      apply list_elem_of_filter in Hq as [Hq _].
      apply Is_true_true, negb_true_iff, String.eqb_neq in Hq. done.
Qed.

Lemma selector_never_emits_answered_witness :
  ("A_1" ∉ ss_answered_questions
             (r_session_state
                (process_message scenario_engine "hello" fresh_session NoCheckpoint)))
  ∧ current_question_id
      (select_from scenario_engine
         [candidate "A_1" "A"; candidate "A_2" "A"] {[ "A_1" ]} empty_state)
    = first_sorted scenario_engine
        (filter (λ q, negb (String.eqb (q_id q) "A_1"))
           [candidate "A_1" "A"; candidate "A_2" "A"]).
Proof.
  split.
  - apply (proj1 (selector_never_emits_answered scenario_engine)
             "hello" fresh_session NoCheckpoint "A_1").
    vm_compute. reflexivity.
  - apply (proj2 (proj2 (proj2 (selector_never_emits_answered scenario_engine)))
             [candidate "A_1" "A"; candidate "A_2" "A"] {[ "A_1" ]}
             empty_state "A_1").
    + vm_compute. reflexivity.
    + vm_compute. reflexivity.
    + by_evaluation.
Defined.

(** C4. The label a call returns is a function of the catalog and of the
    answered labels the call ends with: two calls that end with the same
    answered labels return the same label, whatever their messages, stored
    answers, pending question and memory; the selection node selects by
    the answered labels closed under the keys of the answers; and the
    judge does not read the history or the answers it is given. *)
Theorem selection_depends_only_on_answered (self : QuestionFlowEngine) :
  (∀ message1 session1 memory1 message2 session2 memory2,
     ss_answered_questions
       (r_session_state (process_message self message1 session1 memory1))
     = ss_answered_questions
         (r_session_state (process_message self message2 session2 memory2)) →
     r_current_question_id (process_message self message1 session1 memory1)
     = r_current_question_id (process_message self message2 session2 memory2))
  ∧ (∀ user_message session memory,
       r_current_question_id (process_message self user_message session memory)
       = next_label self
           (ss_answered_questions
              (r_session_state (process_message self user_message session memory))))
  ∧ (∀ state1 state2,
       answered_questions state1 ∪ key_set (answers state1)
       = answered_questions state2 ∪ key_set (answers state2) →
       current_question_id (_select_question_node self state1)
       = current_question_id (_select_question_node self state2))
  ∧ (∀ available history1 answers1 history2 answers2,
       _judge_next_question self available history1 answers1
       = _judge_next_question self available history2 answers2).
Proof.
  split; [|split; [|split]].
  - intros m1 s1 mem1 m2 s2 mem2 Heq.
    by rewrite !process_message_selects, Heq.
  - intros. apply process_message_selects.
  - intros state1 state2 Heq. by rewrite !select_node_current, Heq.
  - intros. by rewrite !judge_first_sorted.
Qed.

Lemma selection_depends_only_on_answered_witness :
  r_current_question_id
    (process_message scenario_engine "yes" pending_session NoCheckpoint)
  = r_current_question_id
      (process_message scenario_engine "and then?" recorded_session EmptyCheckpoint).
Proof.
  apply (proj1 (selection_depends_only_on_answered scenario_engine)).
  vm_compute. reflexivity.
Defined.


(** C5 (as amended). On a session that is past its first interaction (a
    label is answered or a question is pending) a call reports completion
    exactly when no question is available for the answered labels it ends
    with. Once a call has reported completion and a label is answered,
    every later call of the session reports completion, whatever the
    inputs and the memory. On a first interaction (no answered label, no
    pending question) the call reports no completion. *)
Theorem completion_monotone_after_first_answer (self : QuestionFlowEngine) :
  (∀ user_message session memory,
     is_first_interaction session = false →
     (r_flow_complete (process_message self user_message session memory) = true ↔
      _get_available_questions self
        (ss_answered_questions
           (r_session_state (process_message self user_message session memory)))
      = []))
  ∧ (∀ user_message session memory inputs,
       r_flow_complete (process_message self user_message session memory) = true →
       ss_answered_questions
         (r_session_state (process_message self user_message session memory)) ≠ ∅ →
       Forall (λ r, r_flow_complete r = true)
         (run self
            (r_session_state (process_message self user_message session memory))
            inputs))
  ∧ (∀ user_message session memory,
       is_first_interaction session = true →
       r_flow_complete (process_message self user_message session memory) = false).
Proof.
  split; [|split].
  - intros user_message session memory Hfirst.
    by apply process_message_complete.
  - intros user_message session memory inputs Hc Hne.
    apply complete_run; [done|].
    destruct (is_first_interaction session) eqn:Hfirst.
    + destruct (process_message_first self user_message session memory Hfirst)
        as [Hf _]. congruence.
    + by apply (process_message_complete self user_message session memory Hfirst).
  - intros user_message session memory Hfirst.
    by apply process_message_first.
Qed.

Lemma completion_monotone_after_first_answer_witness :
  Forall (λ r, r_flow_complete r = true)
    (run scenario_engine
       (r_session_state
          (process_message scenario_engine "a dry cough"
             {| ss_answered_questions := {[ "A_1" ]};
                ss_answers := [("A_1", "yes")];
                ss_messages := [];
                ss_current_question_id := Some "A_2";
                ss_asked_questions := {[ "A_1"; "A_2" ]};
                ss_current_question_text := [] |} NoCheckpoint))
       [("anything else?", NoCheckpoint); ("thanks", EmptyCheckpoint)]).
Proof.
  apply (proj1 (proj2 (completion_monotone_after_first_answer scenario_engine))).
  - vm_compute. reflexivity.
  - apply (bool_decide_eq_false_1 _). vm_compute. reflexivity.
Defined.

(** C5, as stated, fails on a fresh session over a catalog in which no
    question is available at the start: the available set is empty and
    the calls report no completion. *)
Lemma fresh_session_without_available_question_never_completes :
  _get_available_questions cycle_engine (ss_answered_questions fresh_session) = []
  ∧ Forall (λ r, r_flow_complete r = false)
      (run cycle_engine fresh_session
         [("hello", NoCheckpoint); ("yes", NoCheckpoint); ("yes", EmptyCheckpoint)]).
Proof.
  split; [vm_compute; reflexivity|].
  vm_compute. repeat constructor.
Qed.

(** C10. The resolver returns at most [MAX_QUESTIONS = 2] questions, and
    none once two labels are answered; hence a call that ends with two or
    more answered labels reports completion and leaves no question
    pending, and a session that starts on a catalog with a question to ask
    and no empty label reports completion from its third call on, that is
    once its second answer is recorded at the latest. *)
Theorem resolver_cap_ends_flow_after_two_answers (self : QuestionFlowEngine) :
  MAX_QUESTIONS = 2
  ∧ (∀ answered, length (_get_available_questions self answered) ≤ 2)
  ∧ (∀ answered, 2 ≤ size answered → _get_available_questions self answered = [])
  ∧ (∀ user_message session memory,
       2 ≤ size (ss_answered_questions
                   (r_session_state (process_message self user_message session memory))) →
       r_flow_complete (process_message self user_message session memory) = true
       ∧ r_current_question_id (process_message self user_message session memory) = None)
  ∧ (∀ session inputs,
       is_first_interaction session = true →
       _get_available_questions self ∅ ≠ [] →
       (∀ question_label, question_label ∈ dict_keys (questions self) →
                          PyStr.truthy question_label = true) →
       Forall (λ r, r_flow_complete r = true) (drop 2 (run self session inputs))).
Proof.
  split; [done|]. split; [apply available_length|].
  split; [apply available_capped|]. split; [|apply complete_from_third_call].
  intros user_message session memory Hsize.
  destruct (is_first_interaction session) eqn:Hfirst.
  - destruct (process_message_first self user_message session memory Hfirst)
      as [_ He].
    rewrite He, size_empty in Hsize. lia.
  - split.
    + apply (process_message_complete self user_message session memory Hfirst).
      by apply available_capped.
    + rewrite process_message_selects. unfold next_label.
      by rewrite available_capped.
Qed.

Lemma resolver_cap_ends_flow_after_two_answers_witness :
  _get_available_questions open_engine {[ "A_1"; "A_2" ]} = []
  ∧ r_flow_complete
      (process_message open_engine "since last week"
         {| ss_answered_questions := {[ "A_1" ]};
            ss_answers := [("A_1", "yes")];
            ss_messages := [];
            ss_current_question_id := Some "A_2";
            ss_asked_questions := {[ "A_1"; "A_2" ]};
            ss_current_question_text := [] |} NoCheckpoint) = true
  ∧ Forall (λ r, r_flow_complete r = true)
      (drop 2 (run open_engine fresh_session
                 [("hello", NoCheckpoint); ("yes", NoCheckpoint);
                  ("a dry cough", NoCheckpoint); ("and now?", NoCheckpoint)])).
Proof.
  destruct (resolver_cap_ends_flow_after_two_answers open_engine)
    as (_ & _ & Hcap & Hcall & Hrun).
  split; [|split].
  - apply Hcap. vm_compute. lia.
  - apply Hcall. vm_compute. lia.
  - apply Hrun.
    + vm_compute. reflexivity.
    + vm_compute. discriminate.
    + intros l Hl. vm_compute in Hl.
      repeat (apply elem_of_cons in Hl as [->|Hl]; [reflexivity|]).
      by apply elem_of_nil in Hl.
Defined.

(** ** Resumption: the merge with the stored state *)










(** ** Catalog load *)

Lemma dependency_closed_tc (self : QuestionFlowEngine) (A : gset string) x y :
  dependency_closed self A → x ∈ A → tc (depends_on self) x y → y ∈ A.
Proof.
  intros Hclosed Hx Htc. induction Htc as [x y Hxy|x y z Hxy _ IH]; eauto.
Qed.

Lemma on_cycle_not_eligible (self : QuestionFlowEngine) (A : gset string) l :
  dependency_closed self A → on_cycle self l → ¬ eligible self A l.
Proof.
  intros Hclosed Hcycle [Hl Hdeps]. apply Hl.
  unfold on_cycle in Hcycle. inversion Hcycle as [? ? Hxy|? y ? Hxy Hyl]; subst.
  - by apply Hdeps.
  - eapply dependency_closed_tc; [done| |done]. by apply Hdeps.
Qed.

Lemma dependency_closed_add (self : QuestionFlowEngine) (A : gset string) l :
  dependency_closed self A → eligible self A l →
  dependency_closed self (A ∪ {[ l ]}).
Proof.
  intros Hclosed [_ Hdeps] x dep [Hx|Hx%elem_of_singleton]%elem_of_union Hdep.
  - apply elem_of_union_l. by eapply Hclosed.
  - subst. apply elem_of_union_l. by apply Hdeps.
Qed.

(** C7 (as amended). The load makes no check of the dependency relation:
    every questions document that is found and parsed loads, whatever its
    dependencies, and the dependencies of a nested document are taken as
    they are; a catalog with a dependency cycle therefore loads. The
    labels on a cycle are then not eligible for any set of answered labels
    that holds the dependencies of its members. *)
Theorem catalog_load_takes_dependencies_unchecked :
  (∀ fs doc,
     _load_questions fs = Ok (Document doc) →
     __init__ fs = Ok (init_catalog doc))
  ∧ (∀ doc deps,
       doc_question_dependencies doc = Some deps → deps ≠ [] →
       dependencies (init_catalog doc) = deps)
  ∧ (∀ self answered question_label,
       dependency_closed self answered → on_cycle self question_label →
       question_label ∉ ids (_get_available_questions self answered)).
Proof.
  split; [|split].
  - intros fs doc Hload. unfold __init__. by rewrite Hload.
  - intros doc deps Hdeps Hne. unfold init_catalog. rewrite Hdeps.
    by destruct deps.
  - intros self A l Hclosed Hcycle (q & -> & Hq)%list_elem_of_fmap.
    apply available_eligible in Hq as [_ Hq].
    by eapply on_cycle_not_eligible.
Qed.

Lemma catalog_load_takes_dependencies_unchecked_witness :
  __init__ {| root_path := None; backend_path := Some (Document cycle_document) |}
  = Ok (init_catalog cycle_document)
  ∧ dependencies (init_catalog cycle_document)
    = [("X_1", ["Y_1"]); ("Y_1", ["X_1"])]
  ∧ ("X_1" ∉ ids (_get_available_questions cycle_engine ∅)).
Proof.
  split; [|split].
  - apply (proj1 catalog_load_takes_dependencies_unchecked). reflexivity.
  - apply (proj1 (proj2 catalog_load_takes_dependencies_unchecked)).
    + reflexivity.
    + discriminate.
  - apply (proj2 (proj2 catalog_load_takes_dependencies_unchecked)).
    + intros x dep Hx. by apply not_elem_of_empty in Hx.
    + apply (tc_l _ "X_1" "Y_1" "X_1"); [|apply tc_once]; unfold depends_on.
      * by_evaluation.
      * by_evaluation.
Defined.

(** C7, as stated, fails: the document in which [X_1] depends on [Y_1]
    and [Y_1] on [X_1] loads. *)
Lemma cycle_document_loads :
  on_cycle cycle_engine "X_1"
  ∧ depends_on cycle_engine "X_1" "Y_1"
  ∧ depends_on cycle_engine "Y_1" "X_1"
  ∧ __init__ {| root_path := Some (Document cycle_document); backend_path := None |}
    = Ok cycle_engine.
Proof.
  assert (Hxy : depends_on cycle_engine "X_1" "Y_1")
    by (unfold depends_on; by_evaluation).
  assert (Hyx : depends_on cycle_engine "Y_1" "X_1")
    by (unfold depends_on; by_evaluation).
  repeat split; try done.
  eapply tc_l; [exact Hxy|]. by apply tc_once.
Qed.




(** ** Answer export *)

Lemma lstrip_head (s : string) c r :
  PyStr.lstrip s = String c r → PyStr.is_space c = false.
Proof.
  induction s as [|c' s IH]; simpl; [done|].
  destruct (PyStr.is_space c') eqn:E; [done|]. by intros [= <- <-].
Qed.

Lemma rstrip_head c (s : string) :
  PyStr.is_space c = false → ∃ r, PyStr.rstrip (String c s) = String c r.
Proof.
  intros Hc. cbn [PyStr.rstrip]. destruct (PyStr.rstrip s); rewrite ?Hc; eauto.
Qed.

(** A stripped text that is not empty is not made of whitespace only. *)
Lemma strip_not_blank (s : string) :
  PyStr.truthy (PyStr.strip s) = true →
  PyStr.all_chars PyStr.is_space (PyStr.strip s) = false.
Proof.
  unfold PyStr.strip. destruct (PyStr.lstrip s) as [|c r] eqn:E; [done|].
  pose proof (lstrip_head _ _ _ E) as Hc.
  destruct (rstrip_head c r Hc) as [r' ->]. intros _. cbn. by rewrite Hc.
Qed.

Lemma elem_of_dict_set {V} (x : string * V) k v (d : dict V) :
  x ∈ dict_set k v d → x = (k, v) ∨ x ∈ d.
Proof.
  induction d as [|[k' v'] d IH]; simpl.
  - intros ?%list_elem_of_singleton. by left.
  - destruct (String.eqb k k').
    + intros [->|?]%elem_of_cons; [by left|right; by right].
    + intros [->|?]%elem_of_cons; [right; by left|].
      destruct IH as [?|?]; [done|by left|right; by right].
Qed.

(** Every saved pair is the stripped form of a pair of the input that
    passes the filter. *)
Lemma valid_responses_origin (responses : dict string) q a :
  (q, a) ∈ valid_responses responses →
  ∃ q0 a0, (q0, a0) ∈ responses ∧ is_valid_response q0 a0 = true
           ∧ q = PyStr.strip q0 ∧ a = PyStr.strip a0.
Proof.
  unfold valid_responses.
  assert (H : ∀ acc : dict string,
            (q, a) ∈ fold_left
                       (λ valid qa,
                          if is_valid_response qa.1 qa.2
                          then dict_set (PyStr.strip qa.1) (PyStr.strip qa.2) valid
                          else valid) responses acc →
            (q, a) ∈ acc ∨
            ∃ q0 a0, (q0, a0) ∈ responses ∧ is_valid_response q0 a0 = true
                     ∧ q = PyStr.strip q0 ∧ a = PyStr.strip a0).
  { induction responses as [|[q0 a0] responses IH]; intros acc; simpl; [by left|].
    intros Hin. apply IH in Hin as [Hin|(q1 & a1 & Hin & ?)].
    - destruct (is_valid_response q0 a0) eqn:Hv; [|by left].
      apply elem_of_dict_set in Hin as [[= -> ->]|Hin]; [|by left].
      right. exists q0, a0. repeat split; [by left|done].
    - right. exists q1, a1. split; [by right|done]. }
  intros Hin. apply H in Hin as [Hin|Hin]; [|done]. by apply elem_of_nil in Hin.
Qed.

Lemma is_valid_response_spec (question_text answer : string) :
  is_valid_response question_text answer = true →
  PyStr.truthy question_text = true
  ∧ ¬ (String.length question_text < 20
       ∧ (PyStr.contains "_" question_text = true
          ∨ PyStr.isalnum question_text = true))
  ∧ PyStr.truthy (PyStr.strip answer) = true
  ∧ (∀ placeholder, placeholder ∈ placeholder_indicators →
       PyStr.contains placeholder (PyStr.lower (PyStr.strip answer)) = false).
Proof.
  unfold is_valid_response.
  destruct (PyStr.truthy question_text); [|done]. cbn [negb].
  destruct ((String.length question_text <? 20)
            && (PyStr.contains "_" question_text || PyStr.isalnum question_text))
    eqn:Hlabel; [done|].
  destruct (PyStr.truthy answer); [|done]. cbn [negb orb].
  destruct (PyStr.truthy (PyStr.strip answer)); [|done]. cbn [negb].
  destruct (existsb _ placeholder_indicators) eqn:Hp; [done|].
  intros _. repeat split.
  - intros [Hlen Hlooks]. apply Nat.ltb_lt in Hlen.
    rewrite Hlen in Hlabel. cbn [andb] in Hlabel.
    apply orb_false_iff in Hlabel as [H1 H2]. destruct Hlooks; congruence.
  - intros placeholder Hin.
    apply not_true_iff_false. intros Hc.
    apply not_true_iff_false in Hp. apply Hp, existsb_exists.
    exists placeholder. split; [by apply list_elem_of_In|done].
Qed.

Lemma split_without_separator (sep : ascii) (s : string) :
  PyStr.contains (String sep EmptyString) s = false → PyStr.split sep s = [s].
Proof.
  induction s as [|c s IH]; [done|].
  cbn [PyStr.contains PyStr.split String.prefix].
  destruct (Ascii.ascii_dec sep c) as [<-|Hne]; [by destruct s|].
  intros Hs. simpl in Hs. rewrite (IH Hs).
  assert (Ascii.eqb c sep = false) as ->; [|done].
  apply Ascii.eqb_neq. congruence.
Qed.

Section StoredDocuments.
Implicit Types (fields sub : dict bson) (path : list string).

Lemma get_path_one (field : string) fields :
  get_path [field] fields = dict_get field fields.
Proof. reflexivity. Qed.

Lemma get_path_cons (field field' : string) path fields :
  get_path (field :: field' :: path) fields
  = match dict_get field fields with
    | Some (BDocument sub) => get_path (field' :: path) sub
    | _ => None
    end.
Proof. reflexivity. Qed.

Lemma set_path_cons (field field' : string) path (value : bson) fields :
  set_path (field :: field' :: path) value fields
  = match dict_get field fields with
    | Some (BDocument sub) =>
        sub' ← set_path (field' :: path) value sub;
        Some (dict_set field (BDocument sub') fields)
    | Some (BString _) => None
    | None => Some (dict_set field (nest (field' :: path) value) fields)
    end.
Proof. reflexivity. Qed.

(** A string inside the documents made for a missing path is the value at
    the end of that path. *)
Lemma get_path_nest path field path' s a :
  get_path path [(field, nest path' (BString s))] = Some (BString a) →
  path = field :: path' ∧ a = s.
Proof.
  revert path field. induction path' as [|field' path' IH]; intros path field;
    destruct path as [|f [|f' path]]; try done;
    rewrite ?get_path_one, ?get_path_cons; cbn [dict_get nest];
    destruct (String.eqb f field) eqn:E; try done;
    apply String.eqb_eq in E as ->.
  - by intros [= ->].
  - intros [-> ->]%IH. done.
Qed.

(** After [$set] of a string at a path, a string found in the document is
    that one at that path, or was there before. *)
Lemma get_path_set_path (q : list string) s fields fields' path a :
  set_path q (BString s) fields = Some fields' →
  get_path path fields' = Some (BString a) →
  (path = q ∧ a = s) ∨ get_path path fields = Some (BString a).
Proof.
  revert fields fields' path.
  induction q as [|f q IH]; intros fields fields' path; [done|].
  destruct q as [|f2 q].
  - cbn [set_path]. intros [= <-].
    destruct path as [|g [|g2 path]]; [done| |];
      rewrite ?get_path_one, ?get_path_cons, dict_get_set;
      destruct (String.eqb f g) eqn:E;
      try apply String.eqb_eq in E as ->; try done; try (by right).
    intros [= ->]. by left.
  - rewrite set_path_cons.
    destruct (dict_get f fields) as [[s0|sub]|] eqn:Hf; [done| |].
    + destruct (set_path (f2 :: q) (BString s) sub) as [sub'|] eqn:Hsub;
        cbn [mbind option_bind]; [|done].
      intros [= <-].
      destruct path as [|g [|g2 path]]; [done| |];
        rewrite ?get_path_one, ?get_path_cons, dict_get_set;
        destruct (String.eqb f g) eqn:E;
        try apply String.eqb_eq in E as ->; try done; try (by right).
      intros Hget. rewrite Hf.
      destruct (IH sub sub' (g2 :: path) Hsub Hget) as [[-> ->]|Hold]; auto.
    + intros [= <-].
      destruct path as [|g [|g2 path]]; [done| |];
        rewrite ?get_path_one, ?get_path_cons, dict_get_set;
        destruct (String.eqb f g) eqn:E;
        try apply String.eqb_eq in E as ->; try done; try (by right).
      cbn [nest]. intros [-> ->]%get_path_nest. by left.
Qed.

Lemma set_update_dict_cons (t a : string) (valid : dict string) fields :
  set_update_dict ((t, a) :: valid) fields
  = set_path (PyStr.split "." t) (BString a) fields ≫= set_update_dict valid.
Proof.
  unfold set_update_dict. cbn [fold_left fst snd mbind option_bind].
  destruct (set_path (PyStr.split "." t) (BString a) fields); [done|].
  cbn [mbind option_bind]. induction valid as [|qa valid IH]; [done|]. exact IH.
Qed.

(** After the update of a save, a string found in [consultation_results]
    is an answer of the update at the path of its question text, or was
    there before. *)
Lemma get_path_set_update_dict (valid : dict string) fields fields' path a :
  set_update_dict valid fields = Some fields' →
  get_path path fields' = Some (BString a) →
  get_path path fields = Some (BString a)
  ∨ ∃ t, (t, a) ∈ valid ∧ path = PyStr.split "." t.
Proof.
  revert fields. induction valid as [|[t a0] valid IH]; intros fields.
  - intros [= <-]. by left.
  - rewrite set_update_dict_cons.
    destruct (set_path (PyStr.split "." t) (BString a0) fields) as [fields1|] eqn:H1;
      [|done].
    cbn [mbind option_bind]. intros Hrest Hget.
    destruct (IH fields1 Hrest Hget) as [Hold|(t' & Hin & ->)].
    + destruct (get_path_set_path _ _ _ _ _ _ H1 Hold) as [[-> ->]|Hold']; [|by left].
      right. exists t. split; [by left|done].
    + right. exists t'. split; [by right|done].
Qed.

Lemma dict_get_strings (valid : dict string) (t : string) :
  dict_get t ((λ qa, (qa.1, BString qa.2)) <$> valid) = BString <$> dict_get t valid.
Proof.
  induction valid as [|[t' a] valid IH]; [done|].
  rewrite fmap_cons. cbn [dict_get fst snd]. by destruct (String.eqb t t').
Qed.

Lemma dict_get_elem {V} (d : dict V) k v : dict_get k d = Some v → (k, v) ∈ d.
Proof.
  induction d as [|[k' v'] d IH]; simpl; [done|].
  destruct (String.eqb k k') eqn:E.
  - apply String.eqb_eq in E as ->. intros [= ->]. by left.
  - intros H. right. by apply IH.
Qed.

(** A string found in the document that a save inserts is one of its
    answers, under its question text. *)
Lemma get_path_strings (valid : dict string) path a :
  get_path path ((λ qa, (qa.1, BString qa.2)) <$> valid) = Some (BString a) →
  ∃ t, (t, a) ∈ valid ∧ path = [t].
Proof.
  destruct path as [|t [|t' path]]; [done| |];
    rewrite ?get_path_one, ?get_path_cons, dict_get_strings.
  - destruct (dict_get t valid) as [a'|] eqn:Hget; [|done].
    intros [= ->]. exists t. split; [by apply dict_get_elem|done].
  - by destruct (dict_get t valid).
Qed.

(** With question texts without a dot the update sets the pairs in
    [consultation_results] itself. *)
Lemma set_update_dict_plain (valid : dict string) fields :
  (∀ t, t ∈ dict_keys valid → plain_key t) →
  set_update_dict valid fields
  = Some (dict_update fields ((λ qa, (qa.1, BString qa.2)) <$> valid)).
Proof.
  revert fields. induction valid as [|[t a] valid IH]; intros fields Hplain; [done|].
  rewrite set_update_dict_cons, split_without_separator
    by (apply Hplain; by left).
  cbn [set_path mbind option_bind]. rewrite IH; [done|].
  intros t' Ht'. apply Hplain. by right.
Qed.

Lemma dict_keys_strings (valid : dict string) :
  dict_keys ((λ qa, (qa.1, BString qa.2)) <$> valid) = dict_keys valid.
Proof. unfold dict_keys. rewrite <- list_fmap_compose. by apply list_fmap_ext. Qed.

End StoredDocuments.

Section SaveFacts.
Implicit Types (c : collection) (valid : dict string).

Lemma find_one_update_one_ne c c' valid user_email u :
  update_one user_email valid c = Some c' → u ≠ user_email →
  find_one u c' = find_one u c.
Proof.
  intros Hupd Hne. revert c' Hupd.
  induction c as [|d c IH]; intros c'; cbn [update_one find_one].
  - by intros [= <-].
  - destruct (String.eqb (email d) user_email) eqn:E.
    + apply String.eqb_eq in E.
      destruct (set_update_dict valid (consultation_results d)); [|done].
      cbn [mbind option_bind]. intros [= <-]. cbn [find_one email].
      assert (String.eqb (email d) u = false) as ->; [|done].
      apply String.eqb_neq. congruence.
    + destruct (update_one user_email valid c) as [c1|]; [|done].
      cbn [fmap option_fmap option_map]. intros [= <-]. cbn [find_one].
      by rewrite (IH c1).
Qed.

Lemma find_one_update_one_eq c c' valid user_email d :
  find_one user_email c = Some d →
  update_one user_email valid c = Some c' →
  ∃ results,
    set_update_dict valid (consultation_results d) = Some results
    ∧ find_one user_email c'
      = Some {| email := email d; consultation_results := results |}.
Proof.
  revert c'. induction c as [|d' c IH]; intros c'; [done|].
  cbn [update_one find_one].
  destruct (String.eqb (email d') user_email) eqn:E.
  - intros [= ->].
    destruct (set_update_dict valid (consultation_results d)) as [results|]; [|done].
    cbn [mbind option_bind]. intros [= <-]. exists results.
    split; [done|]. cbn [find_one email]. by rewrite E.
  - intros Hfind.
    destruct (update_one user_email valid c) as [c1|]; [|done].
    cbn [fmap option_fmap option_map]. intros [= <-].
    destruct (IH c1 Hfind eq_refl) as (results & ? & ?).
    exists results. split; [done|]. cbn [find_one]. by rewrite E.
Qed.

(** An update whose question texts have no dot is not refused. *)
Lemma update_one_plain c valid user_email :
  (∀ t, t ∈ dict_keys valid → plain_key t) →
  is_Some (update_one user_email valid c).
Proof.
  intros Hplain. induction c as [|d c IH]; cbn [update_one]; [done|].
  destruct (String.eqb (email d) user_email).
  - by rewrite set_update_dict_plain.
  - destruct IH as [c1 ->]. done.
Qed.

Lemma find_one_insert_one c d u :
  find_one u (insert_one d c)
  = match find_one u c with
    | Some d' => Some d'
    | None => if String.eqb (email d) u then Some d else None
    end.
Proof.
  unfold insert_one. induction c as [|d' c IH]; [done|].
  cbn [app find_one]. by destruct (String.eqb (email d') u).
Qed.

End SaveFacts.

(** What the filter of a save lets through: every kept pair is the
    stripped form of a pair of the input whose answer is not blank and
    holds no placeholder word, and whose question text is not empty and
    is not both short and like a label. *)
Lemma kept_pair_spec (responses : dict string) (t a : string) :
  (t, a) ∈ valid_responses responses →
  a ≠ ""
  ∧ PyStr.all_chars PyStr.is_space a = false
  ∧ (∀ placeholder, placeholder ∈ placeholder_indicators →
       PyStr.contains placeholder (PyStr.lower a) = false)
  ∧ ∃ shown given,
      (shown, given) ∈ responses
      ∧ t = PyStr.strip shown ∧ a = PyStr.strip given
      ∧ shown ≠ ""
      ∧ ¬ (String.length shown < 20
           ∧ (PyStr.contains "_" shown = true ∨ PyStr.isalnum shown = true)).
Proof.
  intros (q0 & a0 & Hin & Hvalid & -> & ->)%valid_responses_origin.
  apply is_valid_response_spec in Hvalid as (Hq & Hlabel & Ha & Hp).
  repeat split.
  - intros Heq. by rewrite Heq in Ha.
  - by apply strip_not_blank.
  - exact Hp.
  - exists q0, a0. repeat split; [done| |exact Hlabel]. by intros ->.
Qed.

(** C9 (as amended). An answer that is stored for a user after a save, at
    any path of field names of [consultation_results], was stored there
    before, or it is an answer the save was given for this user, stripped:
    it is not empty, not whitespace only and holds no placeholder word, and
    it is stored under the question text it came with, stripped (as the
    key of a new document, or along the path MongoDB reads from the text),
    a text that was not empty and not both shorter than 20 characters and
    like a label (holding an underscore, or alphanumeric throughout).
    Dropping entries does not fail the save: when every entry is dropped
    it returns [True] and the collection is as it was; and with a driver
    that does not raise and question texts without a dot it returns
    [True]. *)
Theorem persisted_answers_are_filtered (c : collection) (mongo_raises : bool)
    (user_email session_id : string) (responses : dict string) :
  let saved :=
    save_user_responses (Some c) mongo_raises user_email session_id responses in
  (∀ u path answer,
     stored_at (default c saved.2) u path = Some answer →
     stored_at c u path = Some answer
     ∨ (u = user_email
        ∧ answer ≠ ""
        ∧ PyStr.all_chars PyStr.is_space answer = false
        ∧ (∀ placeholder, placeholder ∈ placeholder_indicators →
             PyStr.contains placeholder (PyStr.lower answer) = false)
        ∧ ∃ shown given,
            (shown, given) ∈ responses
            ∧ answer = PyStr.strip given
            ∧ (path = [PyStr.strip shown]
               ∨ path = PyStr.split "." (PyStr.strip shown))
            ∧ shown ≠ ""
            ∧ ¬ (String.length shown < 20
                 ∧ (PyStr.contains "_" shown = true
                    ∨ PyStr.isalnum shown = true))))
  ∧ (valid_responses responses = [] → saved = (true, Some c))
  ∧ (mongo_raises = false →
     (∀ t, t ∈ dict_keys (valid_responses responses) → plain_key t) →
     saved.1 = true).
Proof.
  intros saved. subst saved. split; [|split].
  - intros u path answer.
    assert (Hkept : ∀ t, (t, answer) ∈ valid_responses responses →
              (path = [t] ∨ path = PyStr.split "." t) →
              u = user_email →
              u = user_email
              ∧ answer ≠ ""
              ∧ PyStr.all_chars PyStr.is_space answer = false
              ∧ (∀ placeholder, placeholder ∈ placeholder_indicators →
                   PyStr.contains placeholder (PyStr.lower answer) = false)
              ∧ ∃ shown given,
                  (shown, given) ∈ responses
                  ∧ answer = PyStr.strip given
                  ∧ (path = [PyStr.strip shown]
                     ∨ path = PyStr.split "." (PyStr.strip shown))
                  ∧ shown ≠ ""
                  ∧ ¬ (String.length shown < 20
                       ∧ (PyStr.contains "_" shown = true
                          ∨ PyStr.isalnum shown = true))).
    { intros t Hin Hpath Hu.
      apply kept_pair_spec in Hin
        as (H1 & H2 & H3 & shown & given & Hin & -> & Hgiven & H4 & H5).
      split; [done|]. do 3 (split; [done|]). by exists shown, given. }
    unfold save_user_responses.
    destruct responses as [|qa responses]; [by left|].
    destruct (valid_responses (qa :: responses)) as [|kv rest] eqn:Hvalid; [by left|].
    rewrite <- Hvalid in *. clear Hvalid.
    set (valid := valid_responses (qa :: responses)) in *.
    destruct mongo_raises; [by left|].
    destruct (find_one user_email c) as [d|] eqn:Hfind.
    + destruct (update_one user_email valid c) as [c'|] eqn:Hupd; [|by left].
      cbn [snd default from_option id]. unfold stored_at.
      destruct (decide (u = user_email)) as [->|Hne].
      * destruct (find_one_update_one_eq c c' valid user_email d Hfind Hupd)
          as (results & Hset & ->).
        rewrite Hfind. cbn [mbind option_bind consultation_results].
        destruct (get_path path results) as [[a|?]|] eqn:Hget; [|done|done].
        intros [= ->].
        destruct (get_path_set_update_dict valid _ _ _ _ Hset Hget)
          as [Hold|(t & Hin & ->)].
        -- left. by rewrite Hold.
        -- right. apply (Hkept t); auto.
      * rewrite (find_one_update_one_ne c c' valid user_email u Hupd Hne). by left.
    + cbn [snd default from_option id]. unfold stored_at.
      rewrite find_one_insert_one. cbn [email].
      destruct (find_one u c) as [d'|]; [by left|].
      destruct (String.eqb user_email u) eqn:E; [|done].
      apply String.eqb_eq in E as <-. cbn [mbind option_bind consultation_results].
      destruct (get_path path _) as [[a|?]|] eqn:Hget; [|done|done].
      intros [= ->].
      apply get_path_strings in Hget as (t & Hin & ->).
      right. apply (Hkept t); auto.
  - intros Hnone. unfold save_user_responses.
    destruct responses; [done|]. by rewrite Hnone.
  - intros -> Hplain. unfold save_user_responses.
    destruct responses as [|qa responses]; [done|].
    destruct (valid_responses (qa :: responses)) as [|kv rest] eqn:Hvalid; [done|].
    rewrite <- Hvalid in *.
    destruct (find_one user_email c); [|done].
    by destruct (update_one_plain c (valid_responses (qa :: responses))
                   user_email Hplain) as [c' ->].
Qed.

Lemma persisted_answers_are_filtered_witness :
  "34" ≠ "" ∧ PyStr.all_chars PyStr.is_space "34" = false.
Proof.
  destruct (proj1 (persisted_answers_are_filtered [] false "pat@example.org"
                     "session-1"
                     [("What is your age?", "34"); ("label_only", "ignored");
                      ("Any allergies?", "n/a")])
              "pat@example.org" ["What is your age?"] "34")
    as [Hold|(_ & H1 & H2 & _)].
  - reflexivity.
  - discriminate Hold.
  - split; [exact H1|exact H2].
Defined.

(** What the chatbot puts in the export dictionary of a turn has a question
    text of at least 20 characters and an answer that is not blank. *)
Lemma all_answers_by_question_checked (self : QuestionFlowEngine)
    (current_qa_pair : option (string * string)) (session : session_state) q a :
  (q, a) ∈ all_answers_by_question self current_qa_pair session →
  20 ≤ String.length q ∧ PyStr.truthy a = true.
Proof.
  unfold all_answers_by_question.
  set (P := λ qa : string * string,
              20 ≤ String.length qa.1 ∧ PyStr.truthy qa.2 = true).
  assert (Hfold : ∀ (l : dict string) (acc : dict string),
            Forall P acc →
            Forall P (fold_left (add_answer_by_label self session) l acc)).
  { induction l as [|[label answer] l IH]; intros acc Hacc; cbn [fold_left]; [done|].
    apply IH. unfold add_answer_by_label.
    destruct (negb (PyStr.truthy answer)
              || negb (PyStr.truthy (PyStr.strip answer))) eqn:Hblank; [exact Hacc|].
    apply orb_false_iff in Hblank as [_ Hstrip%negb_false_iff].
    destruct (match dict_get label (ss_current_question_text session) with
              | Some t => _ | None => _ end) as [t|]; [|exact Hacc].
    destruct (PyStr.truthy t && (20 <=? String.length t)) eqn:Ht; [|exact Hacc].
    destruct (dict_mem t acc); [exact Hacc|].
    apply andb_true_iff in Ht as [_ Hlen%Nat.leb_le].
    apply Forall_forall. intros x [->|Hx]%elem_of_dict_set.
    - by split.
    - by eapply Forall_forall in Hacc. }
  intros Hin. eapply (Forall_forall P) in Hin; [exact Hin|].
  apply Hfold. destruct current_qa_pair as [[q0 a0]|]; [|constructor].
  destruct (PyStr.truthy (PyStr.strip q0) && PyStr.truthy (PyStr.strip a0)
            && (20 <=? String.length (PyStr.strip q0))) eqn:Hok; [|constructor].
  apply andb_true_iff in Hok as [[_ Ha]%andb_true_iff Hlen%Nat.leb_le].
  repeat constructor; done.
Qed.

(** C9, as stated, fails: [save_user_responses] stores a question text of
    17 characters, which does not look like a label, with its answer. *)
Lemma short_question_text_is_saved :
  save_user_responses (Some []) false "pat@example.org" "session-1"
    [("What is your age?", "34"); ("label_only", "ignored");
     ("Any allergies?", "n/a")]
  = (true,
     Some [ {| email := "pat@example.org";
               consultation_results := [("What is your age?", BString "34")] |} ])
  ∧ String.length "What is your age?" < 20.
Proof. split; [reflexivity|vm_compute; lia]. Qed.

(** * Further properties of the code *)

(** ** The controller: what a call records and returns *)

Section CallFacts.
Variable self : QuestionFlowEngine.
Implicit Types (session : session_state) (memory : langgraph_memory).

Lemma first_human_last (msgs : list message) (user_message : string) :
  last msgs = Some (HumanMessage user_message) →
  msgs ≠ [] ∧ first_human (rev msgs) = Some user_message.
Proof.
  intros Hlast. destruct msgs as [|m msgs] using rev_ind; [done|].
  rewrite last_snoc in Hlast. injection Hlast as ->.
  split; [by destruct msgs|]. by rewrite rev_unit.
Qed.

Lemma loaded_state_current user_message session memory q :
  ss_current_question_id session = Some q → PyStr.truthy q = true →
  current_question_id (loaded_state user_message session memory) = Some q.
Proof.
  intros Hq Ht.
  assert (Hi : current_question_id (initial_state_of user_message session) = Some q).
  { unfold initial_state_of. by rewrite Hq, Ht. }
  unfold loaded_state, load_memory. destruct memory as [| |existing]; try done.
  unfold merge_existing. destruct (answers existing); cbn [current_question_id];
    by rewrite Hi; cbn [truthy_opt]; rewrite Ht.
Qed.

(** The answer node on a state whose pending label is set: the last human
    message is stored under that label. *)
Lemma process_answer_pending (state : QuestionFlowState) user_message q :
  last (messages state) = Some (HumanMessage user_message) →
  current_question_id state = Some q → PyStr.truthy q = true →
  answers (_process_answer_node self state)
    = dict_set q user_message (answers state)
  ∧ answered_questions (_process_answer_node self state)
    = answered_questions state ∪ {[ q ]}.
Proof.
  intros [Hne Hh]%first_human_last Hq Ht. unfold _process_answer_node.
  destruct (messages state) as [|m ms] eqn:Hm; [done|].
  rewrite Hh, Hq. cbn [truthy_opt]. rewrite Ht. by rewrite Ht.
Qed.

Lemma subsequent_interaction_answers user_message session memory :
  ss_answers (r_session_state
                (subsequent_interaction self user_message session memory))
  = answers (_process_answer_node self (loaded_state user_message session memory)).
Proof.
  unfold subsequent_interaction. fold (loaded_state user_message session memory).
  unfold result_of. cbn [r_session_state ss_answers].
  by destruct (workflow_fields self (loaded_state user_message session memory))
    as (_ & -> & _).
Qed.

End CallFacts.

(** The answer to the pending question is stored under its label. *)
Lemma process_message_pending_answer (self : QuestionFlowEngine)
    (user_message : string) (session : session_state)
    (memory : langgraph_memory) (q : string) :
  ss_current_question_id session = Some q → PyStr.truthy q = true →
  dict_get q (ss_answers (r_session_state
                            (process_message self user_message session memory)))
  = Some user_message.
Proof.
  intros Hq Ht.
  assert (Hfirst : is_first_interaction session = false).
  { unfold is_first_interaction. rewrite Hq. apply andb_false_r. }
  unfold process_message. rewrite Hfirst, subsequent_interaction_answers.
  destruct (process_answer_pending self
              (loaded_state user_message session memory) user_message q)
    as [-> _]; [apply loaded_state_last|by apply loaded_state_current|done|].
  apply dict_get_set_eq.
Qed.

(** X1. The message sent while a question is pending is stored as the
    answer to that question, under its label, and the label is among the
    answered labels the call returns; this holds whatever the LangGraph
    memory holds for the session. *)
Theorem pending_answer_stored_under_label (self : QuestionFlowEngine)
    (user_message : string) (session : session_state)
    (memory : langgraph_memory) (q : string) :
  ss_current_question_id session = Some q → PyStr.truthy q = true →
  let r := process_message self user_message session memory in
  dict_get q (ss_answers (r_session_state r)) = Some user_message
  ∧ q ∈ ss_answered_questions (r_session_state r).
Proof.
  intros Hq Ht r. subst r.
  split; [by apply process_message_pending_answer|by apply pending_recorded].
Qed.

Lemma pending_answer_stored_under_label_witness :
  dict_get "A_1"
    (ss_answers (r_session_state
       (process_message scenario_engine "yes" pending_session NoCheckpoint)))
  = Some "yes".
Proof.
  apply (pending_answer_stored_under_label scenario_engine "yes"
           pending_session NoCheckpoint "A_1"); reflexivity.
Defined.

Section ResponseFacts.
Variable self : QuestionFlowEngine.
Implicit Types (session : session_state) (memory : langgraph_memory).

Lemma workflow_messages (state : QuestionFlowState) :
  messages (workflow self state)
  = messages state ++ (AIMessage <$> asked_text self (answered_after self state)).
Proof.
  unfold workflow, asked_text, answered_after.
  rewrite (proj2 (proj2 (proj2 (check_node_fields _ _)))).
  set (st1 := _process_answer_node self state).
  pose proof (select_node_current self st1) as Hc.
  destruct (select_node_answered self st1) as (_ & _ & Hm).
  unfold st1 in Hm at 2. rewrite (process_answer_messages self state) in Hm.
  unfold _ask_question_node. rewrite Hc.
  destruct (next_label self _) as [l|]; [|cbn; by rewrite app_nil_r].
  destruct (PyStr.truthy l); [|cbn; by rewrite app_nil_r].
  destruct (dict_get l (questions self)); [|cbn; by rewrite app_nil_r].
  cbn [messages set_messages]. by rewrite Hm.
Qed.

Lemma asked_text_length (answered : gset string) :
  length (asked_text self answered) ≤ 1.
Proof.
  unfold asked_text. destruct (next_label self answered) as [l|]; [|simpl; lia].
  destruct (PyStr.truthy l); [|simpl; lia].
  destruct (dict_get l (questions self)); simpl; lia.
Qed.

Lemma subsequent_interaction_response user_message session memory :
  let r := subsequent_interaction self user_message session memory in
  let asked := asked_text self (answered_of_call self user_message session memory) in
  response r = default "" (head asked)
  ∧ next_question r = head asked
  ∧ ss_messages (r_session_state r)
    = (content_of <$> messages (loaded_state user_message session memory)) ++ asked.
Proof.
  intros r asked. subst r asked.
  unfold subsequent_interaction, answered_of_call.
  fold (loaded_state user_message session memory).
  set (st0 := loaded_state user_message session memory).
  pose proof (loaded_state_last user_message session memory) as Hlast.
  fold st0 in Hlast.
  pose proof (asked_text_length (answered_after self st0)) as Hlen.
  unfold result_of. cbn [response next_question r_session_state ss_messages].
  rewrite workflow_messages.
  destruct (asked_text self (answered_after self st0)) as [|t [|t' ts]];
    [| |simpl in Hlen; lia].
  - rewrite app_nil_r, Hlast. by rewrite app_nil_r.
  - cbn [fmap list_fmap]. rewrite last_snoc, fmap_app. done.
Qed.

End ResponseFacts.

(** X2. A call past the first interaction ends in one of two ways. Either
    it reports completion, with no pending label and an empty response; or
    it reports no completion and leaves a label of the catalog pending that
    is not among the answered labels it returns, and, unless that label is
    the empty string, its response is the question text the catalog holds
    for the label. *)
Theorem call_returns_question_or_completion (self : QuestionFlowEngine)
    (user_message : string) (session : session_state)
    (memory : langgraph_memory) :
  is_first_interaction session = false →
  let r := process_message self user_message session memory in
  (r_flow_complete r = true ∧ r_current_question_id r = None
   ∧ response r = "" ∧ next_question r = None)
  ∨ (r_flow_complete r = false
     ∧ ∃ l q_data,
         r_current_question_id r = Some l
         ∧ ss_current_question_id (r_session_state r) = Some l
         ∧ dict_get l (questions self) = Some q_data
         ∧ (l ∉ ss_answered_questions (r_session_state r))
         ∧ (PyStr.truthy l = true →
            response r = qd_question q_data
            ∧ next_question r = Some (qd_question q_data))).
Proof.
  intros Hfirst r. subst r. unfold process_message. rewrite Hfirst.
  destruct (subsequent_interaction_fields self user_message session memory)
    as (Ha & Hc & Hs & Hf).
  destruct (subsequent_interaction_response self user_message session memory)
    as (Hr & Hn & _).
  set (A' := answered_of_call self user_message session memory) in *.
  unfold asked_text in Hr, Hn.
  destruct (next_label self A') as [l|] eqn:Hl.
  - right. split.
    + apply not_true_iff_false. intros Hav%Hf.
      unfold next_label in Hl. by rewrite Hav in Hl.
    + pose proof (next_label_available self A' l Hl) as [Hin Hnin].
      destruct (dict_get l (questions self)) as [q_data|] eqn:Hq.
      * exists l, q_data. rewrite Ha. do 4 (split; [done|]).
        intros Ht. by rewrite Hr, Hn, Ht.
      * by apply dict_get_None_keys in Hq.
  - left. repeat split; try done. apply Hf. unfold next_label, first_sorted in Hl.
    destruct (_get_available_questions self A') as [|q qs] eqn:Hav; [done|].
    destruct (_sort_questions_by_order self (q :: qs)) eqn:Hso; [|done].
    by apply sort_questions_nil_inv in Hso.
Qed.

Lemma call_returns_question_or_completion_witness :
  (r_flow_complete answered_pending_call = true
   ∧ r_current_question_id answered_pending_call = None
   ∧ response answered_pending_call = ""
   ∧ next_question answered_pending_call = None)
  ∨ (r_flow_complete answered_pending_call = false
     ∧ ∃ l q_data,
         r_current_question_id answered_pending_call = Some l
         ∧ ss_current_question_id (r_session_state answered_pending_call) = Some l
         ∧ dict_get l (questions scenario_engine) = Some q_data
         ∧ (l ∉ ss_answered_questions (r_session_state answered_pending_call))
         ∧ (PyStr.truthy l = true →
            response answered_pending_call = qd_question q_data
            ∧ next_question answered_pending_call = Some (qd_question q_data))).
Proof.
  apply (call_returns_question_or_completion scenario_engine "yes"
           pending_session NoCheckpoint).
  reflexivity.
Defined.

Section FirstCallFacts.
Variable self : QuestionFlowEngine.

Lemma dict_get_elem_of {V} (d : dict V) k v :
  NoDup (dict_keys d) → (k, v) ∈ d → dict_get k d = Some v.
Proof.
  unfold dict_keys. induction d as [|[k' v'] d IH]; intros Hnd Hin; simpl.
  - by apply elem_of_nil in Hin.
  - rewrite fmap_cons in Hnd. apply NoDup_cons in Hnd as [Hk Hnd].
    apply elem_of_cons in Hin as [[= <- <-]|Hin]; [by rewrite String.eqb_refl|].
    destruct (String.eqb k k') eqn:E; [|by apply IH].
    apply String.eqb_eq in E as <-. destruct Hk.
    apply list_elem_of_fmap. by exists (k, v).
Qed.

(** Every candidate the resolver lists is built from an entry of the
    catalog. *)
Lemma available_from_catalog (A : gset string) (q : q_dict) :
  q ∈ _get_available_questions self A →
  ∃ question_label q_data,
    (question_label, q_data) ∈ questions self
    ∧ q = make_q_dict question_label q_data.
Proof.
  rewrite get_available_questions_take.
  destruct (MAX_QUESTIONS <=? size A); [by intros ?%elem_of_nil|].
  intros (i & Hi & _)%elem_of_take.
  apply list_elem_of_lookup_2, list_elem_of_fmap in Hi as ([l qd] & -> & Hitem).
  apply list_elem_of_filter in Hitem as [_ Hitem]. by exists l, qd.
Qed.

End FirstCallFacts.

(** X3. The first interaction of a session records nothing: the message is
    not stored as an answer and no label becomes answered. When the
    resolver has a question for the empty answered set, the response is the
    catalog text of the label that is returned, the label becomes the
    pending one and is added to the asked labels, and the message and the
    text are appended to the messages of the session; otherwise the session
    is returned as it was, with the greeting and an error notice. *)
Theorem first_call_asks_without_recording (self : QuestionFlowEngine)
    (user_message : string) (session : session_state)
    (memory : langgraph_memory) :
  is_first_interaction session = true →
  NoDup (dict_keys (questions self)) →
  let r := process_message self user_message session memory in
  ss_answers (r_session_state r) = ss_answers session
  ∧ ss_answered_questions (r_session_state r) = ∅
  ∧ answered_count r = 0
  ∧ match r_current_question_id r with
    | Some l =>
        ∃ q_data,
          dict_get l (questions self) = Some q_data
          ∧ response r = qd_question q_data
          ∧ r_error r = None
          ∧ ss_current_question_id (r_session_state r) = Some l
          ∧ ss_asked_questions (r_session_state r)
            = ss_asked_questions session ∪ {[ l ]}
          ∧ ss_messages (r_session_state r)
            = ss_messages session ++ [user_message; qd_question q_data]
    | None =>
        response r = greeting
        ∧ r_error r = Some (no_questions_error self)
        ∧ r_session_state r = session
    end.
Proof.
  intros Hfirst Hnd r. subst r. unfold process_message. rewrite Hfirst.
  apply is_first_interaction_spec in Hfirst as [HA _].
  unfold first_interaction.
  destruct (_get_available_questions self ∅) as [|q0 qs] eqn:Hav;
    [cbn; by rewrite HA|].
  destruct (_sort_questions_by_order self (q0 :: qs)) as [|q rest] eqn:Hso.
  { by apply sort_questions_nil_inv in Hso. }
  cbn. rewrite HA. do 3 (split; [done|]).
  assert (Hq : q ∈ _get_available_questions self ∅).
  { rewrite Hav, <- (sort_questions_perm self (q0 :: qs)), Hso. by left. }
  apply available_from_catalog in Hq as (l & q_data & Hin & ->).
  exists q_data. split; [by apply dict_get_elem_of|done].
Qed.

Lemma first_call_asks_without_recording_witness :
  ss_answers (r_session_state
                (process_message scenario_engine "hello" fresh_session NoCheckpoint))
  = ss_answers fresh_session.
Proof.
  apply (first_call_asks_without_recording scenario_engine "hello"
           fresh_session NoCheckpoint).
  - reflexivity.
  - by_evaluation.
Defined.

Section NoPendingFacts.
Variable self : QuestionFlowEngine.

(** The backwards scan finds nothing to match where no question was
    shown. *)
Lemma scan_messages_no_ai (msgs : list message) (question_id current : option string) :
  Forall not_ai msgs →
  scan_messages self msgs question_id current = (question_id, current).
Proof.
  induction 1 as [|m msgs Hm _ IH]; [done|]. by destruct m.
Qed.

Lemma process_answer_no_pending (state : QuestionFlowState) :
  truthy_opt (current_question_id state) = false →
  Forall not_ai (messages state) →
  answers (_process_answer_node self state) = answers state
  ∧ answered_questions (_process_answer_node self state) = answered_questions state.
Proof.
  intros Hc Hm. unfold _process_answer_node.
  destruct (messages state) as [|m ms] eqn:Hms; [done|].
  destruct (first_human _); [|done].
  rewrite Hc, scan_messages_no_ai by (by apply Forall_rev).
  destruct (current_question_id state) as [q|]; [|done].
  cbn [truthy_opt] in Hc. by rewrite Hc.
Qed.

Lemma loaded_state_no_checkpoint user_message session memory :
  (∀ existing, memory ≠ Checkpoint existing) →
  Forall not_ai (messages (loaded_state user_message session memory))
  ∧ current_question_id (loaded_state user_message session memory)
    = ss_current_question_id session
  ∧ (truthy_opt (ss_current_question_id session) = false →
     answers (loaded_state user_message session memory) = ss_answers session
     ∧ answered_questions (loaded_state user_message session memory)
       = ss_answered_questions session).
Proof.
  intros Hmem.
  assert (Hi : current_question_id (initial_state_of user_message session)
               = ss_current_question_id session
               ∧ (truthy_opt (ss_current_question_id session) = false →
                  answers (initial_state_of user_message session) = ss_answers session
                  ∧ answered_questions (initial_state_of user_message session)
                    = ss_answered_questions session)).
  { unfold initial_state_of.
    destruct (ss_current_question_id session) as [q|]; [|done].
    cbn [truthy_opt]. by destruct (PyStr.truthy q). }
  unfold loaded_state, load_memory. destruct memory as [| |existing].
  - split; [by repeat constructor|exact Hi].
  - split; [|exact Hi]. rewrite initial_state_messages.
    apply Forall_app. split; [|by repeat constructor].
    apply Forall_fmap, Forall_forall. by intros.
  - by destruct (Hmem existing).
Qed.

End NoPendingFacts.

(** X4. A message that arrives past the first interaction while no label
    is pending (none, or the empty string) is not stored as an answer, when
    the LangGraph memory holds no values for the session: the answers are
    returned as they were, and the answered labels are those of the session
    together with the labels of its answers. *)
Theorem message_without_pending_question_not_recorded
    (self : QuestionFlowEngine) (user_message : string)
    (session : session_state) (memory : langgraph_memory) :
  is_first_interaction session = false →
  truthy_opt (ss_current_question_id session) = false →
  (∀ existing, memory ≠ Checkpoint existing) →
  let r := process_message self user_message session memory in
  ss_answers (r_session_state r) = ss_answers session
  ∧ ss_answered_questions (r_session_state r)
    = ss_answered_questions session ∪ key_set (ss_answers session).
Proof.
  intros Hfirst Hc Hmem r. subst r. unfold process_message. rewrite Hfirst.
  destruct (loaded_state_no_checkpoint user_message session memory Hmem)
    as (Hm & Hcur & Hrest).
  destruct (Hrest Hc) as [Hans Hansw].
  destruct (process_answer_no_pending self
              (loaded_state user_message session memory)) as [Ha1 Ha2];
    [by rewrite Hcur|done|].
  split.
  - by rewrite subsequent_interaction_answers, Ha1.
  - destruct (subsequent_interaction_fields self user_message session memory)
      as (-> & _).
    unfold answered_of_call, answered_after. by rewrite Ha1, Ha2, Hans, Hansw.
Qed.

Lemma message_without_pending_question_not_recorded_witness :
  ss_answers (r_session_state
                (process_message scenario_engine "one more thing"
                   recorded_session NoCheckpoint))
  = ss_answers recorded_session.
Proof.
  apply (message_without_pending_question_not_recorded scenario_engine
           "one more thing" recorded_session NoCheckpoint).
  - reflexivity.
  - reflexivity.
  - intros existing. discriminate.
Defined.

(** X5. Past the first interaction the messages of the session are not
    carried over when reading the LangGraph memory raises: the session
    returned holds the message of the call and the question that was
    asked, if any, and nothing else. When the memory is read and holds no
    values, the earlier messages are kept in front of these. *)
Theorem transcript_kept_only_with_memory (self : QuestionFlowEngine)
    (user_message : string) (session : session_state) :
  is_first_interaction session = false →
  (let r := process_message self user_message session NoCheckpoint in
   ss_messages (r_session_state r)
   = user_message :: match next_question r with Some t => [t] | None => [] end)
  ∧ (let r := process_message self user_message session EmptyCheckpoint in
     ss_messages (r_session_state r)
     = ss_messages session
       ++ user_message :: match next_question r with Some t => [t] | None => [] end).
Proof.
  intros Hfirst. unfold process_message. rewrite Hfirst.
  split; cbv zeta.
  - destruct (subsequent_interaction_response self user_message session NoCheckpoint)
      as (_ & -> & ->).
    pose proof (asked_text_length self
                  (answered_of_call self user_message session NoCheckpoint)) as Hlen.
    destruct (asked_text self _) as [|t [|t' ts]]; [done|done|simpl in Hlen; lia].
  - destruct (subsequent_interaction_response self user_message session EmptyCheckpoint)
      as (_ & -> & ->).
    pose proof (asked_text_length self
                  (answered_of_call self user_message session EmptyCheckpoint)) as Hlen.
    unfold loaded_state, load_memory. rewrite initial_state_messages.
    rewrite fmap_app, <- list_fmap_compose, <- app_assoc.
    assert (Hid : content_of ∘ PlainText <$> ss_messages session = ss_messages session).
    { induction (ss_messages session) as [|m ms IH]; [done|].
      rewrite fmap_cons, IH. done. }
    rewrite Hid.
    destruct (asked_text self _) as [|t [|t' ts]]; [done|done|simpl in Hlen; lia].
Qed.

Lemma transcript_kept_only_with_memory_witness :
  ss_messages (r_session_state
                 (process_message scenario_engine "yes" pending_session NoCheckpoint))
  = "yes" :: match next_question
                     (process_message scenario_engine "yes" pending_session NoCheckpoint)
             with Some t => [t] | None => [] end.
Proof.
  apply (transcript_kept_only_with_memory scenario_engine "yes" pending_session).
  reflexivity.
Defined.

(** ** The ordering policy and the order of the candidates *)

Section OrderFacts.
Context {A K : Type} `{EqDecision K}.
Variable key : A → K.

Lemma filter_key_none (k : K) (l : list A) :
  k ∉ key <$> l → filter (λ y, key y = k) l = [].
Proof.
  induction l as [|x l IH]; intros Hk; [done|].
  rewrite fmap_cons, not_elem_of_cons in Hk. destruct Hk as [Hne Hk].
  rewrite filter_cons. destruct (decide (key x = k)); [done|by apply IH].
Qed.

Lemma filter_key_short (k : K) (l : list A) :
  NoDup (key <$> l) → length (filter (λ y, key y = k) l) ≤ 1.
Proof.
  induction l as [|x l IH]; intros Hnd; [simpl; lia|].
  rewrite fmap_cons in Hnd. apply NoDup_cons in Hnd as [Hx Hnd].
  rewrite filter_cons. destruct (decide (key x = k)) as [<-|Hne]; [|by apply IH].
  rewrite filter_key_none by done. simpl. lia.
Qed.

Lemma filter_key_perm (k : K) (l l' : list A) :
  NoDup (key <$> l) → l ≡ₚ l' →
  filter (λ y, key y = k) l = filter (λ y, key y = k) l'.
Proof.
  intros Hnd Hp.
  pose proof (filter_key_short k l Hnd) as Hlen.
  assert (Hf : filter (λ y, key y = k) l ≡ₚ filter (λ y, key y = k) l')
    by (by rewrite Hp).
  destruct (filter (λ y, key y = k) l) as [|x [|x' xs]]; [| |simpl in Hlen; lia].
  - by apply Permutation_nil_l in Hf.
  - by apply Permutation_singleton_l in Hf.
Qed.

End OrderFacts.

(** X6. When no two candidates have the same sort key, the ordering policy
    does not depend on the order in which the candidates are given: two
    lists with the same candidates are sorted into the same list, and the
    first label is the same. *)
Theorem sort_independent_of_candidate_order (self : QuestionFlowEngine)
    (qs qs' : list q_dict) :
  qs ≡ₚ qs' → NoDup (sort_key self <$> qs) →
  _sort_questions_by_order self qs = _sort_questions_by_order self qs'
  ∧ first_sorted self qs = first_sorted self qs'.
Proof.
  intros Hp Hnd.
  assert (Heq : _sort_questions_by_order self qs = _sort_questions_by_order self qs').
  { apply sort_questions_unique.
    - apply py_sorted_sorted; [apply tuple_ltb_asym|apply tuple_geb_trans].
    - intros k. unfold _sort_questions_by_order.
      rewrite py_sorted_stable by apply tuple_ltb_irrefl.
      by apply filter_key_perm. }
  split; [done|]. unfold first_sorted. by rewrite Heq.
Qed.

Lemma sort_independent_of_candidate_order_witness :
  _sort_questions_by_order scenario_engine
    [candidate "B_1" "B"; candidate "A_2" "A"; candidate "A_1" "A"]
  = _sort_questions_by_order scenario_engine
      [candidate "A_1" "A"; candidate "A_2" "A"; candidate "B_1" "B"].
Proof.
  apply (sort_independent_of_candidate_order scenario_engine
           [candidate "B_1" "B"; candidate "A_2" "A"; candidate "A_1" "A"]
           [candidate "A_1" "A"; candidate "A_2" "A"; candidate "B_1" "B"]).
  - apply (Permutation_rev
             [candidate "B_1" "B"; candidate "A_2" "A"; candidate "A_1" "A"]).
  - by_evaluation.
Defined.

(** ** Sessions stay within the catalog *)

Section WithinCatalog.
Variable self : QuestionFlowEngine.
Implicit Types (session : session_state) (memory : langgraph_memory).

Lemma no_stored_values_spec memory :
  no_stored_values memory → ∀ existing, memory ≠ Checkpoint existing.
Proof. by destruct memory. Qed.

Lemma loaded_state_pending_fields user_message session memory q :
  no_stored_values memory →
  ss_current_question_id session = Some q → PyStr.truthy q = true →
  answers (loaded_state user_message session memory)
    = dict_set q user_message (ss_answers session)
  ∧ answered_questions (loaded_state user_message session memory)
    = ss_answered_questions session ∪ {[ q ]}.
Proof.
  intros Hmem Hq Ht. unfold loaded_state, load_memory, initial_state_of.
  rewrite Hq, Ht. by destruct memory.
Qed.

(** The answered labels a call ends with, when the memory holds no values:
    those of the session, the labels of its answers, and the pending label
    if there is one. *)
Lemma answered_of_call_no_stored_values user_message session memory :
  no_stored_values memory →
  answered_of_call self user_message session memory
  = ss_answered_questions session ∪ key_set (ss_answers session)
    ∪ match ss_current_question_id session with
      | Some q => if PyStr.truthy q then {[ q ]} else ∅
      | None => ∅
      end.
Proof.
  intros Hmem. unfold answered_of_call, answered_after.
  destruct (truthy_opt (ss_current_question_id session)) eqn:Hc.
  - destruct (ss_current_question_id session) as [q|] eqn:Hq; [|done].
    cbn [truthy_opt] in Hc. rewrite Hc.
    destruct (loaded_state_pending_fields user_message session memory q Hmem Hq Hc)
      as [Hans Hansw].
    destruct (process_answer_pending self
                (loaded_state user_message session memory) user_message q)
      as [-> ->]; [apply loaded_state_last|by apply loaded_state_current|done|].
    rewrite Hans, Hansw, !key_set_dict_set. set_solver.
  - destruct (loaded_state_no_checkpoint user_message session memory
                (no_stored_values_spec memory Hmem)) as (Hm & Hcur & Hrest).
    destruct (Hrest Hc) as [Hans Hansw].
    destruct (process_answer_no_pending self
                (loaded_state user_message session memory)) as [-> ->];
      [by rewrite Hcur|done|].
    rewrite Hans, Hansw.
    destruct (ss_current_question_id session) as [q|]; [|set_solver].
    cbn [truthy_opt] in Hc. rewrite Hc. set_solver.
Qed.

Lemma subsequent_interaction_count user_message session memory :
  let r := subsequent_interaction self user_message session memory in
  answered_count r = size (ss_answered_questions (r_session_state r))
  ∧ total_questions r = length (questions self)
  ∧ key_set (ss_answers (r_session_state r))
    ⊆ ss_answered_questions (r_session_state r).
Proof.
  intros r. subst r. unfold subsequent_interaction, result_of.
  cbn [answered_count total_questions r_session_state ss_answered_questions
       ss_answers]. split; [done|]. split; [done|]. set_solver.
Qed.

Lemma size_list_to_set (l : list string) :
  size (list_to_set (C := gset string) l) ≤ length l.
Proof.
  induction l as [|y l IH]; [by rewrite list_to_set_nil, size_empty|].
  rewrite list_to_set_cons, size_union_alt, size_singleton. cbn [length].
  assert (size (list_to_set (C := gset string) l ∖ {[ y ]})
          ≤ size (list_to_set (C := gset string) l))
    by (apply subseteq_size; set_solver).
  lia.
Qed.

Lemma size_within_list (X : gset string) (l : list string) :
  (∀ x, x ∈ X → x ∈ l) → size X ≤ length l.
Proof.
  intros Hsub. etrans; [|apply size_list_to_set].
  apply subseteq_size. intros x Hx. apply elem_of_list_to_set. by apply Hsub.
Qed.

Lemma first_interaction_within_catalog user_message session :
  session_within_catalog self session →
  let r := first_interaction self user_message session in
  session_within_catalog self (r_session_state r) ∧ answered_count r = 0.
Proof.
  intros (HA & HK & HC) r.
  pose proof (next_label_available self ∅) as Hnext.
  subst r. unfold first_interaction, next_label, first_sorted in *.
  destruct (_get_available_questions self ∅) as [|q0 qs]; [done|].
  destruct (_sort_questions_by_order self (q0 :: qs)) as [|q rest]; [done|].
  split; [|done]. split; [done|]. split; [done|].
  cbn. intros l [= <-]. by apply Hnext.
Qed.

Lemma process_message_within_catalog user_message session memory :
  no_stored_values memory → session_within_catalog self session →
  let r := process_message self user_message session memory in
  session_within_catalog self (r_session_state r)
  ∧ answered_count r ≤ total_questions r.
Proof.
  intros Hmem Hin r. subst r. unfold process_message.
  destruct (is_first_interaction session).
  { destruct (first_interaction_within_catalog user_message session Hin)
      as [Hw ->]. split; [done|lia]. }
  destruct Hin as (HA & HK & HC).
  destruct (subsequent_interaction_fields self user_message session memory)
    as (Ha & _ & Hs & _).
  destruct (subsequent_interaction_count user_message session memory)
    as (Hcount & Htotal & Hkeys).
  assert (Hcat : ∀ l, l ∈ answered_of_call self user_message session memory →
                      l ∈ dict_keys (questions self)).
  { rewrite answered_of_call_no_stored_values by done.
    intros l [[Hl|Hl]%elem_of_union|Hl]%elem_of_union.
    - by apply HA.
    - by apply HA, HK.
    - destruct (ss_current_question_id session) as [q|] eqn:Hq;
        [|by apply not_elem_of_empty in Hl].
      destruct (PyStr.truthy q); [|by apply not_elem_of_empty in Hl].
      apply elem_of_singleton in Hl as ->. by apply HC. }
  split.
  - split; [by rewrite Ha|]. split; [done|].
    intros l. rewrite Hs. intros Hl. by apply next_label_available in Hl as [? _].
  - rewrite Hcount, Htotal, Ha, <- (length_fmap fst (questions self)).
    by apply size_within_list.
Qed.

End WithinCatalog.

(** X7. As long as the LangGraph memory holds no values for the session, a
    session that holds catalog labels only keeps doing so through every
    call: the answered labels and the pending label are labels of the
    catalog, every answer is stored under an answered label, and the
    count of answered questions a call reports does not exceed the total it
    reports. *)
Theorem run_stays_within_catalog (self : QuestionFlowEngine)
    (session : session_state) (inputs : list (string * langgraph_memory)) :
  session_within_catalog self session →
  Forall (λ input, no_stored_values input.2) inputs →
  Forall (λ r, session_within_catalog self (r_session_state r)
               ∧ answered_count r ≤ total_questions r)
         (run self session inputs).
Proof.
  revert session.
  induction inputs as [|[user_message memory] inputs IH]; intros session Hin Hmem;
    cbn [run]; [constructor|].
  apply Forall_cons in Hmem as [Hmem Hrest]. cbn [snd] in Hmem.
  pose proof (process_message_within_catalog self user_message session memory
                Hmem Hin) as Hstep.
  constructor; [exact Hstep|]. apply IH; [apply Hstep|exact Hrest].
Qed.

Lemma run_stays_within_catalog_witness :
  Forall (λ r, session_within_catalog scenario_engine (r_session_state r)
               ∧ answered_count r ≤ total_questions r)
         (run scenario_engine fresh_session
            [("hello", NoCheckpoint); ("yes", EmptyCheckpoint);
             ("a dry cough", NoCheckpoint)]).
Proof.
  apply (run_stays_within_catalog scenario_engine fresh_session
           [("hello", NoCheckpoint); ("yes", EmptyCheckpoint);
            ("a dry cough", NoCheckpoint)]).
  - split; [|split]; [intros l Hl; by apply not_elem_of_empty in Hl
                     |done|discriminate].
  - repeat constructor.
Defined.

(** ** Catalog load: the shape of the catalog *)

Lemma fold_left_bind {A B C} (f : C → B → C) (g : A → list B) (l : list A) (acc : C) :
  fold_left f (l ≫= g) acc = fold_left (λ acc x, fold_left f (g x) acc) l acc.
Proof.
  revert acc. induction l as [|x l IH]; intros acc; [done|].
  cbn [mbind list_bind fold_left]. by rewrite fold_left_app, IH.
Qed.

Lemma fold_left_ext_in {A B} (f g : B → A → B) (l : list A) (acc : B) :
  (∀ b a, f b a = g b a) → fold_left f l acc = fold_left g l acc.
Proof.
  intros Hfg. revert acc. induction l as [|x l IH]; intros acc; [done|].
  cbn [fold_left]. by rewrite Hfg, IH.
Qed.

(** The nested load sets the questions of the document one by one, in
    reading order. *)
Lemma flatten_nested_document_questions (categories : dict category_data) :
  flatten_nested categories = dict_update [] (document_questions categories).
Proof.
  unfold flatten_nested, dict_update, document_questions.
  rewrite fold_left_bind. apply fold_left_ext_in. intros m [cat_label cat_data].
  unfold flatten_category. rewrite fold_left_bind.
  apply fold_left_ext_in. intros m' [subcat_label subcat_data].
  unfold flatten_subcategory. rewrite fold_left_bind.
  by apply fold_left_ext_in.
Qed.

Lemma dict_update_elem_of {V} (d other : dict V) (x : string * V) :
  x ∈ dict_update d other → x ∈ d ∨ x ∈ other.
Proof.
  unfold dict_update. revert d.
  induction other as [|[k v] other IH]; intros d; cbn [fold_left]; [by left|].
  intros [[->|Hx]%elem_of_dict_set|Hx]%IH.
  - right. by left.
  - by left.
  - right. by right.
Qed.

(** X8. For a document in the nested shape, the catalog holds exactly the
    labels of the questions of the document; every entry of the catalog is
    built from a question of the document, with the category and the
    subcategory it stands in; and when no label occurs twice in the
    document, the catalog lists the questions in the order of the
    document. *)
Theorem nested_catalog_follows_document (doc : questions_document)
    (categories : dict category_data) :
  doc_categories doc = Some categories →
  has_nested_structure doc = true →
  (∀ l, l ∈ dict_keys (_flatten_questions doc)
        ↔ l ∈ dict_keys (document_questions categories))
  ∧ (∀ l q_data, (l, q_data) ∈ _flatten_questions doc →
                 (l, q_data) ∈ document_questions categories)
  ∧ (NoDup (dict_keys (document_questions categories)) →
     _flatten_questions doc = document_questions categories).
Proof.
  intros Hc Hn. unfold _flatten_questions. rewrite Hn, Hc. cbn [default].
  rewrite flatten_nested_document_questions. repeat split.
  - rewrite dict_keys_update. intros [Hl|Hl]; [by apply elem_of_nil in Hl|done].
  - intros Hl. rewrite dict_keys_update. by right.
  - intros l q_data [Hl|Hl]%dict_update_elem_of; [by apply elem_of_nil in Hl|done].
  - intros Hnd. unfold dict_update. rewrite dict_set_all_fresh; [done|done|].
    intros k _ Hk. by apply elem_of_nil in Hk.
Qed.

Lemma nested_catalog_follows_document_witness :
  _flatten_questions cycle_document
  = document_questions
      [ ("X", {| cat_title := "Symptoms";
                 cat_subcategories :=
                   Some [ ("XA", {| sub_title := "Onset";
                                    sub_questions :=
                                      [ ("X_1", "When did the symptoms first appear?");
                                        ("Y_1", "How severe are the symptoms today?") ] |}) ] |}) ].
Proof.
  apply (nested_catalog_follows_document cycle_document).
  - reflexivity.
  - reflexivity.
  - by_evaluation.
Defined.

(** ** Numbers printed into labels and read back *)

Section Digits.
Import PyStr.

Lemma str_app_cons (c : ascii) (s1 s2 : string) :
  String c s1 +:+ s2 = String c (s1 +:+ s2).
Proof. reflexivity. Qed.

Lemma str_app_assoc (s1 s2 s3 : string) :
  (s1 +:+ s2) +:+ s3 = s1 +:+ (s2 +:+ s3).
Proof. induction s1 as [|c s1 IH]; [done|]. rewrite !str_app_cons. congruence. Qed.

Lemma str_app_nil_r (s : string) : s +:+ "" = s.
Proof. induction s as [|c s IH]; [done|]. rewrite str_app_cons. congruence. Qed.

Lemma str_length_app (s1 s2 : string) :
  String.length (s1 +:+ s2) = String.length s1 + String.length s2.
Proof.
  induction s1 as [|c s1 IH]; [done|]. rewrite str_app_cons. simpl. congruence.
Qed.

Lemma digits_value_app (s1 s2 : string) (a : Z) :
  digits_value a (s1 +:+ s2) = digits_value (digits_value a s1) s2.
Proof.
  revert a. induction s1 as [|c s1 IH]; intros a; [done|].
  rewrite str_app_cons. apply IH.
Qed.

Lemma all_chars_app (p : ascii → bool) (s1 s2 : string) :
  all_chars p (s1 +:+ s2) = all_chars p s1 && all_chars p s2.
Proof.
  induction s1 as [|c s1 IH]; [done|].
  rewrite str_app_cons. simpl. rewrite <- andb_assoc. congruence.
Qed.

Lemma digit_char (d : nat) :
  d < 10 → is_digit (chr (48 + d)) = true ∧ ord (chr (48 + d)) - 48 = d.
Proof.
  intros Hd. unfold is_digit, ord, chr.
  rewrite nat_ascii_embedding by lia. split; [|lia].
  apply andb_true_iff. split; apply Nat.leb_le; lia.
Qed.

(** The digits [str] prints for [n]: decimal digits only, at least one,
    and their value is [n]. *)
Lemma digits_of_spec (fuel n : nat) (acc : string) :
  n < fuel →
  ∃ ds, digits_of fuel n acc = ds +:+ acc
        ∧ truthy ds = true
        ∧ all_chars is_digit ds = true
        ∧ ∀ a, digits_value a ds = (a * 10 ^ Z.of_nat (String.length ds) + Z.of_nat n)%Z.
Proof.
  revert n acc. induction fuel as [|fuel IH]; intros n acc Hn; [lia|].
  cbn [digits_of].
  pose proof (Nat.div_mod_eq n 10) as Hdm.
  pose proof (Nat.mod_upper_bound n 10 ltac:(lia)) as Hmod.
  destruct (digit_char (n mod 10) Hmod) as [Hdig Hval].
  destruct (n / 10 =? 0) eqn:Hq.
  - apply Nat.eqb_eq in Hq.
    exists (String (chr (48 + n mod 10)) EmptyString). repeat split.
    + cbn [all_chars]. by rewrite Hdig.
    + intros a. cbn [digits_value String.length]. rewrite Hval. lia.
  - apply Nat.eqb_neq in Hq.
    destruct (IH (n / 10) (String (chr (48 + n mod 10)) acc)) as (ds & -> & Ht & Hall & Hv);
      [lia|].
    exists (ds +:+ String (chr (48 + n mod 10)) EmptyString). repeat split.
    + by rewrite str_app_assoc.
    + by destruct ds.
    + rewrite all_chars_app, Hall. cbn [all_chars]. by rewrite Hdig.
    + intros a. rewrite digits_value_app, Hv. cbn [digits_value].
      rewrite Hval, str_length_app. cbn [String.length].
      rewrite Nat2Z.inj_add, Z.pow_add_r by lia.
      change (10 ^ Z.of_nat 1)%Z with 10%Z. lia.
Qed.

Lemma digit_not_c_space (c : ascii) : is_digit c = true → is_c_space c = false.
Proof.
  unfold is_digit, is_c_space. intros [H1 H2]%andb_true_iff.
  apply Nat.leb_le in H1, H2. apply orb_false_iff. split.
  - apply andb_false_iff. right. apply Nat.leb_gt. lia.
  - apply Nat.eqb_neq. lia.
Qed.

Lemma rstrip_by_digits (s : string) :
  all_chars is_digit s = true → rstrip_by is_c_space s = s.
Proof.
  induction s as [|c s IH]; [done|]. cbn [all_chars rstrip_by].
  intros [Hc Hs]%andb_true_iff. rewrite IH by done.
  destruct s; [|done]. by rewrite digit_not_c_space.
Qed.

Lemma lstrip_by_digits (s : string) :
  all_chars is_digit s = true → lstrip_by is_c_space s = s.
Proof.
  destruct s as [|c s]; [done|]. cbn [lstrip_by all_chars].
  intros [Hc _]%andb_true_iff. by rewrite digit_not_c_space.
Qed.

(** [int] reads a run of digits, of at most [int_max_str_digits], as its
    value. *)
Lemma int_digits (s : string) :
  truthy s = true → all_chars is_digit s = true →
  (Z.of_nat (String.length s) ≤ int_max_str_digits)%Z →
  int s = Some (digits_value 0 s).
Proof.
  intros Ht Hall Hlen. unfold int.
  rewrite lstrip_by_digits, rstrip_by_digits by done.
  destruct s as [|c s]; [done|].
  assert (Hc : is_digit c = true) by (by apply andb_true_iff in Hall as [? _]).
  assert (Hp : parse_digits (String c s) = Some (digits_value 0 (String c s)))
    by (unfold parse_digits; by rewrite Ht, Hall).
  apply Z.ltb_ge in Hlen. rewrite <- Hp. clear Hp Hall Ht.
  destruct c as [[] [] [] [] [] [] [] []];
    first [discriminate Hc | lazy beta iota zeta; by rewrite Hlen].
Qed.

(** [int(str(n))] is [n]. *)
Lemma int_str_of_nat (n : nat) :
  (Z.of_nat (String.length (str_of_nat n)) ≤ int_max_str_digits)%Z →
  int (str_of_nat n) = Some (Z.of_nat n).
Proof.
  unfold str_of_nat.
  destruct (digits_of_spec (S n) n EmptyString) as (ds & -> & Ht & Hall & Hv); [lia|].
  rewrite str_app_nil_r. intros Hlen.
  rewrite int_digits, Hv by done. f_equal; lia.
Qed.

Lemma digits_no_underscore (s : string) :
  all_chars is_digit s = true → contains "_" s = false.
Proof.
  induction s as [|c s IH]; [done|]. cbn [all_chars contains String.prefix].
  intros [Hc Hs]%andb_true_iff. rewrite IH by done.
  destruct (Ascii.ascii_dec "_" c) as [<-|Hne]; [done|]. by rewrite orb_false_r.
Qed.

Lemma str_of_nat_digits (n : nat) :
  all_chars is_digit (str_of_nat n) = true.
Proof.
  unfold str_of_nat.
  destruct (digits_of_spec (S n) n EmptyString) as (ds & -> & Ht & Hall & Hv); [lia|].
  by rewrite all_chars_app, Hall.
Qed.

End Digits.

(** ** Catalog load: the flat shape *)

Lemma upper_not_underscore (c : ascii) :
  PyStr.is_upper c = true → Ascii.eqb c "_" = false.
Proof.
  intros Hc. apply Ascii.eqb_neq. intros ->. vm_compute in Hc. discriminate Hc.
Qed.

Lemma next_subcat_is_subcat (subcat_label : string) :
  is_subcat subcat_label → is_subcat (next_subcat subcat_label).
Proof.
  intros (c & -> & Hc). unfold next_subcat, is_subcat.
  eexists. split; [reflexivity|].
  unfold PyStr.is_upper in *. apply andb_true_iff in Hc as [H1 H2].
  apply Nat.leb_le in H1, H2. change (PyStr.ord "Z") with 90.
  change (PyStr.ord "A") with 65.
  destruct (90 <? PyStr.ord c + 1) eqn:E; unfold PyStr.ord, PyStr.chr in *.
  - rewrite nat_ascii_embedding by lia. done.
  - apply Nat.ltb_ge in E. rewrite nat_ascii_embedding by lia.
    apply andb_true_iff. split; apply Nat.leb_le; lia.
Qed.

Lemma is_subcat_AA : is_subcat "AA".
Proof. exists "A"%char. by split. Qed.

(** The number the ordering policy reads from a label of the flat load is
    the number printed into it, as long as [int] reads that many digits. *)
Lemma q_num_of_flat_label (subcat_label : string) (k : nat) :
  is_subcat subcat_label →
  (Z.of_nat (String.length (PyStr.str_of_nat k)) ≤ PyStr.int_max_str_digits)%Z →
  q_num_of (subcat_label +:+ "_" +:+ PyStr.str_of_nat k) = Z.of_nat k.
Proof.
  intros (c & -> & Hc) Hlen. unfold q_num_of.
  change (String "A" (String c "") +:+ "_" +:+ PyStr.str_of_nat k)
    with (String "A" (String c (String "_" (PyStr.str_of_nat k)))).
  assert (PyStr.contains "_"
            (String "A" (String c (String "_" (PyStr.str_of_nat k)))) = true) as ->.
  { cbn [PyStr.contains]. apply orb_true_iff. right.
    apply orb_true_iff. right. apply orb_true_iff. left.
    cbn [String.prefix]. destruct (Ascii.ascii_dec "_" "_"); [|done].
    by destruct (PyStr.str_of_nat k). }
  cbn [PyStr.split]. change (Ascii.eqb "A" "_") with false.
  rewrite (upper_not_underscore c Hc). change (Ascii.eqb "_" "_") with true.
  rewrite split_no_separator
    by (apply digits_no_underscore, str_of_nat_digits).
  by rewrite int_str_of_nat.
Qed.

Section FlatLoad.

Lemma flatten_old_step_ok (n : nat) acc (q : old_question) :
  Forall (flat_count_ok n) acc.1 → Forall (flat_entry_ok n) acc.2 →
  Forall (flat_count_ok (S n)) (flatten_old_step acc q).1
  ∧ Forall (flat_entry_ok (S n)) (flatten_old_step acc q).2.
Proof.
  destruct acc as [category_counts questions_map]. cbn [fst snd].
  intros Hcc Hqm. unfold flatten_old_step.
  destruct (default (0, "AA") (dict_get (oq_category q) category_counts))
    as [count subcat_label] eqn:Hget.
  assert (Hcs : count ≤ n ∧ is_subcat subcat_label).
  { destruct (dict_get (oq_category q) category_counts) as [[c s]|] eqn:Hd.
    - injection Hget as -> ->. apply dict_get_elem in Hd.
      by eapply (Forall_forall (flat_count_ok n)) in Hd.
    - injection Hget as <- <-. split; [lia|apply is_subcat_AA]. }
  destruct Hcs as [Hcount Hsub]. cbn [fst snd]. split.
  - apply Forall_forall. intros x [->|Hx]%elem_of_dict_set.
    + split; cbn [fst snd]; [lia|].
      destruct ((count + 1) mod 5 =? 0); [by apply next_subcat_is_subcat|done].
    + eapply (Forall_forall (flat_count_ok n)) in Hx; [|done].
      destruct Hx. split; [lia|done].
  - apply Forall_forall. intros x [->|Hx]%elem_of_dict_set.
    + exists (count + 1). cbn [fst snd qd_subcategory qd_label].
      split; [lia|]. done.
    + eapply (Forall_forall (flat_entry_ok n)) in Hx; [|done].
      destruct Hx as (k & Hk & ?). exists k. split; [lia|done].
Qed.

Lemma flatten_old_ok (questions_list : list old_question) :
  Forall (flat_entry_ok (length questions_list)) (flatten_old questions_list).
Proof.
  unfold flatten_old.
  assert (H : ∀ l n acc,
            Forall (flat_count_ok n) acc.1 → Forall (flat_entry_ok n) acc.2 →
            Forall (flat_entry_ok (n + length l))
                   (fold_left flatten_old_step l acc).2).
  { induction l as [|q l IH]; intros n acc Hc Hq; cbn [fold_left length].
    - by rewrite Nat.add_0_r.
    - destruct (flatten_old_step_ok n acc q Hc Hq) as [Hc' Hq'].
      replace (n + S (length l)) with (S n + length l) by lia. by apply IH. }
  apply (H questions_list 0 ([], [])); constructor.
Qed.

End FlatLoad.

(** X9. Every entry of a catalog loaded from the flat shape is stored
    under a label made of its subcategory (the letter A and a capital
    letter), an underscore and a number between 1 and the number of
    questions of the document; the entry holds that label, and the
    sequence number the ordering policy reads from the label is the number
    printed into it (a number of at most [int_max_str_digits] digits: Python
    reads and prints no longer one). *)
Theorem flat_catalog_labels_numbered (questions_list : list old_question)
    (l : string) (q_data : question_data) :
  dict_get l (flatten_old questions_list) = Some q_data →
  ∃ k, 1 ≤ k ≤ length questions_list
       ∧ is_subcat (qd_subcategory q_data)
       ∧ l = qd_subcategory q_data +:+ "_" +:+ PyStr.str_of_nat k
       ∧ qd_label q_data = l
       ∧ ((Z.of_nat (String.length (PyStr.str_of_nat k))
           ≤ PyStr.int_max_str_digits)%Z →
          q_num_of l = Z.of_nat k).
Proof.
  intros Hl%dict_get_elem.
  eapply (Forall_forall (flat_entry_ok _)) in Hl; [|apply flatten_old_ok].
  destruct Hl as (k & Hk & Hsub & Heq & Hlab). cbn [fst snd] in *.
  exists k. repeat split; try done; try lia.
  intros Hlen. rewrite Heq. by apply q_num_of_flat_label.
Qed.

Lemma flat_catalog_labels_numbered_witness :
  ∃ k, 1 ≤ k ≤ 2
       ∧ is_subcat "AA"
       ∧ "AA_2" = "AA" +:+ "_" +:+ PyStr.str_of_nat k
       ∧ "AA_2" = "AA_2"
       ∧ ((Z.of_nat (String.length (PyStr.str_of_nat k))
           ≤ PyStr.int_max_str_digits)%Z →
          q_num_of "AA_2" = Z.of_nat k).
Proof.
  apply (flat_catalog_labels_numbered (doc_questions intro_document) "AA_2"
           {| qd_question := "What brings you in today?";
              qd_category := "A";
              qd_category_title := "Introduction";
              qd_subcategory := "AA";
              qd_subcategory_title := "Introduction";
              qd_label := "AA_2";
              qd_old_id := Some "intro_2" |}).
  reflexivity.
Defined.

Lemma label_of_old_id_keys (items : dict question_data) (old_id l : string) :
  label_of_old_id items old_id = Some l → l ∈ dict_keys items.
Proof.
  unfold dict_keys. induction items as [|[k q_data] items IH]; [done|].
  cbn [label_of_old_id]. rewrite fmap_cons.
  destruct (qd_old_id q_data) as [o|]; [|intros H; right; by apply IH].
  destruct (String.eqb o old_id); [|intros H; right; by apply IH].
  intros [= ->]. by left.
Qed.

(** X10. When the document gives no [question_dependencies], the
    dependencies are built from the questions of the flat list: every
    label that gets a list of dependencies is a label of the catalog, every
    dependency in the list is a label of the catalog (an old id that no
    entry of the catalog carries is dropped), and the label also gets a
    priority. *)
Theorem flat_dependencies_are_catalog_labels (doc : questions_document)
    (l : string) (deps : list string) :
  doc_question_dependencies doc = None
  ∨ doc_question_dependencies doc = Some [] →
  dict_get l (dependencies (init_catalog doc)) = Some deps →
  l ∈ dict_keys (questions (init_catalog doc))
  ∧ (∀ dep, dep ∈ deps → dep ∈ dict_keys (questions (init_catalog doc)))
  ∧ is_Some (dict_get l (priorities (init_catalog doc))).
Proof.
  intros Hdoc. unfold init_catalog.
  set (Q := _flatten_questions doc).
  set (step := λ (dp : dict (list string) * dict Z) (q : old_question),
         match label_of_old_id Q (oq_id q) with
         | Some new_label =>
             if PyStr.truthy new_label
             then (dict_set new_label
                     (omap (label_of_old_id Q) (oq_dependencies q)) dp.1,
                   dict_set new_label (default 1%Z (oq_priority q)) dp.2)
             else dp
         | None => dp
         end).
  set (inv := λ dp : dict (list string) * dict Z,
         Forall (λ entry : string * list string,
                   entry.1 ∈ dict_keys Q
                   ∧ ∀ dep, dep ∈ entry.2 → dep ∈ dict_keys Q) dp.1
         ∧ ∀ k, k ∈ dict_keys dp.1 → k ∈ dict_keys dp.2).
  assert (Hstep : ∀ dp q, inv dp → inv (step dp q)).
  { intros [d p] q [Hd Hp]. unfold step.
    destruct (label_of_old_id Q (oq_id q)) as [new_label|] eqn:Hl; [|done].
    destruct (PyStr.truthy new_label); [|done]. split; cbn [fst snd] in *.
    - apply Forall_forall. intros x [->|Hx]%elem_of_dict_set.
      + cbn [fst snd]. split; [by eapply label_of_old_id_keys|].
        intros dep (o & _ & Ho)%list_elem_of_omap. by eapply label_of_old_id_keys.
      + by eapply Forall_forall in Hd.
    - intros k. rewrite !dict_keys_set. intros [->|Hk]; [by left|right; by apply Hp]. }
  assert (Hfold : ∀ qs dp, inv dp → inv (fold_left step qs dp)).
  { induction qs as [|q qs IH]; intros dp Hdp; [done|]. by apply IH, Hstep. }
  assert (Hinv : inv (fold_left step (doc_questions doc) ([], []))).
  { apply Hfold. split; [constructor|]. by intros k Hk. }
  assert (Hgoal : ∀ dp, inv dp → dict_get l dp.1 = Some deps →
            l ∈ dict_keys Q ∧ (∀ dep, dep ∈ deps → dep ∈ dict_keys Q)
            ∧ is_Some (dict_get l dp.2)).
  { intros dp [Hd Hp] Hget.
    pose proof (dict_get_Some_keys _ _ _ Hget) as Hk.
    apply dict_get_elem in Hget.
    eapply Forall_forall in Hd; [|exact Hget]. destruct Hd as [H1 H2].
    split; [done|]. split; [done|].
    apply Hp in Hk. destruct (dict_get l dp.2) eqn:E; [by eexists|].
    by apply dict_get_None_keys in E. }
  fold step.
  destruct Hdoc as [-> | ->];
    destruct (fold_left step (doc_questions doc) ([], [])) as [d p] eqn:E;
    cbn [questions dependencies priorities]; apply (Hgoal (d, p));
    exact Hinv.
Qed.

Lemma flat_dependencies_are_catalog_labels_witness :
  "AA_2" ∈ dict_keys (questions (init_catalog intro_document))
  ∧ (∀ dep, dep ∈ ["AA_1"] →
            dep ∈ dict_keys (questions (init_catalog intro_document)))
  ∧ is_Some (dict_get "AA_2" (priorities (init_catalog intro_document))).
Proof.
  apply (flat_dependencies_are_catalog_labels intro_document "AA_2" ["AA_1"]).
  - left. reflexivity.
  - reflexivity.
Defined.

(** ** Answer export: what a save keeps *)

Lemma valid_responses_snoc (responses : dict string) (q a : string) :
  valid_responses (responses ++ [(q, a)])
  = if is_valid_response q a
    then dict_set (PyStr.strip q) (PyStr.strip a) (valid_responses responses)
    else valid_responses responses.
Proof. unfold valid_responses. by rewrite fold_left_app. Qed.

Lemma valid_responses_nodup (responses : dict string) :
  NoDup (dict_keys (valid_responses responses)).
Proof.
  induction responses as [|[q a] responses IH] using rev_ind; [constructor|].
  rewrite valid_responses_snoc.
  destruct (is_valid_response q a); [by apply dict_set_nodup|done].
Qed.

(** X11. The answer kept for a question text is the answer of the last
    pair that passes the filter and whose question, stripped, is that text:
    a later valid pair for the same text replaces an earlier one, and a
    pair that is filtered out replaces nothing. No text is kept twice. *)
Theorem valid_responses_last_write_wins (responses : dict string) (t a : string) :
  NoDup (dict_keys (valid_responses responses))
  ∧ (dict_get t (valid_responses responses) = Some a ↔
     ∃ before q a0 after,
       responses = before ++ (q, a0) :: after
       ∧ is_valid_response q a0 = true
       ∧ PyStr.strip q = t ∧ PyStr.strip a0 = a
       ∧ ∀ q' a', (q', a') ∈ after → is_valid_response q' a' = true →
                  PyStr.strip q' ≠ t).
Proof.
  split; [apply valid_responses_nodup|]. revert a.
  induction responses as [|[q1 a1] responses IH] using rev_ind; intros a.
  { split; [done|]. intros (before & q & a0 & after & H & _). by destruct before. }
  rewrite valid_responses_snoc. split.
  - intros Hget.
    destruct (is_valid_response q1 a1) eqn:Hv.
    + rewrite dict_get_set in Hget.
      destruct (String.eqb (PyStr.strip q1) t) eqn:E.
      * apply String.eqb_eq in E. injection Hget as <-.
        exists responses, q1, a1, []. repeat split; try done.
        intros q' a' Hin. by apply elem_of_nil in Hin.
      * apply String.eqb_neq in E.
        apply IH in Hget as (before & q & a0 & after & -> & Hq & Ht & Ha & Hlast).
        exists before, q, a0, (after ++ [(q1, a1)]).
        rewrite <- app_assoc. repeat split; try done.
        intros q' a' [Hin|Hin]%elem_of_app; [by eapply Hlast|].
        apply list_elem_of_singleton in Hin as [= -> ->]. done.
    + apply IH in Hget as (before & q & a0 & after & -> & Hq & Ht & Ha & Hlast).
      exists before, q, a0, (after ++ [(q1, a1)]).
      rewrite <- app_assoc. repeat split; try done.
      intros q' a' [Hin|Hin]%elem_of_app; [by eapply Hlast|].
      apply list_elem_of_singleton in Hin as [= -> ->]. congruence.
  - intros (before & q & a0 & after & Heq & Hq & Ht & Ha & Hlast).
    destruct after as [|[q2 a2] after _] using rev_ind.
    + apply app_inj_tail in Heq as [-> [= -> ->]].
      rewrite Hq, Ht, Ha. apply dict_get_set_eq.
    + rewrite app_comm_cons, app_assoc in Heq.
      apply app_inj_tail in Heq as [-> [= -> ->]].
      assert (Hprev : dict_get t (valid_responses (before ++ (q, a0) :: after)) = Some a).
      { apply IH. exists before, q, a0, after. repeat split; try done.
        intros q' a' Hin. apply Hlast. apply elem_of_app. by left. }
      destruct (is_valid_response q2 a2) eqn:Hv; [|done].
      rewrite dict_get_set_ne; [done|].
      intros Heq. eapply Hlast; [|exact Hv|by symmetry].
      apply elem_of_app. right. by apply list_elem_of_singleton.
Qed.

Section RetryFacts.
Implicit Types (c : collection) (valid : dict string).

(** Setting pairs that are already there changes nothing. *)
Lemma dict_set_same {V} (d : dict V) k v :
  dict_get k d = Some v → dict_set k v d = d.
Proof.
  induction d as [|[k' v'] d IH]; [done|]. cbn [dict_get dict_set].
  destruct (String.eqb k k') eqn:E.
  - apply String.eqb_eq in E as ->. by intros [= ->].
  - intros H. by rewrite IH.
Qed.

Lemma dict_update_present {V} (d other : dict V) :
  (∀ k v, (k, v) ∈ other → dict_get k d = Some v) → dict_update d other = d.
Proof.
  unfold dict_update. induction other as [|[k v] other IH]; intros H; [done|].
  cbn [fold_left fst snd]. rewrite dict_set_same by (apply H; by left).
  apply IH. intros k' v' Hin. apply H. by right.
Qed.

Lemma dict_update_idem {V} (d other : dict V) :
  NoDup (dict_keys other) →
  dict_update (dict_update d other) other = dict_update d other.
Proof.
  intros Hnd. apply dict_update_present. intros k v Hin.
  rewrite dict_get_update by done. by rewrite (dict_get_elem_of other k v).
Qed.

Lemma dict_update_self {V} (d : dict V) :
  NoDup (dict_keys d) → dict_update d d = d.
Proof.
  intros Hnd. apply dict_update_present. intros k v Hin.
  by apply dict_get_elem_of.
Qed.

(** The update of a save, repeated, leaves the collection as the first
    one left it (question texts without a dot). *)
Lemma update_one_idem c c' valid user_email :
  NoDup (dict_keys valid) → (∀ t, t ∈ dict_keys valid → plain_key t) →
  update_one user_email valid c = Some c' →
  update_one user_email valid c' = Some c'.
Proof.
  intros Hnd Hplain. revert c'.
  induction c as [|d c IH]; intros c'; cbn [update_one].
  - by intros [= <-].
  - destruct (String.eqb (email d) user_email) eqn:E.
    + rewrite set_update_dict_plain by done. cbn [mbind option_bind].
      intros [= <-]. cbn [update_one email consultation_results]. rewrite E.
      rewrite set_update_dict_plain by done. cbn [mbind option_bind].
      rewrite dict_update_idem; [done|]. by rewrite dict_keys_strings.
    + destruct (update_one user_email valid c) as [c1|]; [|done].
      cbn [fmap option_fmap option_map]. intros [= <-].
      cbn [update_one]. by rewrite E, (IH c1).
Qed.

Lemma update_one_insert_one c valid user_email :
  find_one user_email c = None → NoDup (dict_keys valid) →
  (∀ t, t ∈ dict_keys valid → plain_key t) →
  update_one user_email valid
    (insert_one {| email := user_email;
                   consultation_results :=
                     (λ qa, (qa.1, BString qa.2)) <$> valid |} c)
  = Some (insert_one {| email := user_email;
                        consultation_results :=
                          (λ qa, (qa.1, BString qa.2)) <$> valid |} c).
Proof.
  intros Hnone Hnd Hplain. unfold insert_one. induction c as [|d c IH].
  - cbn [app update_one email consultation_results].
    rewrite String.eqb_refl, set_update_dict_plain by done.
    cbn [mbind option_bind].
    rewrite dict_update_self; [done|]. by rewrite dict_keys_strings.
  - cbn [find_one] in Hnone. cbn [app update_one].
    destruct (String.eqb (email d) user_email); [done|]. by rewrite IH.
Qed.

End RetryFacts.

(** X12. A save merges into what is stored. After [save_user_responses]
    (the collection available, the driver not raising) the answer stored
    for the user under a question text is the one the save kept for that
    text, if it kept one, and the answer stored before otherwise; and what
    is stored for every other user is as it was. (Question texts without a
    dot: MongoDB reads a dot in the key of an update as a path.) *)
Theorem save_user_responses_merges (c : collection)
    (user_email session_id : string) (responses : dict string) :
  (∀ t, t ∈ dict_keys (valid_responses responses) → plain_key t) →
  let c' :=
    default c
      (save_user_responses (Some c) false user_email session_id responses).2 in
  (∀ t, stored_answer c' user_email t
        = match dict_get t (valid_responses responses) with
          | Some a => Some a
          | None => stored_answer c user_email t
          end)
  ∧ (∀ u, u ≠ user_email → find_one u c' = find_one u c).
Proof.
  intros Hplain c'. subst c'. unfold save_user_responses.
  pose proof (valid_responses_nodup responses) as Hnd.
  destruct responses as [|qa responses]; [done|].
  destruct (valid_responses (qa :: responses)) as [|kv rest] eqn:Hvalid; [done|].
  rewrite <- Hvalid in *. clear Hvalid.
  set (valid := valid_responses (qa :: responses)) in *.
  unfold stored_answer, stored_at.
  destruct (find_one user_email c) as [d|] eqn:Hfind.
  - destruct (update_one_plain c valid user_email Hplain) as [c' Hupd].
    rewrite Hupd. cbn [snd default from_option id]. split.
    + intros t.
      destruct (find_one_update_one_eq c c' valid user_email d Hfind Hupd)
        as (results & Hset & ->).
      rewrite set_update_dict_plain in Hset by done. injection Hset as <-.
      cbn [mbind option_bind consultation_results]. rewrite !get_path_one.
      rewrite dict_get_update by (by rewrite dict_keys_strings).
      rewrite dict_get_strings. by destruct (dict_get t valid).
    + intros u Hne. by eapply find_one_update_one_ne.
  - cbn [snd default from_option id]. split.
    + intros t. rewrite find_one_insert_one, Hfind. cbn [email].
      rewrite String.eqb_refl. cbn [mbind option_bind consultation_results].
      rewrite get_path_one, dict_get_strings. by destruct (dict_get t valid).
    + intros u Hne. rewrite find_one_insert_one. cbn [email].
      destruct (find_one u c); [done|].
      assert (String.eqb user_email u = false) as ->; [|done].
      apply String.eqb_neq. congruence.
Qed.

Lemma save_user_responses_merges_witness :
  stored_answer
    (default []
       (save_user_responses
          (Some [ {| email := "pat@example.org";
                     consultation_results :=
                       [("What is the main reason for your visit?",
                         BString "a cough")] |} ])
          false "pat@example.org" "session-1"
          [("How long have you had these symptoms?", "two days")]).2)
    "pat@example.org" "What is the main reason for your visit?"
  = Some "a cough".
Proof.
  apply (save_user_responses_merges
           [ {| email := "pat@example.org";
                consultation_results :=
                  [("What is the main reason for your visit?",
                    BString "a cough")] |} ]
           "pat@example.org" "session-1"
           [("How long have you had these symptoms?", "two days")]).
  intros t Ht. vm_compute in Ht.
  apply list_elem_of_singleton in Ht as ->. reflexivity.
Defined.

(** X13. Saving the same responses again changes nothing that is stored:
    after a retry of [save_user_responses] the collection holds the same
    documents with the same consultation results as after the first save.
    (Question texts without a dot: the document a save makes for a new user
    has the text as one key, and the update of the retry would read a dot
    in it as a path.) *)
Theorem save_user_responses_retry (c : collection)
    (user_email session_id : string) (responses : dict string) :
  (∀ t, t ∈ dict_keys (valid_responses responses) → plain_key t) →
  let saved :=
    save_user_responses (Some c) false user_email session_id responses in
  save_user_responses saved.2 false user_email session_id responses = saved.
Proof.
  intros Hplain saved. subst saved. unfold save_user_responses.
  pose proof (valid_responses_nodup responses) as Hnd.
  destruct responses as [|qa responses]; [done|].
  destruct (valid_responses (qa :: responses)) as [|kv rest] eqn:Hvalid; [done|].
  rewrite <- Hvalid in *. clear Hvalid.
  set (valid := valid_responses (qa :: responses)) in *.
  destruct (find_one user_email c) as [d|] eqn:Hfind.
  - destruct (update_one_plain c valid user_email Hplain) as [c' Hupd].
    rewrite Hupd. cbn [snd].
    destruct (find_one_update_one_eq c c' valid user_email d Hfind Hupd)
      as (results & _ & ->).
    by rewrite (update_one_idem c c' valid user_email).
  - cbn [snd]. rewrite find_one_insert_one, Hfind. cbn [email].
    rewrite String.eqb_refl. by rewrite update_one_insert_one.
Qed.

Lemma save_user_responses_retry_witness :
  save_user_responses
    (save_user_responses (Some []) false "pat@example.org" "session-1"
       [("How long have you had these symptoms?", "two days")]).2
    false "pat@example.org" "session-1"
    [("How long have you had these symptoms?", "two days")]
  = save_user_responses (Some []) false "pat@example.org" "session-1"
      [("How long have you had these symptoms?", "two days")].
Proof.
  apply (save_user_responses_retry [] "pat@example.org" "session-1"
           [("How long have you had these symptoms?", "two days")]).
  intros t Ht. vm_compute in Ht.
  apply list_elem_of_singleton in Ht as ->. reflexivity.
Defined.

(** ** Session documents *)

Section SessionDocs.
Implicit Types (c : session_collection) (d : session_document).

Lemma matches_session_spec user session_id d :
  matches_session user session_id d = true
  ↔ (username d, sessionId d) = (user, session_id).
Proof.
  unfold matches_session. rewrite andb_true_iff, !String.eqb_eq.
  split; [by intros [-> ->]|by intros [= -> ->]].
Qed.

Lemma matches_session_ne user session_id u s d :
  (u, s) ≠ (user, session_id) → matches_session user session_id d = true →
  matches_session u s d = false.
Proof.
  intros Hne Hm%matches_session_spec. apply not_true_iff_false.
  intros Hm'%matches_session_spec. congruence.
Qed.

Lemma find_session_set_responses_ne c user session_id update_dict u s :
  (u, s) ≠ (user, session_id) →
  find_session u s (set_responses user session_id update_dict c) = find_session u s c.
Proof.
  intros Hne. induction c as [|d c IH]; [done|]. cbn [set_responses find_session].
  destruct (matches_session user session_id d) eqn:E.
  - cbn [find_session]. pose proof (matches_session_ne _ _ _ _ d Hne E) as E'.
    unfold matches_session in *. cbn [username sessionId]. by rewrite E'.
  - cbn [find_session]. by rewrite IH.
Qed.

Lemma find_session_set_responses_eq c user session_id update_dict d :
  find_session user session_id c = Some d →
  find_session user session_id (set_responses user session_id update_dict c)
  = Some {| username := username d;
            sessionId := sessionId d;
            responses := Some (dict_update (default [] (responses d)) update_dict) |}.
Proof.
  induction c as [|d' c IH]; [done|]. cbn [set_responses find_session].
  destruct (matches_session user session_id d') eqn:E.
  - intros [= ->]. cbn [find_session]. unfold matches_session in *.
    cbn [username sessionId]. by rewrite E.
  - intros H. cbn [find_session]. rewrite E. by apply IH.
Qed.

Lemma find_session_app c d u s :
  find_session u s (c ++ [d])
  = match find_session u s c with
    | Some d' => Some d'
    | None => if matches_session u s d then Some d else None
    end.
Proof.
  induction c as [|d' c IH]; [done|]. cbn [app find_session].
  by destruct (matches_session u s d').
Qed.

Lemma find_session_elem c u s d :
  find_session u s c = Some d → d ∈ c ∧ matches_session u s d = true.
Proof.
  induction c as [|d' c IH]; [done|]. cbn [find_session].
  destruct (matches_session u s d') eqn:E.
  - intros [= ->]. split; [by left|done].
  - intros [? ?]%IH. split; [by right|done].
Qed.

Lemma find_session_None c u s :
  find_session u s c = None ↔ (u, s) ∉ (λ d, (username d, sessionId d)) <$> c.
Proof.
  induction c as [|d c IH]; cbn [find_session].
  - split; [intros _; apply not_elem_of_nil|done].
  - rewrite fmap_cons, not_elem_of_cons.
    destruct (matches_session u s d) eqn:E.
    + apply matches_session_spec in E. split; [done|]. intros [Hne _]. congruence.
    + rewrite IH. split; [|tauto]. intros H. split; [|done].
      intros Heq. apply not_true_iff_false in E. apply E.
      by apply matches_session_spec.
Qed.

Lemma set_responses_keys c user session_id update_dict :
  (λ d, (username d, sessionId d)) <$> set_responses user session_id update_dict c
  = (λ d, (username d, sessionId d)) <$> c.
Proof.
  induction c as [|d c IH]; [done|]. cbn [set_responses].
  destruct (matches_session user session_id d); [done|].
  by rewrite !fmap_cons, IH.
Qed.

Lemma set_responses_compose c user session_id first second :
  set_responses user session_id second (set_responses user session_id first c)
  = set_responses user session_id (first ++ second) c.
Proof.
  induction c as [|d c IH]; [done|]. cbn [set_responses].
  destruct (matches_session user session_id d) eqn:E.
  - cbn [set_responses]. unfold matches_session in *. cbn [username sessionId].
    rewrite E. cbn [responses default]. unfold dict_update.
    by rewrite fold_left_app.
  - cbn [set_responses]. by rewrite E, IH.
Qed.

Lemma save_response_unique c user session_id question_label answer :
  unique_sessions c →
  unique_sessions
    (default c (save_response (Some c) false user session_id question_label answer).2).
Proof.
  unfold unique_sessions, save_response. intros Hu.
  destruct (find_session user session_id c) eqn:Hfind; cbn [snd from_option id].
  - by rewrite set_responses_keys.
  - rewrite fmap_app. apply NoDup_app. split; [done|]. split; [|apply NoDup_singleton].
    intros k Hk Hk'. cbn in Hk'. apply list_elem_of_singleton in Hk' as ->.
    by apply find_session_None in Hfind.
Qed.

End SessionDocs.

(** X14. What [save_response] stores can be read back: after a save (the
    collection available, the driver not raising) [get_response] returns
    the answer under the label of the save; the other labels of the session
    read as before, and so does every other session; and a collection with
    at most one document for a user and a session stays so. (Labels without
    a dot.) *)
Theorem save_response_round_trip (c : session_collection)
    (user session_id question_label answer : string) :
  plain_key question_label →
  let saved := save_response (Some c) false user session_id question_label answer in
  saved.1 = true
  ∧ get_response saved.2 false user session_id question_label = Some answer
  ∧ (∀ l, l ≠ question_label →
          get_response saved.2 false user session_id l
          = get_response (Some c) false user session_id l)
  ∧ (∀ u s, (u, s) ≠ (user, session_id) →
            get_session_responses saved.2 false u s
            = get_session_responses (Some c) false u s)
  ∧ (unique_sessions c → unique_sessions (default c saved.2)).
Proof.
  intros _ saved. subst saved.
  assert (Hrest :
    let saved := save_response (Some c) false user session_id question_label answer in
    saved.1 = true
    ∧ get_response saved.2 false user session_id question_label = Some answer
    ∧ (∀ l, l ≠ question_label →
            get_response saved.2 false user session_id l
            = get_response (Some c) false user session_id l)
    ∧ (∀ u s, (u, s) ≠ (user, session_id) →
              get_session_responses saved.2 false u s
              = get_session_responses (Some c) false u s));
    [|destruct Hrest as (? & ? & ? & ?); repeat split; try done;
      apply save_response_unique].
  cbv zeta. unfold save_response, get_response.
  destruct (find_session user session_id c) as [d|] eqn:Hfind; cbn [fst snd].
  - unfold get_session_responses.
    rewrite (find_session_set_responses_eq c user session_id _ d Hfind), Hfind.
    cbn [responses]. unfold dict_update. cbn [fold_left fst snd].
    split; [done|]. split; [|split].
    + destruct (dict_set question_label answer (default [] (responses d)))
        as [|kv rest] eqn:E.
      { by destruct (default [] (responses d)) as [|[k v] r];
          cbn in E; try destruct (String.eqb question_label k). }
      rewrite <- E. apply dict_get_set_eq.
    + intros l Hl.
      destruct (dict_set question_label answer (default [] (responses d)))
        as [|kv rest] eqn:E.
      { by destruct (default [] (responses d)) as [|[k v] r];
          cbn in E; try destruct (String.eqb question_label k). }
      rewrite <- E, dict_get_set_ne by done.
      by destruct (responses d) as [[|kv' r]|].
    + intros u s Hne. by rewrite find_session_set_responses_ne.
  - unfold get_session_responses. rewrite !find_session_app, Hfind.
    assert (Hm : matches_session user session_id
                   {| username := user; sessionId := session_id;
                      responses := Some [(question_label, answer)] |} = true)
      by (by apply matches_session_spec).
    rewrite Hm. cbn [responses dict_get]. rewrite String.eqb_refl.
    split; [done|]. split; [done|]. split.
    + intros l Hl%String.eqb_neq. by rewrite Hl.
    + intros u s Hne. rewrite find_session_app.
      rewrite (matches_session_ne user session_id u s _ Hne Hm).
      by destruct (find_session u s c).
Qed.

Lemma save_response_round_trip_witness :
  get_response
    (save_response (Some []) false "pat@example.org" "session-1" "AA_1" "yes").2
    false "pat@example.org" "session-1" "AA_1"
  = Some "yes".
Proof.
  apply (save_response_round_trip [] "pat@example.org" "session-1" "AA_1" "yes").
  reflexivity.
Defined.

Section DeleteFacts.
Implicit Types (c : session_collection) (d : session_document).

Lemma delete_one_spec c user session_id :
  ((delete_one user session_id c).2 = 1 ∧ is_Some (find_session user session_id c)
   ∨ (delete_one user session_id c).2 = 0 ∧ find_session user session_id c = None
     ∧ (delete_one user session_id c).1 = c)
  ∧ (∀ u s, (u, s) ≠ (user, session_id) →
            find_session u s (delete_one user session_id c).1 = find_session u s c)
  ∧ (∀ k, k ∈ (λ d, (username d, sessionId d)) <$> (delete_one user session_id c).1 →
          k ∈ (λ d, (username d, sessionId d)) <$> c)
  ∧ (unique_sessions c →
     unique_sessions (delete_one user session_id c).1
     ∧ find_session user session_id (delete_one user session_id c).1 = None).
Proof.
  unfold unique_sessions. induction c as [|d c IH]; cbn [delete_one find_session].
  { repeat split; try done. right. done. }
  destruct IH as (Hcount & Hother & Hkeys & Huniq).
  destruct (matches_session user session_id d) eqn:E.
  - cbn [fst snd]. split; [left; by eauto|]. split; [|split].
    + intros u s Hne. by rewrite (matches_session_ne user session_id u s d Hne E).
    + intros k Hk. rewrite fmap_cons. by right.
    + rewrite fmap_cons. intros [Hd Hnd]%NoDup_cons. split; [done|].
      apply find_session_None. apply matches_session_spec in E. by rewrite <- E.
  - destruct (delete_one user session_id c) as [rest n] eqn:Hdel.
    cbn [fst snd] in *. split; [|split; [|split]].
    + destruct Hcount as [[-> Hs]|(-> & Hn & ->)]; [left|right]; done.
    + intros u s Hne. cbn [find_session]. by rewrite Hother.
    + intros k. rewrite !fmap_cons, !elem_of_cons. intros [->|Hk]; [by left|].
      right. by apply Hkeys.
    + rewrite !fmap_cons. intros [Hd Hnd]%NoDup_cons.
      destruct (Huniq Hnd) as [Hu Hf]. split.
      * apply NoDup_cons. split; [|done]. intros Hin. by apply Hd, Hkeys.
      * cbn [find_session]. by rewrite E.
Qed.

End DeleteFacts.

(** X15. In a collection with at most one document for a user and a
    session, [delete_session] (the collection available, the driver not
    raising) returns [True] exactly when the session had a document;
    afterwards the session has no responses, every other session reads as
    before, and there is still at most one document for a user and a
    session. *)
Theorem delete_session_removes (c : session_collection) (user session_id : string) :
  unique_sessions c →
  let deleted := delete_session (Some c) false user session_id in
  (deleted.1 = true ↔ is_Some (find_session user session_id c))
  ∧ get_session_responses deleted.2 false user session_id = None
  ∧ (∀ u s, (u, s) ≠ (user, session_id) →
            get_session_responses deleted.2 false u s
            = get_session_responses (Some c) false u s)
  ∧ unique_sessions (default [] deleted.2).
Proof.
  intros Huniq deleted. subst deleted. unfold delete_session, get_session_responses.
  destruct (delete_one_spec c user session_id) as (Hcount & Hother & _ & Hu).
  destruct (Hu Huniq) as [Hu' Hnone].
  destruct (delete_one user session_id c) as [rest n]. cbn [fst snd] in *.
  split; [|split; [|split]].
  - destruct Hcount as [[-> Hs]|(-> & Hn & _)]; [done|].
    split; [done|]. rewrite Hn. by intros [? ?].
  - by rewrite Hnone.
  - intros u s Hne. by rewrite Hother.
  - done.
Qed.

Lemma delete_session_removes_witness :
  get_session_responses
    (delete_session
       (save_response (Some []) false "pat@example.org" "session-1" "AA_1" "yes").2
       false "pat@example.org" "session-1").2
    false "pat@example.org" "session-1"
  = None.
Proof.
  apply (delete_session_removes
           [ {| username := "pat@example.org"; sessionId := "session-1";
                responses := Some [("AA_1", "yes")] |} ]
           "pat@example.org" "session-1").
  by_evaluation.
Defined.

Section BatchFacts.
Implicit Types (c : session_collection).

Lemma save_responses_batch_unique c user session_id new_responses :
  unique_sessions c →
  unique_sessions
    (default c (save_responses_batch (Some c) false user session_id new_responses).2).
Proof.
  unfold unique_sessions, save_responses_batch. intros Hu.
  destruct new_responses as [|la rest]; [done|].
  destruct (find_session user session_id c) eqn:Hfind; cbn [snd from_option id].
  - by rewrite set_responses_keys.
  - rewrite fmap_app. apply NoDup_app. split; [done|]. split; [|apply NoDup_singleton].
    intros k Hk Hk'. cbn in Hk'. apply list_elem_of_singleton in Hk' as ->.
    by apply find_session_None in Hfind.
Qed.

Lemma set_responses_found c user session_id update_dict d :
  find_session user session_id c = Some d →
  is_Some (find_session user session_id (set_responses user session_id update_dict c)).
Proof.
  intros H. rewrite (find_session_set_responses_eq c user session_id _ d H). by eexists.
Qed.

(** Saving the pairs of a list one by one, on a session that has a
    document, sets them one by one. *)
Lemma save_each_found c user session_id (pairs : dict string) :
  is_Some (find_session user session_id c) →
  fold_left (λ coll la, (save_response coll false user session_id la.1 la.2).2)
            pairs (Some c)
  = Some (fold_left (λ c la, set_responses user session_id [la] c) pairs c).
Proof.
  revert c. induction pairs as [|[l a] pairs IH]; intros c [d Hfind]; [done|].
  cbn [fold_left]. unfold save_response at 2. rewrite Hfind. cbn [snd fst].
  apply IH. by eapply set_responses_found.
Qed.

Lemma set_each_compose c user session_id (first pairs : dict string) :
  fold_left (λ c la, set_responses user session_id [la] c) pairs
            (set_responses user session_id first c)
  = set_responses user session_id (first ++ pairs) c.
Proof.
  revert first. induction pairs as [|la pairs IH]; intros first; cbn [fold_left].
  - by rewrite app_nil_r.
  - rewrite set_responses_compose, IH. by rewrite <- app_assoc.
Qed.

Lemma set_responses_last c user session_id r update_dict :
  find_session user session_id c = None →
  set_responses user session_id update_dict
    (c ++ [ {| username := user; sessionId := session_id; responses := Some r |} ])
  = c ++ [ {| username := user; sessionId := session_id;
              responses := Some (dict_update r update_dict) |} ].
Proof.
  induction c as [|d c IH]; cbn [find_session app set_responses].
  - intros _. unfold matches_session. cbn [username sessionId].
    by rewrite !String.eqb_refl.
  - destruct (matches_session user session_id d); [done|]. intros H. by rewrite IH.
Qed.

Lemma set_each_last c user session_id r (pairs : dict string) :
  find_session user session_id c = None →
  fold_left (λ c la, set_responses user session_id [la] c) pairs
    (c ++ [ {| username := user; sessionId := session_id; responses := Some r |} ])
  = c ++ [ {| username := user; sessionId := session_id;
              responses := Some (dict_update r pairs) |} ].
Proof.
  intros Hnone. revert r. induction pairs as [|la pairs IH]; intros r; [done|].
  cbn [fold_left]. rewrite set_responses_last by done. by rewrite IH.
Qed.

End BatchFacts.

(** X16. A batch save stores what saving its pairs one by one stores: for
    responses with distinct labels, the collection after
    [save_responses_batch] is the collection after a [save_response] for
    each pair, in the order of the dictionary; and saves keep at most one
    document for a user and a session. (Labels without a dot.) *)
Theorem batch_is_sequence_of_saves (c : session_collection)
    (user session_id : string) (new_responses : dict string) :
  NoDup (dict_keys new_responses) →
  (∀ l, l ∈ dict_keys new_responses → plain_key l) →
  (save_responses_batch (Some c) false user session_id new_responses).2
  = fold_left (λ coll la, (save_response coll false user session_id la.1 la.2).2)
              new_responses (Some c)
  ∧ (unique_sessions c →
     unique_sessions
       (default c
          (save_responses_batch (Some c) false user session_id new_responses).2)).
Proof.
  intros Hnd _. split; [|apply save_responses_batch_unique].
  unfold save_responses_batch.
  destruct new_responses as [|[l a] pairs]; [done|].
  destruct (find_session user session_id c) as [d|] eqn:Hfind; cbn [snd].
  - rewrite save_each_found by (rewrite Hfind; by eexists).
    cbn [fold_left]. by rewrite set_each_compose.
  - cbn [fold_left]. unfold save_response at 2. rewrite Hfind. cbn [snd fst].
    rewrite save_each_found.
    + rewrite set_each_last by done. do 3 f_equal.
      unfold dict_update. rewrite dict_set_all_fresh; [done| |].
      * unfold dict_keys in *. rewrite fmap_cons in Hnd.
        by apply NoDup_cons in Hnd as [_ ?].
      * unfold dict_keys in *. rewrite fmap_cons in Hnd.
        apply NoDup_cons in Hnd as [Hl _]. cbn [fst] in Hl.
        intros k Hk Hk'. cbn in Hk'. apply list_elem_of_singleton in Hk' as ->. done.
    + rewrite find_session_app, Hfind.
      assert (matches_session user session_id
                {| username := user; sessionId := session_id;
                   responses := Some [(l, a)] |} = true) as ->
        by (by apply matches_session_spec).
      by eexists.
Qed.

Lemma batch_is_sequence_of_saves_witness :
  (save_responses_batch (Some []) false "pat@example.org" "session-1"
     [("AA_1", "yes"); ("AA_2", "a dry cough")]).2
  = fold_left
      (λ coll la, (save_response coll false "pat@example.org" "session-1" la.1 la.2).2)
      [("AA_1", "yes"); ("AA_2", "a dry cough")] (Some []).
Proof.
  apply (batch_is_sequence_of_saves [] "pat@example.org" "session-1"
           [("AA_1", "yes"); ("AA_2", "a dry cough")]).
  - by_evaluation.
  - intros l Hl. vm_compute in Hl.
    repeat (apply elem_of_cons in Hl as [->|Hl]; [reflexivity|]).
    by apply elem_of_nil in Hl.
Defined.

(** ** Conversation history and streaming *)

Section HistoryFacts.
Context {A : Type}.
Implicit Types (l : list A).

Lemma slice_from_neg (n : nat) l :
  0 < n → slice_from (- Z.of_nat n) l = drop (length l - n) l.
Proof.
  intros Hn. unfold slice_from.
  destruct (0 <=? - Z.of_nat n)%Z eqn:E; [apply Z.leb_le in E; lia|].
  by rewrite Z.opp_involutive, Nat2Z.id.
Qed.

Lemma slice_from_neg_app (n : nat) (older recent : list A) :
  0 < n → n ≤ length recent →
  slice_from (- Z.of_nat n) (older ++ recent) = slice_from (- Z.of_nat n) recent.
Proof.
  intros Hn Hlen. rewrite !slice_from_neg by done.
  rewrite length_app, drop_app_ge by lia. f_equal. lia.
Qed.

End HistoryFacts.

(** X17. The prompt is built from the last ten messages only: messages
    before the last ten do not change what [_format_history] returns. *)
Theorem format_history_uses_last_ten (older recent : list chat_message) :
  10 ≤ length recent →
  _format_history (older ++ recent) = _format_history recent.
Proof.
  intros Hlen. unfold _format_history.
  change (-10)%Z with (- Z.of_nat 10)%Z.
  by rewrite (slice_from_neg_app 10 older recent) by lia.
Qed.

Lemma format_history_uses_last_ten_witness :
  _format_history
    ([ {| role := "user"; content := "an old message" |} ]
     ++ replicate 10 {| role := "assistant"; content := "Are you ready?" |})
  = _format_history (replicate 10 {| role := "assistant"; content := "Are you ready?" |}).
Proof.
  apply (format_history_uses_last_ten
           [ {| role := "user"; content := "an old message" |} ]
           (replicate 10 {| role := "assistant"; content := "Are you ready?" |})).
  vm_compute. lia.
Defined.

(** X18. The history a text chat leaves for a session is the end of the
    earlier history with the exchange appended. With a positive
    [MAX_CONVERSATION_HISTORY] it holds at most twice that many messages;
    from 5 on, trimming does not change what [_format_history] returns for
    it; with 0 nothing is ever trimmed ([history[-0:]] is the whole list).
    The histories of the other sessions are not touched. *)
Theorem text_chat_history_trimmed (max_history : Z)
    (conversation_sessions : dict (list chat_message))
    (session_id message response_text : string) :
  let history :=
    default [] (dict_get session_id conversation_sessions)
    ++ [ {| role := "user"; content := message |};
         {| role := "assistant"; content := response_text |} ] in
  let updated :=
    update_history max_history conversation_sessions session_id message
      response_text in
  let kept := default [] (dict_get session_id updated) in
  (∃ dropped, history = dropped ++ kept)
  ∧ ((0 < max_history)%Z → (Z.of_nat (length kept) ≤ 2 * max_history)%Z)
  ∧ ((5 ≤ max_history)%Z → _format_history kept = _format_history history)
  ∧ (max_history = 0%Z → kept = history)
  ∧ (∀ other, other ≠ session_id →
              dict_get other updated = dict_get other conversation_sessions).
Proof.
  intros history updated kept. subst updated kept. unfold update_history.
  fold history. rewrite dict_get_set_eq. cbn [default from_option id].
  unfold trim_history, slice_from.
  split; [|split; [|split; [|split]]].
  - destruct (max_history * 2 <? Z.of_nat (length history))%Z; [|by exists []].
    destruct (0 <=? - (max_history * 2))%Z; eexists; symmetry; apply take_drop.
  - intros Hmax.
    destruct (max_history * 2 <? Z.of_nat (length history))%Z eqn:E;
      [|apply Z.ltb_ge in E; lia].
    apply Z.ltb_lt in E.
    destruct (0 <=? - (max_history * 2))%Z eqn:E'; [apply Z.leb_le in E'; lia|].
    rewrite length_drop. lia.
  - intros Hmax.
    destruct (max_history * 2 <? Z.of_nat (length history))%Z eqn:E; [|done].
    apply Z.ltb_lt in E.
    destruct (0 <=? - (max_history * 2))%Z eqn:E'; [apply Z.leb_le in E'; lia|].
    unfold _format_history. f_equal. f_equal.
    change (-10)%Z with (- Z.of_nat 10)%Z. rewrite !slice_from_neg by lia.
    rewrite drop_drop, length_drop. f_equal. lia.
  - intros ->. change (0 * 2)%Z with 0%Z. change (0 <=? - 0)%Z with true.
    change (Z.to_nat (- 0)) with 0.
    destruct (0 <? Z.of_nat (length history))%Z; [apply drop_0|done].
  - intros other Hne. by apply dict_get_set_ne.
Qed.

Lemma text_chat_history_trimmed_witness :
  (Z.of_nat
     (length
        (default []
           (dict_get "s1"
              (update_history 1
                 [("s1", [ {| role := "user"; content := "hello" |};
                           {| role := "assistant"; content := "Are you ready?" |} ])]
                 "s1" "yes" "What brings you in today?"))))
   ≤ 2 * 1)%Z.
Proof.
  apply (text_chat_history_trimmed 1
           [("s1", [ {| role := "user"; content := "hello" |};
                     {| role := "assistant"; content := "Are you ready?" |} ])]
           "s1" "yes" "What brings you in today?").
  lia.
Defined.

Section ChunkFacts.

Lemma join_empty_cons (x : string) (xs : list string) :
  join "" (x :: xs) = x +:+ join "" xs.
Proof.
  cbn [join]. destruct xs as [|y ys]; [by rewrite str_app_nil_r|done].
Qed.

Lemma spaced_app (ws1 ws2 : list string) :
  spaced (ws1 ++ ws2) = spaced ws1 +:+ spaced ws2.
Proof.
  induction ws1 as [|w ws1 IH]; [done|]. cbn [app spaced].
  by rewrite IH, !str_app_assoc.
Qed.

(** The words joined by single spaces, with a space at the end. *)
Lemma join_space_spaced (ws : list string) :
  ws ≠ [] → join " " ws +:+ " " = spaced ws.
Proof.
  induction ws as [|w ws IH]; [done|]. intros _. cbn [join spaced].
  destruct ws as [|w' ws]; [done|].
  rewrite <- IH by done. by rewrite !str_app_assoc.
Qed.

Lemma chunks_from_spaced (ws : list string) (fuel start : nat) :
  length ws - start ≤ fuel →
  join ""
    ((λ i, join " " (take 10 (drop i ws)) +:+ " ")
     <$> range_from fuel start (length ws) 10)
  = spaced (drop start ws).
Proof.
  revert start. induction fuel as [|fuel IH]; intros start Hfuel.
  - cbn [range_from fmap list_fmap join]. by rewrite drop_ge by lia.
  - cbn [range_from]. destruct (start <? length ws) eqn:E.
    + apply Nat.ltb_lt in E. rewrite fmap_cons, join_empty_cons, IH by lia.
      rewrite join_space_spaced.
      * rewrite <- spaced_app, <- drop_drop, take_drop. done.
      * intros Hnil. apply (f_equal length) in Hnil.
        rewrite length_take, length_drop in Hnil.
        change (length (@nil string)) with 0 in Hnil. lia.
    + apply Nat.ltb_ge in E. cbn [fmap list_fmap join]. by rewrite drop_ge by lia.
Qed.

Lemma space_is_space : PyStr.is_space " " = true.
Proof. reflexivity. Qed.

(** Splitting a word followed by a space and more text gives the word and
    the split of the text. *)
Lemma split_whitespace_word (w rest : string) :
  is_word w →
  split_whitespace (w +:+ " " +:+ rest) = w :: split_whitespace rest.
Proof.
  intros [Ht Hall]. induction w as [|c w IH]; [done|].
  cbn [PyStr.all_chars] in Hall. apply andb_true_iff in Hall as [Hc Hw].
  apply negb_true_iff in Hc. rewrite str_app_cons.
  cbn [split_whitespace]. rewrite Hc.
  destruct w as [|c' w].
  - change ("" +:+ " " +:+ rest) with (String " " rest).
    cbn [split_whitespace]. by rewrite !space_is_space.
  - rewrite str_app_cons.
    assert (Hc' : PyStr.is_space c' = false).
    { cbn [PyStr.all_chars] in Hw. apply andb_true_iff in Hw as [Hc' _].
      by apply negb_true_iff in Hc'. }
    rewrite Hc'. rewrite <- str_app_cons. by rewrite IH.
Qed.

Lemma split_whitespace_spaced (ws : list string) :
  Forall is_word ws → split_whitespace (spaced ws) = ws.
Proof.
  induction 1 as [|w ws Hw _ IH]; [done|]. cbn [spaced].
  by rewrite split_whitespace_word, IH.
Qed.

(** What [split] returns are words. *)
Lemma split_whitespace_words (s : string) : Forall is_word (split_whitespace s).
Proof.
  induction s as [|c s IH]; [constructor|]. cbn [split_whitespace].
  destruct (PyStr.is_space c) eqn:Hc; [done|].
  assert (Hone : is_word (String c "")).
  { split; [done|]. cbn [PyStr.all_chars]. by rewrite Hc. }
  destruct s as [|c' s]; [constructor; [exact Hone|constructor]|].
  destruct (PyStr.is_space c') eqn:Hc'; [constructor; [exact Hone|exact IH]|].
  destruct (split_whitespace (String c' s)) as [|w ws];
    [constructor; [exact Hone|constructor]|].
  apply Forall_cons in IH as [[Ht Hall] Hws]. constructor; [|done].
  split; [done|]. cbn [PyStr.all_chars]. by rewrite Hc, Hall.
Qed.

End ChunkFacts.

(** X19. Streaming keeps the words of the response. The chunks, put
    together, are the words of the response, each followed by one space, in
    their order (runs of whitespace become single spaces); splitting that
    text gives the words back; and a response without a word yields no
    chunk at all. *)
Theorem response_chunks_keep_words (response_text : string) :
  join "" (response_chunks response_text)
  = spaced (split_whitespace response_text)
  ∧ split_whitespace (join "" (response_chunks response_text))
    = split_whitespace response_text
  ∧ (response_chunks response_text = [] ↔ split_whitespace response_text = []).
Proof.
  assert (Hjoin : join "" (response_chunks response_text)
                  = spaced (split_whitespace response_text)).
  { unfold response_chunks, range. rewrite chunks_from_spaced by lia.
    by rewrite drop_0. }
  split; [done|]. split.
  - rewrite Hjoin. apply split_whitespace_spaced, split_whitespace_words.
  - unfold response_chunks, range.
    destruct (split_whitespace response_text) as [|w ws]; [done|].
    cbn [length range_from]. done.
Qed.

(** ** The chatbot around the engine *)

Section TurnFacts.
Variable self : QuestionFlowEngine.
Implicit Types (session : session_state) (memory : langgraph_memory).

(** The engine reads the flow fields of the session only. *)
Lemma process_message_same_flow_state message s1 s2 memory :
  same_flow_state s1 s2 →
  visible (process_message self message s1 memory)
  = visible (process_message self message s2 memory)
  ∧ same_flow_state (r_session_state (process_message self message s1 memory))
                    (r_session_state (process_message self message s2 memory)).
Proof.
  destruct s1 as [A1 a1 m1 c1 k1 t1], s2 as [A2 a2 m2 c2 k2 t2].
  intros (HA & Ha & Hm & Hc). cbn in HA, Ha, Hm, Hc. subst A2 a2 m2 c2.
  unfold process_message, is_first_interaction.
  cbn [ss_answered_questions ss_current_question_id].
  destruct ((size A1 =? 0) && match c1 with Some _ => false | None => true end).
  - unfold first_interaction.
    destruct (_get_available_questions self ∅) as [|q qs]; [done|].
    by destruct (_sort_questions_by_order self (q :: qs)).
  - unfold subsequent_interaction.
    assert (Hi : initial_state_of message
                   {| ss_answered_questions := A1; ss_answers := a1;
                      ss_messages := m1; ss_current_question_id := c1;
                      ss_asked_questions := k1; ss_current_question_text := t1 |}
                 = initial_state_of message
                     {| ss_answered_questions := A1; ss_answers := a1;
                        ss_messages := m1; ss_current_question_id := c1;
                        ss_asked_questions := k2; ss_current_question_text := t2 |})
      by reflexivity.
    rewrite Hi. unfold result_of, visible, same_flow_state.
    cbn [response next_question r_flow_complete answered_count total_questions
         r_current_question_id r_error r_session_state ss_answered_questions
         ss_answers ss_messages ss_current_question_id].
    split; [reflexivity|]. repeat split; reflexivity.
Qed.

Lemma dict_set_twice {V} k (v : V) (d : dict V) :
  dict_set k v (dict_set k v d) = dict_set k v d.
Proof. apply dict_set_same, dict_get_set_eq. Qed.

(** Marking the pending question before the call changes nothing for the
    engine, which marks it itself. *)
Lemma process_message_mark_answered message session memory :
  visible (process_message self message
             (mark_answered (ss_current_question_id session) message session) memory)
  = visible (process_message self message session memory)
  ∧ same_flow_state
      (r_session_state
         (process_message self message
            (mark_answered (ss_current_question_id session) message session) memory))
      (r_session_state (process_message self message session memory)).
Proof.
  unfold mark_answered.
  destruct (ss_current_question_id session) as [q|] eqn:Hq; [|done].
  destruct (PyStr.truthy q) eqn:Ht; [|done].
  unfold process_message, is_first_interaction.
  cbn [ss_answered_questions ss_current_question_id]. rewrite Hq, !andb_false_r.
  unfold subsequent_interaction.
  assert (Hinit : initial_state_of message
                    {| ss_answered_questions :=
                         if bool_decide (q ∈ ss_answered_questions session)
                         then ss_answered_questions session
                         else ss_answered_questions session ∪ {[ q ]};
                       ss_answers := dict_set q message (ss_answers session);
                       ss_messages := ss_messages session;
                       ss_current_question_id := Some q;
                       ss_asked_questions := ss_asked_questions session ∪ {[ q ]};
                       ss_current_question_text := ss_current_question_text session |}
                  = initial_state_of message session).
  { unfold initial_state_of.
    cbn [ss_answered_questions ss_current_question_id ss_answers ss_messages].
    rewrite Hq, Ht, dict_set_twice. f_equal.
    destruct (bool_decide (q ∈ ss_answered_questions session)) eqn:E; [|set_solver].
    apply bool_decide_eq_true in E. set_solver. }
  rewrite Hinit. done.
Qed.

Lemma is_first_message_first_interaction session :
  is_first_message session = true →
  is_first_interaction session = true ∧ ss_answers session = [].
Proof.
  unfold is_first_message, is_first_interaction.
  destruct (ss_current_question_id session); [done|].
  destruct (0 <? size (ss_asked_questions session)); [done|].
  intros [-> Ha]%andb_true_iff. split; [done|].
  apply negb_true_iff, Nat.ltb_ge in Ha. destruct (ss_answers session); [done|].
  cbn in Ha. lia.
Qed.

Lemma first_message_turn_spec message session memory :
  is_first_message session = true →
  visible (first_message_turn self message session memory).1
  = visible (process_message self message session memory)
  ∧ same_flow_state (first_message_turn self message session memory).2
                    (r_session_state (process_message self message session memory))
  ∧ ss_answers (r_session_state (process_message self message session memory)) = []
  ∧ ss_asked_questions (r_session_state (process_message self message session memory))
    ⊆ ss_asked_questions (first_message_turn self message session memory).2.
Proof.
  intros [Hfirst Hans]%is_first_message_first_interaction.
  unfold first_message_turn, process_message. rewrite Hfirst.
  unfold first_interaction.
  destruct (_get_available_questions self ∅) as [|q0 qs] eqn:Hav.
  { cbn. by rewrite Hans. }
  destruct (_sort_questions_by_order self (q0 :: qs)) as [|q rest] eqn:Hso.
  { by apply sort_questions_nil_inv in Hso. }
  cbn [response r_current_question_id r_session_state fst snd].
  split; [|split; [|split]].
  - by destruct (PyStr.truthy (q_question q)).
  - by destruct (PyStr.truthy (q_id q)).
  - done.
  - destruct (PyStr.truthy (q_id q)); cbn; set_solver.
Qed.

Lemma answer_turn_spec message session memory :
  visible (answer_turn self message session memory).1
  = visible (process_message self message session memory)
  ∧ same_flow_state (answer_turn self message session memory).2
                    (r_session_state (process_message self message session memory)).
Proof.
  destruct (process_message_mark_answered message session memory) as [Hv Hs].
  unfold answer_turn. cbn [fst snd]. split; [exact Hv|].
  set (r := process_message self message
              (mark_answered (ss_current_question_id session) message session)
              memory) in *.
  destruct (r_current_question_id r) as [q|]; [|exact Hs].
  destruct (PyStr.truthy q && PyStr.truthy (PyStr.strip (response r))
            && negb (bool_decide (Some q = ss_current_question_id session)));
    exact Hs.
Qed.

(** The merge leaves a consistent session state as it is, with the pending
    label of the result. *)
Lemma merge_flow_result_spec (r : flow_result) session :
  key_set (ss_answers (merge_flow_result r session))
    ⊆ ss_answered_questions (merge_flow_result r session)
  ∧ ss_current_question_id (merge_flow_result r session) = r_current_question_id r
  ∧ ss_asked_questions (merge_flow_result r session) = ss_asked_questions session
  ∧ (session_consistent session →
     ss_answers (merge_flow_result r session) = ss_answers session
     ∧ ss_answered_questions (merge_flow_result r session)
       = ss_answered_questions session).
Proof.
  unfold merge_flow_result.
  cbn [ss_answers ss_answered_questions ss_current_question_id ss_asked_questions].
  split; [set_solver|]. split; [done|]. split; [done|].
  intros [Hnd Hk]. rewrite dict_update_self by done. split; [done|]. set_solver.
Qed.

Lemma process_message_answers_nodup message session memory :
  no_stored_values memory →
  NoDup (dict_keys (ss_answers session)) →
  NoDup (dict_keys (ss_answers
                      (r_session_state (process_message self message session memory)))).
Proof.
  intros Hmem Hnd. unfold process_message.
  destruct (is_first_interaction session) eqn:Hfirst.
  { unfold first_interaction.
    destruct (_get_available_questions self ∅) as [|q0 qs]; [done|].
    by destruct (_sort_questions_by_order self (q0 :: qs)). }
  rewrite subsequent_interaction_answers.
  destruct (truthy_opt (ss_current_question_id session)) eqn:Hc.
  - destruct (ss_current_question_id session) as [q|] eqn:Hq; [|done].
    cbn [truthy_opt] in Hc.
    destruct (loaded_state_pending_fields message session memory q Hmem Hq Hc)
      as [Hans _].
    destruct (process_answer_pending self
                (loaded_state message session memory) message q)
      as [-> _]; [apply loaded_state_last|by apply loaded_state_current|done|].
    rewrite Hans. by do 2 apply dict_set_nodup.
  - destruct (loaded_state_no_checkpoint message session memory
                (no_stored_values_spec memory Hmem)) as (Hm & Hcur & Hrest).
    destruct (Hrest Hc) as [Hans _].
    destruct (process_answer_no_pending self (loaded_state message session memory))
      as [-> _]; [by rewrite Hcur|done|]. by rewrite Hans.
Qed.

Lemma process_message_consistent message session memory :
  no_stored_values memory → session_consistent session →
  session_consistent (r_session_state (process_message self message session memory)).
Proof.
  intros Hmem [Hnd Hk]. split; [by apply process_message_answers_nodup|].
  unfold process_message. destruct (is_first_interaction session) eqn:Hfirst.
  - unfold first_interaction.
    destruct (_get_available_questions self ∅) as [|q0 qs]; [done|].
    by destruct (_sort_questions_by_order self (q0 :: qs)).
  - apply subsequent_interaction_count.
Qed.

End TurnFacts.

Section TurnResults.
Variable self : QuestionFlowEngine.
Implicit Types (session : session_state) (memory : langgraph_memory).

Lemma process_message_current message session memory :
  ss_current_question_id (r_session_state (process_message self message session memory))
  = r_current_question_id (process_message self message session memory).
Proof.
  unfold process_message. destruct (is_first_interaction session) eqn:Hfirst.
  - apply is_first_interaction_spec in Hfirst as [_ Hc].
    destruct (first_interaction_fields self message session) as (_ & -> & -> & _).
    rewrite Hc. by destruct (next_label self ∅).
  - by destruct (subsequent_interaction_fields self message session memory)
      as (_ & -> & -> & _).
Qed.

Lemma process_message_asked message session memory :
  ss_asked_questions session
  ⊆ ss_asked_questions (r_session_state (process_message self message session memory)).
Proof.
  unfold process_message. destruct (is_first_interaction session).
  - unfold first_interaction.
    destruct (_get_available_questions self ∅) as [|q0 qs]; [done|].
    destruct (_sort_questions_by_order self (q0 :: qs)); [done|]. cbn. set_solver.
  - done.
Qed.

(** The session state a turn works on after the engine has run: it has the
    flow fields of the session state the engine returns. *)
Lemma turn_branch_spec message session memory :
  let branch :=
    if is_first_message session
    then first_message_turn self message session memory
    else answer_turn self message session memory in
  visible branch.1 = visible (process_message self message session memory)
  ∧ same_flow_state branch.2
      (r_session_state (process_message self message session memory)).
Proof.
  intros branch. subst branch. destruct (is_first_message session) eqn:Hfirst.
  - by destruct (first_message_turn_spec self message session memory Hfirst)
      as (? & ? & _).
  - apply answer_turn_spec.
Qed.

Lemma flow_turn_unfold question_flow_sessions session_id message memory :
  flow_turn self question_flow_sessions session_id message memory
  = let session :=
      default new_session_state (dict_get session_id question_flow_sessions) in
    let branch :=
      if is_first_message session
      then first_message_turn self message session memory
      else answer_turn self message session memory in
    (branch.1,
     dict_set session_id (merge_flow_result branch.1 branch.2) question_flow_sessions).
Proof.
  unfold flow_turn. cbv zeta.
  by destruct (if is_first_message _ then _ else _).
Qed.

Lemma flow_turn_visible question_flow_sessions session_id message memory :
  visible (flow_turn self question_flow_sessions session_id message memory).1
  = visible (process_message self message
               (default new_session_state (dict_get session_id question_flow_sessions))
               memory).
Proof.
  rewrite flow_turn_unfold. cbv zeta.
  by destruct (turn_branch_spec message
                 (default new_session_state
                    (dict_get session_id question_flow_sessions)) memory) as [Hv _].
Qed.

End TurnResults.

(** X20. A turn of the chatbot gets from the engine what
    [process_message] returns for the session state the store holds (a new
    one for a session it does not know): marking the pending question
    before the call and making up a response after it change nothing in
    the result. What the turn stores
    for the session has the pending label of the result and every answer
    under an answered label; what is stored for the other sessions is not
    touched. *)
Theorem flow_turn_returns_engine_result (self : QuestionFlowEngine)
    (question_flow_sessions : dict session_state)
    (session_id message : string) (memory : langgraph_memory) :
  let session :=
    default new_session_state (dict_get session_id question_flow_sessions) in
  let turn := flow_turn self question_flow_sessions session_id message memory in
  visible turn.1 = visible (process_message self message session memory)
  ∧ (∃ stored,
       dict_get session_id turn.2 = Some stored
       ∧ ss_current_question_id stored = r_current_question_id turn.1
       ∧ key_set (ss_answers stored) ⊆ ss_answered_questions stored)
  ∧ (∀ other, other ≠ session_id →
              dict_get other turn.2 = dict_get other question_flow_sessions).
Proof.
  intros session turn. subst turn. split; [apply flow_turn_visible|].
  rewrite flow_turn_unfold. cbv zeta. fold session. cbn [fst snd]. split.
  - eexists. rewrite dict_get_set_eq. split; [done|].
    destruct (merge_flow_result_spec
                (if is_first_message session
                 then first_message_turn self message session memory
                 else answer_turn self message session memory).1
                (if is_first_message session
                 then first_message_turn self message session memory
                 else answer_turn self message session memory).2)
      as (Hk & Hc & _).
    split; [exact Hc|exact Hk].
  - intros other Hne. by apply dict_get_set_ne.
Qed.

Section Conversation.
Variable self : QuestionFlowEngine.
Implicit Types (session : session_state) (memory : langgraph_memory).

Lemma same_flow_state_consistent s1 s2 :
  same_flow_state s1 s2 → session_consistent s2 → session_consistent s1.
Proof. intros (HA & Ha & _) [? ?]. unfold session_consistent. by rewrite HA, Ha. Qed.

Lemma same_flow_state_trans s1 s2 s3 :
  same_flow_state s1 s2 → same_flow_state s2 s3 → same_flow_state s1 s3.
Proof.
  intros (? & ? & ? & ?) (? & ? & ? & ?). unfold same_flow_state.
  repeat split; congruence.
Qed.

(** What a turn stores, for a consistent session state and a memory
    without values: the session state the engine returns, as far as the
    flow goes, and consistent again. *)
Lemma flow_turn_stored question_flow_sessions session_id message memory :
  let session :=
    default new_session_state (dict_get session_id question_flow_sessions) in
  no_stored_values memory → session_consistent session →
  ∃ stored,
    dict_get session_id
      (flow_turn self question_flow_sessions session_id message memory).2
    = Some stored
    ∧ same_flow_state stored
        (r_session_state (process_message self message session memory))
    ∧ session_consistent stored.
Proof.
  intros session Hmem Hcons. rewrite flow_turn_unfold. cbv zeta. fold session.
  destruct (turn_branch_spec self message session memory) as [Hv Hs].
  cbv zeta in Hv, Hs.
  set (branch := if is_first_message session
                 then first_message_turn self message session memory
                 else answer_turn self message session memory) in *.
  cbn [fst snd]. eexists. rewrite dict_get_set_eq. split; [done|].
  pose proof (process_message_consistent self message session memory Hmem Hcons)
    as Hcons'.
  pose proof (same_flow_state_consistent _ _ Hs Hcons') as Hb.
  destruct (merge_flow_result_spec branch.1 branch.2) as (Hk & Hc & _ & Hrest).
  destruct (Hrest Hb) as [Hans Hansw].
  assert (Hsame : same_flow_state (merge_flow_result branch.1 branch.2)
                    (r_session_state (process_message self message session memory))).
  { destruct Hs as (HA & Ha & Hm & Hcur). split; [by rewrite Hansw|].
    split; [by rewrite Hans|]. split; [exact Hm|].
    rewrite Hc, process_message_current.
    by injection Hv as _ _ _ _ _ -> _. }
  split; [exact Hsame|]. by eapply same_flow_state_consistent.
Qed.

Lemma flow_turns_run question_flow_sessions session_id engine_session inputs :
  let session :=
    default new_session_state (dict_get session_id question_flow_sessions) in
  same_flow_state session engine_session → session_consistent session →
  Forall (λ input, no_stored_values input.2) inputs →
  visible <$> flow_turns self question_flow_sessions session_id inputs
  = visible <$> run self engine_session inputs.
Proof.
  revert question_flow_sessions engine_session.
  induction inputs as [|[message memory] inputs IH];
    intros question_flow_sessions engine_session session Hsame Hcons Hmem; [done|].
  apply Forall_cons in Hmem as [Hmem Hrest]. cbn [snd] in Hmem.
  cbn [flow_turns run].
  pose proof (flow_turn_visible self question_flow_sessions session_id message
                memory) as Hv. fold session in Hv.
  destruct (flow_turn_stored question_flow_sessions session_id message memory
              Hmem Hcons) as (stored & Hget & Hst & Hsc). fold session in Hst.
  destruct (process_message_same_flow_state self message session engine_session
              memory Hsame) as [Hve Hse].
  destruct (flow_turn self question_flow_sessions session_id message memory)
    as [r question_flow_sessions'] eqn:Hturn.
  cbn [fst snd] in Hv, Hget. rewrite !fmap_cons. f_equal; [congruence|].
  apply IH; [|by rewrite Hget|done]. rewrite Hget. cbn [default from_option id].
  by eapply same_flow_state_trans.
Qed.

End Conversation.

(** X21. Inside the chatbot the engine runs as it does on its own: for a
    session the store does not know, and while the LangGraph memory holds
    no values, the results the turns get from the engine (the
    [flow_result] of each turn, from which the turn then words its reply)
    show, one by one, what the calls of the engine show when each call is
    given the session state the call before returned, starting from none
    (response, next question, completion, counts, pending label and
    error). *)
Theorem flow_turns_follow_engine_run (self : QuestionFlowEngine)
    (session_id : string) (inputs : list (string * langgraph_memory)) :
  Forall (λ input, no_stored_values input.2) inputs →
  visible <$> flow_turns self [] session_id inputs
  = visible <$> run self fresh_session inputs.
Proof.
  intros Hmem. apply flow_turns_run; [done| |done].
  split; [constructor|done].
Qed.

Lemma flow_turns_follow_engine_run_witness :
  visible <$> flow_turns scenario_engine [] "session-1"
                [("hello", NoCheckpoint); ("yes", NoCheckpoint)]
  = visible <$> run scenario_engine fresh_session
                  [("hello", NoCheckpoint); ("yes", NoCheckpoint)].
Proof.
  apply (flow_turns_follow_engine_run scenario_engine "session-1"
           [("hello", NoCheckpoint); ("yes", NoCheckpoint)]).
  repeat constructor.
Defined.

Lemma answer_turn_asked (self : QuestionFlowEngine) (message : string)
    (session : session_state) (memory : langgraph_memory) (q : string) :
  ss_current_question_id session = Some q → PyStr.truthy q = true →
  q ∈ ss_asked_questions (answer_turn self message session memory).2.
Proof.
  intros Hq Ht. unfold answer_turn. cbn [snd].
  set (marked := mark_answered (ss_current_question_id session) message session).
  assert (Hin : q ∈ ss_asked_questions
                      (r_session_state (process_message self message marked memory))).
  { apply process_message_asked. unfold marked, mark_answered. rewrite Hq, Ht.
    cbn. set_solver. }
  destruct (r_current_question_id (process_message self message marked memory))
    as [q'|]; [|exact Hin].
  by destruct (PyStr.truthy q' && _ && _).
Qed.

(** X22. The message of a turn is stored as the answer to the question
    that was pending for the session: when the store holds a consistent
    state for the session with a pending label, and the LangGraph memory
    holds no values, the state stored after the turn has the message under
    that label, the label is among its answered and its asked labels, and
    the state is consistent again. *)
Theorem flow_turn_stores_answer (self : QuestionFlowEngine)
    (question_flow_sessions : dict session_state)
    (session_id message : string) (memory : langgraph_memory)
    (session : session_state) (q : string) :
  dict_get session_id question_flow_sessions = Some session →
  ss_current_question_id session = Some q → PyStr.truthy q = true →
  session_consistent session → no_stored_values memory →
  ∃ stored,
    dict_get session_id
      (flow_turn self question_flow_sessions session_id message memory).2
    = Some stored
    ∧ dict_get q (ss_answers stored) = Some message
    ∧ q ∈ ss_answered_questions stored
    ∧ q ∈ ss_asked_questions stored
    ∧ session_consistent stored.
Proof.
  intros Hget Hq Ht Hcons Hmem.
  destruct (flow_turn_stored self question_flow_sessions session_id message memory)
    as (stored & Hstored & (HA & Ha & _) & Hsc); [done|by rewrite Hget|].
  rewrite Hget in HA, Ha. cbn [default from_option id] in HA, Ha.
  exists stored. split; [exact Hstored|]. rewrite Ha, HA.
  split; [by apply process_message_pending_answer|].
  split; [by apply pending_recorded|]. split; [|exact Hsc].
  rewrite flow_turn_unfold in Hstored. cbv zeta in Hstored.
  rewrite Hget in Hstored. cbn [default from_option id snd] in Hstored.
  rewrite dict_get_set_eq in Hstored. injection Hstored as <-.
  assert (is_first_message session = false) as ->
    by (unfold is_first_message; by rewrite Hq).
  cbn [ss_asked_questions merge_flow_result]. by apply answer_turn_asked.
Qed.

Lemma flow_turn_stores_answer_witness :
  ∃ stored,
    dict_get "session-1"
      (flow_turn scenario_engine [("session-1", pending_session)] "session-1"
         "yes" NoCheckpoint).2
    = Some stored
    ∧ dict_get "A_1" (ss_answers stored) = Some "yes"
    ∧ "A_1" ∈ ss_answered_questions stored
    ∧ "A_1" ∈ ss_asked_questions stored
    ∧ session_consistent stored.
Proof.
  apply (flow_turn_stores_answer scenario_engine [("session-1", pending_session)]
           "session-1" "yes" NoCheckpoint pending_session "A_1").
  - reflexivity.
  - reflexivity.
  - reflexivity.
  - split; [constructor|done].
  - exact I.
Defined.

Section StoreFacts.
Context {V : Type}.
Implicit Types (d : dict V) (k : string).

Lemma dict_get_del_ne k k' d : k' ≠ k → dict_get k' (dict_del k d) = dict_get k' d.
Proof.
  intros Hne. induction d as [|[k0 v0] d IH]; [done|]. cbn [dict_del dict_get].
  destruct (String.eqb k k0) eqn:E.
  - apply String.eqb_eq in E as <-.
    by apply String.eqb_neq in Hne as ->.
  - cbn [dict_get]. by rewrite IH.
Qed.

Lemma dict_get_del_eq k d : NoDup (dict_keys d) → dict_get k (dict_del k d) = None.
Proof.
  unfold dict_keys. induction d as [|[k0 v0] d IH]; [done|].
  rewrite fmap_cons. intros [Hk Hnd]%NoDup_cons. cbn [dict_del fst] in *.
  destruct (String.eqb k k0) eqn:E.
  - apply String.eqb_eq in E as ->. by apply dict_get_None_keys.
  - cbn [dict_get]. rewrite E. by apply IH.
Qed.

End StoreFacts.

(** X23. Resetting the question flow of a session forgets the session and
    no other: afterwards the session has no status, the next turn on it
    goes as on a session the store never knew, and every other session is
    stored as before. Without a session id, or with the empty string as
    the id, the reset forgets every session. *)
Theorem reset_question_flow_forgets (self : QuestionFlowEngine)
    (question_flow_sessions : dict session_state) (session_id : string) :
  NoDup (dict_keys question_flow_sessions) →
  PyStr.truthy session_id = true →
  let after := reset_question_flow (Some session_id) question_flow_sessions in
  get_question_flow_status true (Some self) after session_id = None
  ∧ (∀ message memory,
       (flow_turn self after session_id message memory).1
       = (flow_turn self [] session_id message memory).1)
  ∧ (∀ other, other ≠ session_id →
              dict_get other after = dict_get other question_flow_sessions)
  ∧ reset_question_flow None question_flow_sessions = []
  ∧ reset_question_flow (Some "") question_flow_sessions = [].
Proof.
  intros Hnd Ht after.
  assert (Hnone : dict_get session_id after = None).
  { subst after. unfold reset_question_flow. cbn [truthy_opt]. rewrite Ht.
    unfold dict_mem.
    destruct (dict_get session_id question_flow_sessions) eqn:E; [|done].
    by apply dict_get_del_eq. }
  split; [|split; [|split]].
  - unfold get_question_flow_status. cbn. by rewrite Hnone.
  - intros message memory. rewrite !flow_turn_unfold. cbv zeta. by rewrite Hnone.
  - intros other Hne. subst after. unfold reset_question_flow.
    cbn [truthy_opt]. rewrite Ht.
    destruct (dict_mem session_id question_flow_sessions); [|done].
    by apply dict_get_del_ne.
  - done.
Qed.

Lemma reset_question_flow_forgets_witness :
  get_question_flow_status true (Some scenario_engine)
    (reset_question_flow (Some "session-1")
       [("session-1", pending_session); ("session-2", recorded_session)])
    "session-1"
  = None.
Proof.
  apply (reset_question_flow_forgets scenario_engine
           [("session-1", pending_session); ("session-2", recorded_session)]
           "session-1").
  - by_evaluation.
  - reflexivity.
Defined.

(** ** Answer export: the pairs of a turn and the temporary storage *)

Section StripFacts.
Import PyStr.

Lemma rstrip_idem (s : string) : rstrip (rstrip s) = rstrip s.
Proof.
  induction s as [|c s IH]; [done|]. cbn [rstrip].
  destruct (rstrip s) as [|c' r] eqn:E.
  - destruct (is_space c) eqn:Hc; [done|]. cbn [rstrip]. by rewrite Hc.
  - cbn [rstrip]. cbn [rstrip] in IH. by rewrite IH.
Qed.

Lemma lstrip_fixed (s : string) :
  match s with String c _ => is_space c = false | EmptyString => True end →
  lstrip s = s.
Proof. destruct s as [|c s]; [done|]. cbn [lstrip]. by intros ->. Qed.

(** [strip] leaves a stripped text as it is. *)
Lemma strip_idem (s : string) : strip (strip s) = strip s.
Proof.
  unfold strip.
  assert (Hl : lstrip (rstrip (lstrip s)) = rstrip (lstrip s)).
  { apply lstrip_fixed.
    destruct (lstrip s) as [|c r] eqn:E; [done|].
    pose proof (lstrip_head _ _ _ E) as Hc.
    by destruct (rstrip_head c r Hc) as [r' ->]. }
  by rewrite Hl, rstrip_idem.
Qed.

End StripFacts.

(** X24. What a save keeps is stripped: no question text and no answer
    among the pairs that pass the filter of [save_user_responses] begins
    or ends with whitespace, so stripping a kept text again gives the same
    text. *)
Theorem saved_pairs_are_stripped (responses : dict string) (t a : string) :
  (t, a) ∈ valid_responses responses →
  PyStr.strip t = t ∧ PyStr.strip a = a.
Proof.
  intros (q0 & a0 & _ & _ & -> & ->)%valid_responses_origin.
  by rewrite !strip_idem.
Qed.

Lemma saved_pairs_are_stripped_witness :
  PyStr.strip "How long have you had these symptoms?"
  = "How long have you had these symptoms?"
  ∧ PyStr.strip "two days" = "two days".
Proof.
  apply (saved_pairs_are_stripped
           [("  How long have you had these symptoms? ", " two days ")]).
  vm_compute. left.
Defined.

Section PairFacts.
Variable self : QuestionFlowEngine.

Lemma add_answer_by_label_keeps (session : session_state) (acc : dict string)
    (la : string * string) (t a : string) :
  dict_get t acc = Some a →
  dict_get t (add_answer_by_label self session acc la) = Some a.
Proof.
  intros Hget. unfold add_answer_by_label. destruct la as [label answer].
  destruct (negb (PyStr.truthy answer) || negb (PyStr.truthy (PyStr.strip answer)));
    [done|].
  destruct (match dict_get label (ss_current_question_text session) with
            | Some t0 => _ | None => _ end) as [t'|]; [|done].
  destruct (PyStr.truthy t' && (20 <=? String.length t')); [|done].
  destruct (dict_mem t' acc) eqn:Hmem; [done|].
  rewrite dict_get_set_ne; [done|]. intros <-. unfold dict_mem in Hmem.
  by rewrite Hget in Hmem.
Qed.

Lemma add_answer_by_label_nodup (session : session_state) (acc : dict string)
    (la : string * string) :
  NoDup (dict_keys acc) → NoDup (dict_keys (add_answer_by_label self session acc la)).
Proof.
  intros Hnd. unfold add_answer_by_label. destruct la as [label answer].
  destruct (negb (PyStr.truthy answer) || negb (PyStr.truthy (PyStr.strip answer)));
    [done|].
  destruct (match dict_get label (ss_current_question_text session) with
            | Some t0 => _ | None => _ end) as [t'|]; [|done].
  destruct (PyStr.truthy t' && (20 <=? String.length t')); [|done].
  destruct (dict_mem t' acc); [done|]. by apply dict_set_nodup.
Qed.

End PairFacts.

(** X25. The pair captured in the turn has priority in the export: when
    its question text, stripped, has 20 characters or more and its answer,
    stripped, is not empty, the answers by question hold that answer for
    that text, whatever answers the session state holds; and no question
    text is held twice. *)
Theorem current_pair_takes_priority (self : QuestionFlowEngine)
    (q a : string) (session : session_state) :
  20 ≤ String.length (PyStr.strip q) →
  PyStr.truthy (PyStr.strip a) = true →
  dict_get (PyStr.strip q)
    (all_answers_by_question self (Some (q, a)) session) = Some (PyStr.strip a)
  ∧ NoDup (dict_keys (all_answers_by_question self (Some (q, a)) session)).
Proof.
  intros Hlen Ha. unfold all_answers_by_question.
  assert (Hq : PyStr.truthy (PyStr.strip q) = true).
  { destruct (PyStr.strip q); [cbn in Hlen; lia|done]. }
  rewrite Hq, Ha. apply Nat.leb_le in Hlen. rewrite Hlen. cbn [andb].
  assert (H : ∀ (l acc : dict string),
            dict_get (PyStr.strip q) acc = Some (PyStr.strip a) →
            NoDup (dict_keys acc) →
            dict_get (PyStr.strip q)
              (fold_left (add_answer_by_label self session) l acc)
            = Some (PyStr.strip a)
            ∧ NoDup (dict_keys (fold_left (add_answer_by_label self session) l acc))).
  { induction l as [|la l IH]; intros acc Hget Hnd; [done|]. cbn [fold_left].
    apply IH; [by apply add_answer_by_label_keeps|by apply add_answer_by_label_nodup]. }
  apply H.
  - cbn [dict_get]. by rewrite String.eqb_refl.
  - apply NoDup_singleton.
Qed.

Lemma current_pair_takes_priority_witness :
  dict_get "What is the main reason for your visit?"
    (all_answers_by_question short_text_engine
       (Some ("What is the main reason for your visit?", "a bad cough "))
       short_text_session)
  = Some "a bad cough".
Proof.
  apply (current_pair_takes_priority short_text_engine
           "What is the main reason for your visit?" "a bad cough "
           short_text_session).
  - vm_compute. lia.
  - reflexivity.
Defined.

(** X26. The capture at the start of a turn only adds to the temporary
    storage: a question text it holds for a user before is still held for
    that user after, and what it holds for the users other than the one
    of the turn is as it was. A captured answer is the message, stripped
    and not empty, and its question text is not empty (its length is not
    checked); for a user with an email, the storage then holds that answer
    under that question text. When nothing is captured the storage is as
    it was. *)
Theorem capture_adds_to_temporary_storage (self : QuestionFlowEngine)
    (previous_current_q : option string) (message : string)
    (session : session_state) (user_email : option string)
    (temp_qa_storage : dict (dict string)) :
  let captured :=
    capture_qa_pair self previous_current_q message session user_email
      temp_qa_storage in
  (∀ u t, t ∈ dict_keys (default [] (dict_get u temp_qa_storage)) →
          t ∈ dict_keys (default [] (dict_get u captured.2)))
  ∧ (∀ u, user_email ≠ Some u →
          dict_get u captured.2 = dict_get u temp_qa_storage)
  ∧ (∀ question_text answer_text,
       captured.1 = Some (question_text, answer_text) →
       answer_text = PyStr.strip message
       ∧ answer_text ≠ "" ∧ question_text ≠ ""
       ∧ ∀ e, user_email = Some e → e ≠ "" →
              dict_get question_text (default [] (dict_get e captured.2))
              = Some answer_text)
  ∧ (captured.1 = None → captured.2 = temp_qa_storage).
Proof.
  intros captured. subst captured. unfold capture_qa_pair.
  destruct previous_current_q as [q|]; [|done].
  destruct (PyStr.truthy q && PyStr.truthy message
            && PyStr.truthy (PyStr.strip message)) eqn:Hcond; [|done].
  apply andb_true_iff in Hcond as [_ Hstrip].
  set (question_text :=
         match dict_get q (ss_current_question_text session) with
         | Some t => t
         | None =>
             match dict_get q (questions self) with
             | Some question_data => qd_question question_data
             | None => q
             end
         end).
  destruct (PyStr.truthy question_text) eqn:Htext; [|done]. cbn [fst snd].
  split; [|split; [|split]].
  - intros u t Hin.
    destruct user_email as [e|]; [|done]. destruct (PyStr.truthy e); [|done].
    unfold temp_store. rewrite dict_get_set.
    destruct (String.eqb e u) eqn:E; [|done].
    apply String.eqb_eq in E as ->. cbn [default from_option id].
    apply dict_keys_set. by right.
  - intros u Hne.
    destruct user_email as [e|]; [|done]. destruct (PyStr.truthy e); [|done].
    unfold temp_store. apply dict_get_set_ne. congruence.
  - intros ? answer_text [= <- <-]. split; [done|].
    split; [by intros Heq; rewrite Heq in Hstrip|].
    split; [by intros Heq; rewrite Heq in Htext|].
    intros e -> He.
    assert (PyStr.truthy e = true) as -> by (by destruct e).
    unfold temp_store. rewrite dict_get_set_eq. cbn [default from_option id].
    apply dict_get_set_eq.
  - done.
Qed.

Lemma capture_adds_to_temporary_storage_witness :
  "Do you take any medication every day?"
  ∈ dict_keys
      (default []
         (dict_get "pat@example.org"
            (capture_qa_pair short_text_engine (Some "AA_2") "yes"
               short_text_session (Some "pat@example.org")
               [("pat@example.org",
                 [("Do you take any medication every day?", "no")])]).2))
  ∧ dict_get "Are you ready?"
      (default []
         (dict_get "pat@example.org"
            (capture_qa_pair short_text_engine (Some "AA_2") "yes"
               short_text_session (Some "pat@example.org")
               [("pat@example.org",
                 [("Do you take any medication every day?", "no")])]).2))
    = Some "yes".
Proof.
  destruct (capture_adds_to_temporary_storage short_text_engine (Some "AA_2")
              "yes" short_text_session (Some "pat@example.org")
              [("pat@example.org",
                [("Do you take any medication every day?", "no")])])
    as (Hkeep & _ & Hnew & _).
  split.
  - apply Hkeep. vm_compute. left.
  - apply (Hnew "Are you ready?" "yes" ltac:(reflexivity)).
    + reflexivity.
    + discriminate.
Defined.
